(** * Cuadrantes-Colombia: the multi-source resolution engine

    A shallow embedding of the code grammar parsers, the roster
    deduplication, the TTL caches, the CAI resolver tiers, the quadrant
    fallback orchestrator and the great-circle distance, with the
    properties the specification states about them.

    Conventions of the embedding:
    - a JavaScript string is a [string] of bytes; [toUpperCase] and [trim]
      act on the ASCII letters and the ASCII white space;
    - [undefined] is [None];
    - module-level [let] variables are the fields of a state record that
      every operation takes and returns;
    - a call that reaches the network is an oracle of the environment, and
      every such call is appended to a log kept in the state;
    - a call that may throw gives an [outcome], and the state it leaves
      beside it;
    - where the searches only compare distances a number is a rational or
      one of the three special values; where the distance itself is
      computed a number is a binary64 float. *)

From Stdlib Require Import String Ascii List Bool Arith ZArith QArith Qabs Lia Lqa.
From Stdlib Require Import Floats.
From stdpp Require Import gmap strings list.

Open Scope string_scope.
Open Scope list_scope.

(** ** JavaScript strings and regular expressions *)

Module JS.

Definition code (c : ascii) : nat := nat_of_ascii c.

Definition isDigit (c : ascii) : bool :=
  (48 <=? code c)%nat && (code c <=? 57)%nat.

Definition isUpper (c : ascii) : bool :=
  (65 <=? code c)%nat && (code c <=? 90)%nat.

Definition isLower (c : ascii) : bool :=
  (97 <=? code c)%nat && (code c <=? 122)%nat.

(** [\s] restricted to the ASCII range: TAB, LF, VT, FF, CR and space. *)
Definition isSpace (c : ascii) : bool :=
  ((9 <=? code c)%nat && (code c <=? 13)%nat) || (code c =? 32)%nat.

Definition upcase (c : ascii) : ascii :=
  if isLower c then ascii_of_nat (code c - 32) else c.

Fixpoint toUpperCase (s : string) : string :=
  match s with
  | EmptyString => EmptyString
  | String c s' => String (upcase c) (toUpperCase s')
  end.

Fixpoint trimStart (s : string) : string :=
  match s with
  | EmptyString => EmptyString
  | String c s' => if isSpace c then trimStart s' else s
  end.

Fixpoint trimEnd (s : string) : string :=
  match s with
  | EmptyString => EmptyString
  | String c s' =>
      match trimEnd s' with
      | EmptyString => if isSpace c then EmptyString else String c EmptyString
      | t => String c t
      end
  end.

Definition trim (s : string) : string := trimEnd (trimStart s).

Fixpoint startsWith (s p : string) : bool :=
  match p, s with
  | EmptyString, _ => true
  | String a p', String b s' => Ascii.eqb a b && startsWith s' p'
  | String _ _, EmptyString => false
  end.

Fixpoint includes (s p : string) : bool :=
  startsWith s p ||
  match s with
  | EmptyString => false
  | String _ s' => includes s' p
  end.

(** A string of upper-case letters and digits only. *)
Fixpoint isCode (s : string) : bool :=
  match s with
  | EmptyString => true
  | String c s' => (isUpper c || isDigit c) && isCode s'
  end.

(** The character classes the repository's patterns use. *)
Inductive cclass : Type :=
| Digit                    (* \d *)
| UpperAZ                  (* [A-Z] *)
| Space                    (* \s *)
| OneOf (cs : string).     (* [CDS] *)

Fixpoint mem (c : ascii) (cs : string) : bool :=
  match cs with
  | EmptyString => false
  | String a cs' => Ascii.eqb c a || mem c cs'
  end.

Definition in_class (k : cclass) (c : ascii) : bool :=
  match k with
  | Digit => isDigit c
  | UpperAZ => isUpper c
  | Space => isSpace c
  | OneOf cs => mem c cs
  end.

(** Patterns without unbounded repetition: every pattern of the parsers is
    of this shape. *)
Inductive regex : Type :=
| Bol                              (* ^ *)
| Eol                              (* $ *)
| Lit (c : ascii)
| Class (k : cclass)
| Cat (r1 r2 : regex)
| Alt (r1 r2 : regex)              (* r1|r2, r1 preferred *)
| Opt (r : regex)                  (* r?, greedy *)
| Rep (n : nat) (r : regex)        (* r{n} *)
| Group (i : nat) (r : regex).     (* the i-th capturing group *)

(** The groups that took part in a match, most recent first; a group that
    did not take part is [undefined]. *)
Definition captures : Type := list (nat * string).

Fixpoint capture (i : nat) (m : captures) : option string :=
  match m with
  | [] => None
  | (j, s) :: m' => if (i =? j)%nat then Some s else capture i m'
  end.

Definition consumed (before after : string) : string :=
  substring 0 (String.length before - String.length after) before.

(** A backtracking matcher in continuation-passing style: [pos] is the
    offset of [s] in the subject, [k] is what is left to match. The first
    alternative that leads to an overall match wins, as in the ECMAScript
    semantics. *)
Fixpoint exec {A : Type} (r : regex) (pos : nat) (s : string) (m : captures)
    (k : nat -> string -> captures -> option A) : option A :=
  match r with
  | Bol => if (pos =? 0)%nat then k pos s m else None
  | Eol => match s with EmptyString => k pos s m | String _ _ => None end
  | Lit c =>
      match s with
      | String a s' => if Ascii.eqb a c then k (S pos) s' m else None
      | EmptyString => None
      end
  | Class cl =>
      match s with
      | String a s' => if in_class cl a then k (S pos) s' m else None
      | EmptyString => None
      end
  | Cat r1 r2 => exec r1 pos s m (fun pos' s' m' => exec r2 pos' s' m' k)
  | Alt r1 r2 =>
      match exec r1 pos s m k with
      | Some x => Some x
      | None => exec r2 pos s m k
      end
  | Opt r1 =>
      match exec r1 pos s m k with
      | Some x => Some x
      | None => k pos s m
      end
  | Rep n r1 =>
      (fix rep (n : nat) (pos : nat) (s : string) (m : captures) : option A :=
         match n with
         | O => k pos s m
         | S n' => exec r1 pos s m (fun pos' s' m' => rep n' pos' s' m')
         end) n pos s m
  | Group i r1 =>
      exec r1 pos s m (fun pos' s' m' => k pos' s' ((i, consumed s s') :: m'))
  end.

Definition match_here (r : regex) (pos : nat) (s : string) : option captures :=
  exec r pos s [] (fun pos' s' m' => Some ((0, consumed s s') :: m')).

Fixpoint match_from (r : regex) (pos : nat) (s : string) : option captures :=
  match match_here r pos s with
  | Some m => Some m
  | None =>
      match s with
      | EmptyString => None
      | String _ s' => match_from r (S pos) s'
      end
  end.

(** [s.match(r)] for a pattern without the [g] flag: the leftmost match. *)
Definition regex_match (s : string) (r : regex) : option captures :=
  match_from r 0 s.

Fixpoint seq (rs : list regex) : regex :=
  match rs with
  | [] => Rep 0 Bol
  | [r] => r
  | r :: rs' => Cat r (seq rs')
  end.

Fixpoint lit (s : string) : regex :=
  match s with
  | EmptyString => Rep 0 Bol
  | String c EmptyString => Lit c
  | String c s' => Cat (Lit c) (lit s')
  end.

(** An object literal: its keys in insertion order, a key may hold
    [undefined]. *)
Definition object : Type := list (string * option string).

Fixpoint get (key : string) (o : object) : option string :=
  match o with
  | [] => None
  | (k, v) :: o' => if String.eqb key k then v else get key o'
  end.

Definition keys (o : object) : list string := map fst o.

(** [a || b] on optional strings: the empty string is falsy. *)
Definition truthy (v : option string) : bool :=
  match v with
  | Some s => negb (String.eqb s "")
  | None => false
  end.

Definition or_else (a b : option string) : option string :=
  if truthy a then a else b.

(** A JavaScript number: a finite double is a rational; the three special
    values are kept apart. Every comparison with [NaN] is false. *)
Inductive number : Type :=
| Finite (q : Q)
| Infinity
| NegInfinity
| NaN.

Definition ltb (a b : number) : bool :=
  match a, b with
  | NaN, _ | _, NaN => false
  | Finite x, Finite y => negb (Qle_bool y x)
  | Finite _, Infinity => true
  | NegInfinity, Finite _ => true
  | NegInfinity, Infinity => true
  | _, _ => false
  end.

Definition leb (a b : number) : bool :=
  match a, b with
  | NaN, _ | _, NaN => false
  | Finite x, Finite y => Qle_bool x y
  | NegInfinity, _ => true
  | _, Infinity => true
  | _, _ => false
  end.

(** [a === b] on numbers. *)
Definition eqb (a b : number) : bool :=
  match a, b with
  | Finite x, Finite y => Qeq_bool x y
  | Infinity, Infinity => true
  | NegInfinity, NegInfinity => true
  | _, _ => false
  end.

(** [isNaN(a)] on a number. *)
Definition isNaN (a : number) : bool :=
  match a with
  | NaN => true
  | _ => false
  end.

Definition digitValue (c : ascii) : Z := Z.of_nat (code c - 48).

Fixpoint parseDigits (s : string) (acc : option Z) : option Z :=
  match s with
  | String c s' =>
      if isDigit c
      then parseDigits s' (Some (10 * default 0%Z acc + digitValue c)%Z)
      else acc
  | EmptyString => acc
  end.

(** [parseInt(s, 10)]: leading white space, an optional sign, then the
    longest run of decimal digits; [NaN] when there is none. *)
Definition parseInt (s : string) : number :=
  let s := trimStart s in
  let '(sign, digits) :=
    match s with
    | String "-" s' => ((-1)%Z, s')
    | String "+" s' => (1%Z, s')
    | _ => (1%Z, s)
    end in
  match parseDigits digits None with
  | Some n => Finite (inject_Z (sign * n))
  | None => NaN
  end.

(** [s.replace(pat, by)] for a string pattern: the first occurrence only. *)
Fixpoint replace (s pat by_ : string) : string :=
  if startsWith s pat
  then by_ +:+ substring (String.length pat) (String.length s) s
  else match s with
       | EmptyString => EmptyString
       | String c s' => String c (replace s' pat by_)
       end.

(** What a nearest-neighbour loop knows once it has gone through [seen],
    for its running pair [acc] of the nearest element and its distance:
    nothing within [max] so far, or the element of least distance. *)
Definition nearest_so_far {A : Type} (dist : A -> number) (max : number)
    (seen : list A) (acc : option A * number) : Prop :=
  match fst acc with
  | None =>
      snd acc = Infinity /\ forall c, In c seen -> leb (dist c) max = false
  | Some b =>
      snd acc = dist b /\ In b seen /\ leb (dist b) max = true
      /\ forall c, In c seen -> ltb (dist c) (dist b) = false
  end.

(** What a call that may throw produces. *)
Record Error : Type := mkError { message : string }.

Inductive outcome (A : Type) : Type :=
| Return (a : A)
| Throw (e : Error).

Arguments Return {A} a.
Arguments Throw {A} e.

(** *** What a pattern matches

    The words a pattern matches when the anchors are left aside, the
    words its [i]-th group can hold, and whether that group takes part in
    every match. The matcher is related to them in the second part. *)

Fixpoint matches (r : regex) (w : string) : Prop :=
  match r with
  | Bol | Eol => w = ""
  | Lit c => w = String c ""
  | Class k => exists a, in_class k a = true /\ w = String a ""
  | Cat r1 r2 => exists w1 w2, w = w1 +:+ w2 /\ matches r1 w1 /\ matches r2 w2
  | Alt r1 r2 => matches r1 w \/ matches r2 w
  | Opt r1 => w = "" \/ matches r1 w
  | Rep n r1 =>
      (fix rep (n : nat) (w : string) : Prop :=
         match n with
         | O => w = ""
         | S n' => exists w1 w2, w = w1 +:+ w2 /\ matches r1 w1 /\ rep n' w2
         end) n w
  | Group _ r1 => matches r1 w
  end.

Fixpoint captured (r : regex) (i : nat) (v : string) : Prop :=
  match r with
  | Group j r1 => (i = j /\ matches r1 v) \/ captured r1 i v
  | Cat r1 r2 | Alt r1 r2 => captured r1 i v \/ captured r2 i v
  | Opt r1 | Rep _ r1 => captured r1 i v
  | _ => False
  end.

Fixpoint binds (r : regex) (i : nat) : bool :=
  match r with
  | Group j r1 => (i =? j)%nat || binds r1 i
  | Cat r1 r2 => binds r1 i || binds r2 i
  | Alt r1 r2 => binds r1 i && binds r2 i
  | Rep n r1 => (0 <? n)%nat && binds r1 i
  | _ => false
  end.


(** A string of decimal digits. *)
Fixpoint isNumeral (s : string) : bool :=
  match s with
  | EmptyString => true
  | String c s' => isDigit c && isNumeral s'
  end.


(** What a successful match is, with its place in the subject and the
    groups it binds: the pattern matches the word [w] at offset [pos],
    with [rest] after it, and takes the groups bound before, [m], to
    [m']. *)
Fixpoint parses (r : regex) (pos : nat) (w rest : string) (m m' : captures)
    : Prop :=
  match r with
  | Bol => pos = 0%nat /\ w = "" /\ m' = m
  | Eol => rest = "" /\ w = "" /\ m' = m
  | Lit c => w = String c "" /\ m' = m
  | Class k => exists a, in_class k a = true /\ w = String a "" /\ m' = m
  | Cat r1 r2 =>
      exists w1 w2 m1,
        w = w1 +:+ w2
        /\ parses r1 pos w1 (w2 +:+ rest) m m1
        /\ parses r2 (pos + String.length w1) w2 rest m1 m'
  | Alt r1 r2 => parses r1 pos w rest m m' \/ parses r2 pos w rest m m'
  | Opt r1 => (w = "" /\ m' = m) \/ parses r1 pos w rest m m'
  | Rep n r1 =>
      (fix rep (n : nat) (pos : nat) (w : string) (m : captures) : Prop :=
         match n with
         | O => w = "" /\ m' = m
         | S n' =>
             exists w1 w2 m1,
               w = w1 +:+ w2
               /\ parses r1 pos w1 (w2 +:+ rest) m m1
               /\ rep n' (pos + String.length w1)%nat w2 m1
         end) n pos w m
  | Group j r1 => exists m1, parses r1 pos w rest m m1 /\ m' = (j, w) :: m1
  end.

End JS.

Import JS.

(** ** bogotaSDSCJService: the SIVICC code parser *)

Module BogotaSDSCJService.

(** [/^(E\d{2})(C\d{2})?$/] *)
Definition shortRe : regex :=
  seq [Bol;
       Group 1 (seq [Lit "E"; Rep 2 (Class Digit)]);
       Opt (Group 2 (seq [Lit "C"; Rep 2 (Class Digit)]));
       Eol].

(** [/^([A-Z]{5})?(MNVCC)?([CDS]\d{2})?(E\d{2})(C\d{2}|S\d{2})?(\d{6})?$/] *)
Definition longRe : regex :=
  seq [Bol;
       Opt (Group 1 (Rep 5 (Class UpperAZ)));
       Opt (Group 2 (lit "MNVCC"));
       Opt (Group 3 (seq [Class (OneOf "CDS"); Rep 2 (Class Digit)]));
       Group 4 (seq [Lit "E"; Rep 2 (Class Digit)]);
       Opt (Group 5 (Alt (seq [Lit "C"; Rep 2 (Class Digit)])
                         (seq [Lit "S"; Rep 2 (Class Digit)])));
       Opt (Group 6 (Rep 6 (Class Digit)));
       Eol].

(** [/(E\d{2})/] *)
Definition estacionRe : regex :=
  Group 1 (seq [Lit "E"; Rep 2 (Class Digit)]).

(** String coercion of an operand of [+]. *)
Definition str (v : option string) : string :=
  match v with
  | Some s => s
  | None => "undefined"
  end.

(** The object returned when the short pattern matched. *)
Definition shortResult (normalized : string) (shortMatch : captures) : object :=
  [("estacion", capture 1 shortMatch);
   ("cai", capture 2 shortMatch);
   ("estacionCAI", Some normalized)].

(** The object returned when the long pattern matched. *)
Definition longResult (longMatch : captures) : object :=
  let unidad := capture 1 longMatch in
  let modelo := capture 2 longMatch in
  let distrito := capture 3 longMatch in
  let estacion := capture 4 longMatch in
  let subunidad := capture 5 longMatch in
  let cuadrante := capture 6 longMatch in
  [("unidad", unidad);
   ("modelo", modelo);
   ("distrito", distrito);
   ("estacion", estacion);
   ("cai", subunidad);
   ("cuadrante", cuadrante);
   ("estacionCAI", Some (str estacion +:+ str (or_else subunidad (Some ""))))].

(** The object returned by the last-resort scan. *)
Definition estacionResult (estacionMatch : captures) : object :=
  [("estacion", capture 1 estacionMatch)].

Definition parseSIVICCCode (code : string) : option object :=
  if String.eqb code "" then None else
  let normalized := trim (toUpperCase code) in
  match regex_match normalized shortRe with
  | Some shortMatch => Some (shortResult normalized shortMatch)
  | None =>
      match regex_match normalized longRe with
      | Some longMatch => Some (longResult longMatch)
      | None =>
          match regex_match normalized estacionRe with
          | Some estacionMatch => Some (estacionResult estacionMatch)
          | None => None
          end
      end
  end.

(** The segments of a long-form code. *)
Definition isStation (s : string) : bool :=
  match s with
  | String e (String a (String b EmptyString)) =>
      Ascii.eqb e "E" && isDigit a && isDigit b
  | _ => false
  end.

Definition isSubunit (s : string) : bool :=
  match s with
  | String c (String a (String b EmptyString)) =>
      (Ascii.eqb c "C" || Ascii.eqb c "S") && isDigit a && isDigit b
  | _ => false
  end.

Definition isDistrict (s : string) : bool :=
  match s with
  | String c (String a (String b EmptyString)) =>
      mem c "CDS" && isDigit a && isDigit b
  | _ => false
  end.

Definition isUnit (s : string) : bool :=
  match s with
  | String a (String b (String c (String d (String e EmptyString)))) =>
      isUpper a && isUpper b && isUpper c && isUpper d && isUpper e
  | _ => false
  end.

Definition isSerial (s : string) : bool :=
  match s with
  | String a (String b (String c (String d (String e (String f EmptyString))))) =>
      isDigit a && isDigit b && isDigit c && isDigit d && isDigit e && isDigit f
  | _ => false
  end.

Definition optionally (p : string -> bool) (o : option string) : bool :=
  match o with
  | Some s => p s
  | None => true
  end.

(** [[unit] [MNVCC] [district] station subunit [serial]] written out. *)
Definition longForm (unit : option string) (model : bool)
    (district : option string) (station subunit : string)
    (serial : option string) : string :=
  default "" unit +:+ (if model then "MNVCC" else "") +:+ default "" district
  +:+ station +:+ subunit +:+ default "" serial.

(** The same cascade in the order the specification words it: the long
    pattern, then the short one, then the scan. *)
Definition parseSIVICCCode_long_first (code : string) : option object :=
  if String.eqb code "" then None else
  let normalized := trim (toUpperCase code) in
  match regex_match normalized longRe with
  | Some longMatch => Some (longResult longMatch)
  | None =>
      match regex_match normalized shortRe with
      | Some shortMatch => Some (shortResult normalized shortMatch)
      | None =>
          match regex_match normalized estacionRe with
          | Some estacionMatch => Some (estacionResult estacionMatch)
          | None => None
          end
      end
  end.

(** Two results of the parser read the same: both are [null], or both are
    objects that hold the same value under every property name. *)
Definition reads_as (a b : option object) : Prop :=
  match a, b with
  | None, None => True
  | Some x, Some y => forall key, get key x = get key y
  | _, _ => False
  end.

(** The string holds a station token somewhere: E and two digits. *)
Definition hasStationToken (s : string) : Prop :=
  exists before a b after,
    isDigit a = true /\ isDigit b = true
    /\ s = before +:+ String "E" (String a (String b after)).

(** [[unit] [MNVCC] [district] station [subunit] [serial]] written out. *)
Definition fullForm (unit : option string) (model : bool)
    (district : option string) (station : string)
    (subunit serial : option string) : string :=
  default "" unit +:+ (if model then "MNVCC" else "") +:+ default "" district
  +:+ station +:+ default "" subunit +:+ default "" serial.

(** *** The cached equipment of the capital district *)

Record SDSCJEquipamiento : Type := mkSDSCJEquipamiento {
  objectId : number;
  nombre : string;
  descripcion : string;
  direccion : string;
  latitud : number;
  longitud : number;
  telefono : string;
  email : string;
  horario : string;
  tipoEquipamiento : string;
  codigoEstacionCAI : string;
  localidad : string;
  upz : string;
  upl : string;
  esCAI : bool
}.

Inductive call : Type :=
| LoadCAIsFromSDSCJ
| LoadEstacionesFromSDSCJ.

(** Everything outside the module: the clock and the two layer loaders,
    which catch their own errors and resolve to an array; and the
    great-circle distance, whose arithmetic on doubles is not modelled. *)
Class Remote : Type := {
  Net : Type;
  Date_now : Net -> Z;
  loadCAIsFromSDSCJ : Net -> list SDSCJEquipamiento * Net;
  loadEstacionesFromSDSCJ : Net -> list SDSCJEquipamiento * Net;
  haversineDistance : number -> number -> number -> number -> number
}.

Section Service.

Context `{Remote}.

Record state : Type := mkState {
  cachedCAIs : list SDSCJEquipamiento;
  cachedEstaciones : list SDSCJEquipamiento;
  equipamientosLoaded : bool;
  lastLoadAttempt : Z;
  net : Net;
  calls : list call
}.

Definition RELOAD_INTERVAL : Z := 600000.

Definition initial (n : Net) : state :=
  {| cachedCAIs := []; cachedEstaciones := []; equipamientosLoaded := false;
     lastLoadAttempt := 0; net := n; calls := [] |}.

Definition await {A : Type} (c : call) (f : Net -> A * Net) (st : state)
    : A * state :=
  let (a, n) := f (net st) in
  (a, {| cachedCAIs := cachedCAIs st;
         cachedEstaciones := cachedEstaciones st;
         equipamientosLoaded := equipamientosLoaded st;
         lastLoadAttempt := lastLoadAttempt st;
         net := n;
         calls := calls st ++ [c] |}).

Definition loadEquipamientos (st : state) : state :=
  let now := Date_now (net st) in
  if ((0 <? length (cachedCAIs st))%nat || (0 <? length (cachedEstaciones st))%nat)
     && (now - lastLoadAttempt st <? RELOAD_INTERVAL)%Z
  then st
  else
    let st := {| cachedCAIs := cachedCAIs st;
                 cachedEstaciones := cachedEstaciones st;
                 equipamientosLoaded := equipamientosLoaded st;
                 lastLoadAttempt := now;
                 net := net st;
                 calls := calls st |} in
    let (cais, st) := await LoadCAIsFromSDSCJ loadCAIsFromSDSCJ st in
    let (estaciones, st) := await LoadEstacionesFromSDSCJ loadEstacionesFromSDSCJ st in
    let cachedCAIs' := if (0 <? length cais)%nat then cais else cachedCAIs st in
    let cachedEstaciones' :=
      if (0 <? length estaciones)%nat then estaciones else cachedEstaciones st in
    {| cachedCAIs := cachedCAIs';
       cachedEstaciones := cachedEstaciones';
       equipamientosLoaded :=
         (0 <? length cachedCAIs')%nat || (0 <? length cachedEstaciones')%nat;
       lastLoadAttempt := lastLoadAttempt st;
       net := net st;
       calls := calls st |}.

(** The body of the loop of [findEquipamientoByLocation]: the running
    [(nearest, minDistance)] pair. *)
Definition nearer (lat lng maxDistanceKm : number)
    (acc : option SDSCJEquipamiento * number) (cai : SDSCJEquipamiento)
    : option SDSCJEquipamiento * number :=
  let distance := haversineDistance lat lng (latitud cai) (longitud cai) in
  if ltb distance (snd acc) && leb distance maxDistanceKm
  then (Some cai, distance)
  else acc.

Definition findEquipamientoByLocation (lat lng : number)
    (maxDistanceKm : option number) (st : state)
    : option SDSCJEquipamiento * state :=
  let maxDistanceKm := default (Finite 2) maxDistanceKm in
  let st := loadEquipamientos st in
  (fst (fold_left (nearer lat lng maxDistanceKm) (cachedCAIs st) (None, Infinity)),
   st).


(** The codes [findEquipamientoByCodigo] searches with, in the order they
    are pushed. *)
Definition searchCodes (parsed : object) : list string :=
  (if truthy (get "estacionCAI" parsed)
   then [str (get "estacionCAI" parsed)] else [])
  ++ (if truthy (get "estacion" parsed) && truthy (get "cai" parsed)
      then [str (get "estacion" parsed) +:+ str (get "cai" parsed)] else [])
  ++ (if truthy (get "estacion" parsed)
      then [str (get "estacion" parsed)] else []).

(** [for (const searchCode of searchCodes) { const x = lookup(searchCode);
    if (x) return x; }] *)
Fixpoint firstFound {A : Type} (lookup : string -> option A)
    (codes : list string) : option A :=
  match codes with
  | [] => None
  | searchCode :: codes' =>
      match lookup searchCode with
      | Some x => Some x
      | None => firstFound lookup codes'
      end
  end.

(** Step 1 of [findEquipamientoByCodigo]: a CAI whose key is the search
    code. *)
Definition exactCAI (cais : list SDSCJEquipamiento) (searchCode : string)
    : option SDSCJEquipamiento :=
  List.find (fun cai => String.eqb (toUpperCase (codigoEstacionCAI cai))
                                   (toUpperCase searchCode)) cais.

(** Step 2: the CAIs whose key starts with the station, and among them the
    one whose key contains the subunit. *)
Definition byStation (parsed : object) (cais : list SDSCJEquipamiento)
    : option SDSCJEquipamiento :=
  if truthy (get "estacion" parsed) then
    let caisDeEstacion :=
      List.filter (fun cai => startsWith (toUpperCase (codigoEstacionCAI cai))
                                         (str (get "estacion" parsed))) cais in
    match caisDeEstacion with
    | [] => None
    | first :: _ =>
        if truthy (get "cai" parsed) then
          match List.find (fun c => includes (toUpperCase (codigoEstacionCAI c))
                                             (str (get "cai" parsed)))
                          caisDeEstacion with
          | Some caiEspecifico => Some caiEspecifico
          | None => Some first
          end
        else Some first
    end
  else None.

(** Step 3: a station whose key contains the search code. *)
Definition estacionFor (estaciones : list SDSCJEquipamiento)
    (searchCode : string) : option SDSCJEquipamiento :=
  List.find (fun est => includes (toUpperCase (codigoEstacionCAI est))
                                 (toUpperCase searchCode)) estaciones.

Definition findEquipamientoByCodigo (codigoSIVICC : string) (st : state)
    : option SDSCJEquipamiento * state :=
  let st := loadEquipamientos st in
  match parseSIVICCCode codigoSIVICC with
  | None => (None, st)
  | Some parsed =>
      match firstFound (exactCAI (cachedCAIs st)) (searchCodes parsed) with
      | Some found => (Some found, st)
      | None =>
          match byStation parsed (cachedCAIs st) with
          | Some found => (Some found, st)
          | None =>
              (firstFound (estacionFor (cachedEstaciones st))
                          (searchCodes parsed), st)
          end
      end
  end.

(** [{ lat, lng, name }] *)
Record CAILocation : Type := mkCAILocation {
  loc_lat : number;
  loc_lng : number;
  loc_name : string
}.

(** [{ lat, lng }] *)
Record LatLng : Type := mkLatLng {
  fallback_lat : number;
  fallback_lng : number
}.

Definition locationOf (e : SDSCJEquipamiento) : CAILocation :=
  {| loc_lat := latitud e; loc_lng := longitud e; loc_name := nombre e |}.

Definition getCAIFromSDSCJ (codigoCuadrante : string)
    (fallbackLocation : option LatLng) (st : state)
    : option CAILocation * state :=
  let (equipamiento, st) := findEquipamientoByCodigo codigoCuadrante st in
  match equipamiento with
  | Some e => (Some (locationOf e), st)
  | None =>
      match fallbackLocation with
      | Some location =>
          let (nearest, st) :=
            findEquipamientoByLocation (fallback_lat location)
              (fallback_lng location) None st in
          match nearest with
          | Some e => (Some (locationOf e), st)
          | None => (None, st)
          end
      | None => (None, st)
      end
  end.

Definition getEstacionFromSDSCJ (codigoCuadrante : string) (st : state)
    : option SDSCJEquipamiento * state :=
  let st := loadEquipamientos st in
  match parseSIVICCCode codigoCuadrante with
  | Some parsed =>
      if truthy (get "estacion" parsed) then
        (List.find (fun est => startsWith (toUpperCase (codigoEstacionCAI est))
                                          (str (get "estacion" parsed)))
                   (cachedEstaciones st), st)
      else (None, st)
  | None => (None, st)
  end.

Record SDSCJStats : Type := mkSDSCJStats {
  total : nat;
  cais : nat;
  estaciones : nat;
  loaded : bool
}.

Definition getSDSCJStats (st : state) : SDSCJStats * state :=
  let st := loadEquipamientos st in
  ({| total := length (cachedCAIs st) + length (cachedEstaciones st);
      cais := length (cachedCAIs st);
      estaciones := length (cachedEstaciones st);
      loaded := equipamientosLoaded st |}, st).

(** The environment moves on between two calls of the service. *)
Definition elapse (f : Net -> Net) (st : state) : state :=
  {| cachedCAIs := cachedCAIs st;
     cachedEstaciones := cachedEstaciones st;
     equipamientosLoaded := equipamientosLoaded st;
     lastLoadAttempt := lastLoadAttempt st;
     net := f (net st);
     calls := calls st |}.

(** A series of [loadEquipamientos] calls, the environment moving on
    before each of them. *)
Fixpoint loadRepeatedly (moves : list (Net -> Net)) (st : state) : state :=
  match moves with
  | [] => st
  | f :: moves' => loadRepeatedly moves' (loadEquipamientos (elapse f st))
  end.

End Service.


(** An environment whose state is the clock, in milliseconds; both layers
    fail to load, and the distance between two positions is taken along
    the meridian only, 111 km to the degree. *)
Definition offline : Remote :=
  {| Net := Z;
     Date_now := fun n => n;
     loadCAIsFromSDSCJ := fun n => ([], (n + 20)%Z);
     loadEstacionesFromSDSCJ := fun n => ([], (n + 20)%Z);
     haversineDistance := fun lat1 _ lat2 _ =>
       match lat1, lat2 with
       | Finite a, Finite b => Finite (Qabs (a - b) * 111)
       | _, _ => NaN
       end |}.

Definition equipamiento (objectId : Z) (nombre codigo : string) (lat lng : Q)
    (esCAI : bool) : SDSCJEquipamiento :=
  {| objectId := Finite (inject_Z objectId); nombre := nombre;
     descripcion := ""; direccion := "";
     latitud := Finite lat; longitud := Finite lng;
     telefono := ""; email := ""; horario := "24 horas";
     tipoEquipamiento := if esCAI then "CAI" else "Estación";
     codigoEstacionCAI := codigo; localidad := ""; upz := ""; upl := "";
     esCAI := esCAI |}.

(** Two posts and the station of Kennedy, loaded a second ago. *)
Definition kennedy : @state offline :=
  @mkState offline
    [equipamiento 1 "CAI TIMIZA" "E08C01" (4610 # 1000) (-74150 # 1000) true;
     equipamiento 2 "CAI ROMA" "e08c02" (4620 # 1000) (-74160 # 1000) true]
    [equipamiento 3 "ESTACION KENNEDY" "E08" (4630 # 1000) (-74150 # 1000) false]
    true 1000%Z 2000%Z [LoadCAIsFromSDSCJ; LoadEstacionesFromSDSCJ].

End BogotaSDSCJService.

(** ** caiService: the quadrant code parser of the WebMap tier *)

Module CaiService.

Record QuadrantCode : Type := mkQuadrantCode {
  estacion : string;
  numero : string;
  cai : option string
}.

(** [/^(E\d{2})-(\d{2})$/] *)
Definition shortRe : regex :=
  seq [Bol;
       Group 1 (seq [Lit "E"; Rep 2 (Class Digit)]);
       Lit "-";
       Group 2 (Rep 2 (Class Digit));
       Eol].

(** [/(E\d{2})(C\d{2})?(\d{6})$/] *)
Definition longRe : regex :=
  seq [Group 1 (seq [Lit "E"; Rep 2 (Class Digit)]);
       Opt (Group 2 (seq [Lit "C"; Rep 2 (Class Digit)]));
       Group 3 (Rep 6 (Class Digit));
       Eol].

(** [/(E\d{2})/] *)
Definition estacionRe : regex :=
  Group 1 (seq [Lit "E"; Rep 2 (Class Digit)]).

(** [s.replace(/^0+/, '')] *)
Fixpoint stripLeadingZeros (s : string) : string :=
  match s with
  | String "0" s' => stripLeadingZeros s'
  | _ => s
  end.

Fixpoint repeatChar (n : nat) (c : ascii) : string :=
  match n with
  | O => EmptyString
  | S n' => String c (repeatChar n' c)
  end.

(** [s.padStart(n, c)] for a one-character filler. *)
Definition padStart (s : string) (n : nat) (c : ascii) : string :=
  repeatChar (n - String.length s) c +:+ s.

(** A matched group as a string; the groups read below always take part
    in the match. *)
Definition group (i : nat) (m : captures) : string :=
  match capture i m with
  | Some s => s
  | None => "undefined"
  end.

Definition shortResult (shortMatch : captures) : QuadrantCode :=
  {| estacion := group 1 shortMatch;
     numero := group 2 shortMatch;
     cai := None |}.

Definition longResult (longMatch : captures) : QuadrantCode :=
  let stripped := stripLeadingZeros (group 3 longMatch) in
  let numero := if String.eqb stripped "" then "0" else stripped in
  {| estacion := group 1 longMatch;
     numero := padStart numero 2 "0";
     cai := capture 2 longMatch |}.

Definition estacionResult (estacionMatch : captures) : QuadrantCode :=
  {| estacion := group 1 estacionMatch; numero := ""; cai := None |}.

Definition parseQuadrantCode (code : string) : option QuadrantCode :=
  let normalized := trim (toUpperCase code) in
  match regex_match normalized shortRe with
  | Some shortMatch => Some (shortResult shortMatch)
  | None =>
      match regex_match normalized longRe with
      | Some longMatch => Some (longResult longMatch)
      | None =>
          match regex_match normalized estacionRe with
          | Some estacionMatch => Some (estacionResult estacionMatch)
          | None => None
          end
      end
  end.

(** The same cascade in the order the specification words it: the long
    pattern, then the short one, then the scan. *)
Definition parseQuadrantCode_long_first (code : string) : option QuadrantCode :=
  let normalized := trim (toUpperCase code) in
  match regex_match normalized longRe with
  | Some longMatch => Some (longResult longMatch)
  | None =>
      match regex_match normalized shortRe with
      | Some shortMatch => Some (shortResult shortMatch)
      | None =>
          match regex_match normalized estacionRe with
          | Some estacionMatch => Some (estacionResult estacionMatch)
          | None => None
          end
      end
  end.

(** *** The cached WebMap index *)

Record RealCAI : Type := mkRealCAI {
  id : string;
  nombre : string;
  direccion : string;
  telefono : string;
  email : string;
  horario : string;
  codigoCuadrante : string;
  lat : number;
  lng : number;
  localidad : string;
  upz : string
}.

Record CAILocation : Type := mkCAILocation {
  loc_lat : number;
  loc_lng : number;
  loc_name : string
}.

Record LatLng : Type := mkLatLng { center_lat : number; center_lng : number }.

(** What [getJerarquiaCuadrante] of sodaService resolves to. *)
Record Jerarquia : Type := mkJerarquia {
  j_departamento : string;
  j_estacion : string;
  j_cai : string;
  j_cuadrante : string;
  j_telefono : string
}.

(** A GeoJSON position, [[lng, lat]]. *)
Definition Position : Type := (number * number)%type.

(** The calls that leave the module. *)
Inductive call : Type :=
| LoadCAIsFromLocal
| LoadCAIsFromArcGIS
| GetCAIFromSDSCJ
| GetJerarquiaCuadrante.

(** Everything outside the module: the clock, the two loaders of the
    index, the two sibling services the resolver awaits, and the distance
    of the turf library (kilometres). The loaders catch their own errors
    and resolve to an array; the sibling services may throw. *)
Class Remote : Type := {
  Net : Type;
  Date_now : Net -> Z;
  loadCAIsFromLocal : Net -> list RealCAI * Net;
  loadCAIsFromArcGIS : Net -> list RealCAI * Net;
  getCAIFromSDSCJ :
    string -> option LatLng -> Net -> outcome (option CAILocation) * Net;
  getJerarquiaCuadrante : string -> Net -> outcome (option Jerarquia) * Net;
  turf_distance : Position -> Position -> number
}.

(** [turf.point(coordinates)]: the point of a [[lng, lat]] pair. The helper
    of the turf library throws on a coordinate that is not a number; an
    infinite coordinate passes. *)
Definition turf_point (coordinates : Position) : outcome Position :=
  if isNaN (fst coordinates) || isNaN (snd coordinates)
  then Throw (mkError "coordinates must contain numbers")
  else Return coordinates.

Section Service.

Context `{Remote}.

Record state : Type := mkState {
  cachedCAIs : list RealCAI;
  caiLoadedFromAPI : bool;
  caiLoadedFromLocal : bool;
  lastLoadAttempt : Z;
  net : Net;
  calls : list call
}.

Definition RELOAD_INTERVAL : Z := 300000.

Definition initial (n : Net) : state :=
  {| cachedCAIs := []; caiLoadedFromAPI := false; caiLoadedFromLocal := false;
     lastLoadAttempt := 0; net := n; calls := [] |}.

(** An awaited call: the environment answers and the call is logged. *)
Definition await {A : Type} (c : call) (f : Net -> A * Net) (st : state)
    : A * state :=
  let (a, n) := f (net st) in
  (a, {| cachedCAIs := cachedCAIs st;
         caiLoadedFromAPI := caiLoadedFromAPI st;
         caiLoadedFromLocal := caiLoadedFromLocal st;
         lastLoadAttempt := lastLoadAttempt st;
         net := n;
         calls := calls st ++ [c] |}).

Definition set_lastLoadAttempt (now : Z) (st : state) : state :=
  {| cachedCAIs := cachedCAIs st;
     caiLoadedFromAPI := caiLoadedFromAPI st;
     caiLoadedFromLocal := caiLoadedFromLocal st;
     lastLoadAttempt := now;
     net := net st;
     calls := calls st |}.

Definition set_fromLocal (localCAIs : list RealCAI) (st : state) : state :=
  {| cachedCAIs := localCAIs;
     caiLoadedFromAPI := caiLoadedFromAPI st;
     caiLoadedFromLocal := true;
     lastLoadAttempt := lastLoadAttempt st;
     net := net st;
     calls := calls st |}.

Definition set_fromAPI (arcgisCAIs : list RealCAI) (st : state) : state :=
  {| cachedCAIs := arcgisCAIs;
     caiLoadedFromAPI := true;
     caiLoadedFromLocal := caiLoadedFromLocal st;
     lastLoadAttempt := lastLoadAttempt st;
     net := net st;
     calls := calls st |}.

(** The second half of [loadCAIs]: the ArcGIS API. *)
Definition loadFromAPI (st : state) : state :=
  if negb (caiLoadedFromAPI st) then
    let (arcgisCAIs, st) := await LoadCAIsFromArcGIS loadCAIsFromArcGIS st in
    if (0 <? length arcgisCAIs)%nat then set_fromAPI arcgisCAIs st else st
  else st.

Definition loadCAIs (st : state) : state :=
  let now := Date_now (net st) in
  if (0 <? length (cachedCAIs st))%nat
     && (now - lastLoadAttempt st <? RELOAD_INTERVAL)%Z
  then st
  else
    let st := set_lastLoadAttempt now st in
    if negb (caiLoadedFromLocal st) then
      let (localCAIs, st) := await LoadCAIsFromLocal loadCAIsFromLocal st in
      if (0 <? length localCAIs)%nat then set_fromLocal localCAIs st
      else loadFromAPI st
    else loadFromAPI st.

(** The body of the loop of [findNearestCAI] once the point of the cached
    CAI is built: the running [(nearestCAI, minDistance)] pair. *)
Definition nearer (userPoint : Position) (maxDistanceKm : number)
    (acc : option RealCAI * number) (cai : RealCAI) (caiPoint : Position)
    : option RealCAI * number :=
  let distance := turf_distance userPoint caiPoint in
  if ltb distance (snd acc) && leb distance maxDistanceKm
  then (Some cai, distance)
  else acc.

(** The loop of [findNearestCAI] over the cached CAIs still to visit. The
    point of each of them is built first, and a throw of [turf.point] leaves
    the loop and the function. *)
Fixpoint nearestAmong (userPoint : Position) (maxDistanceKm : number)
    (cais : list RealCAI) (acc : option RealCAI * number)
    : outcome (option RealCAI) :=
  match cais with
  | [] => Return (fst acc)
  | cai :: cais' =>
      match turf_point (lng cai, lat cai) with
      | Return caiPoint =>
          nearestAmong userPoint maxDistanceKm cais'
            (nearer userPoint maxDistanceKm acc cai caiPoint)
      | Throw e => Throw e
      end
  end.



Definition findNearestCAI (lat lng : number) (maxDistanceKm : option number)
    (st : state) : outcome (option RealCAI) * state :=
  let maxDistanceKm := default (Finite 5) maxDistanceKm in
  let st := loadCAIs st in
  if (length (cachedCAIs st) =? 0)%nat then (Return None, st)
  else
    match turf_point (lng, lat) with
    | Return userPoint =>
        (nearestAmong userPoint maxDistanceKm (cachedCAIs st) (None, Infinity),
         st)
    | Throw e => (Throw e, st)
    end.

Definition sharesStation (parsed : QuadrantCode) (cai : RealCAI) : bool :=
  match parseQuadrantCode (codigoCuadrante cai) with
  | Some caiParsed => String.eqb (estacion caiParsed) (estacion parsed)
  | None => false
  end.

Definition hasNumero (caiNumero : number) (cai : RealCAI) : bool :=
  match parseQuadrantCode (codigoCuadrante cai) with
  | Some caiParsed => eqb (parseInt (numero caiParsed)) caiNumero
  | None => false
  end.

Definition findCAIByCuadrante (codigoCuadrante : string) (st : state)
    : option RealCAI * state :=
  let st := loadCAIs st in
  match parseQuadrantCode codigoCuadrante with
  | None => (None, st)
  | Some parsed =>
      let caisDeEstacion := List.filter (sharesStation parsed) (cachedCAIs st) in
      match caisDeEstacion with
      | [] => (None, st)
      | [only] => (Some only, st)
      | first :: _ =>
          if truthy (cai parsed) then
            let caiNumero := parseInt (JS.replace (default "" (cai parsed)) "C" "") in
            match List.find (hasNumero caiNumero) caisDeEstacion with
            | Some c => (Some c, st)
            | None => (Some first, st)
            end
          else (Some first, st)
      end
  end.

(** The number a cached CAI carries in its own code, as the disambiguation
    reads it. *)
Definition numberOf (c : RealCAI) : number :=
  match parseQuadrantCode (codigoCuadrante c) with
  | Some caiParsed => parseInt (numero caiParsed)
  | None => NaN
  end.

(** [c] carries the lowest number among [candidates]. *)
Definition lowestNumbered (c : RealCAI) (candidates : list RealCAI) : bool :=
  forallb (fun c' => leb (numberOf c) (numberOf c')) candidates.

Definition locationOf (c : RealCAI) : CAILocation :=
  {| loc_lat := lat c; loc_lng := lng c; loc_name := nombre c |}.

(** The fourth tier of [getCAILocationForQuadrant]: the nearest cached CAI
    within 2 km of the centre of the quadrant. The tier stands outside every
    [try], so what [findNearestCAI] throws leaves the resolver. *)
Definition geographicFallback (quadrantCenter : option LatLng) (st : state)
    : outcome (option CAILocation) * state :=
  match quadrantCenter with
  | Some center =>
      let (nearestCAI, st) :=
        findNearestCAI (center_lat center) (center_lng center) (Some (Finite 2)) st in
      match nearestCAI with
      | Return (Some c) => (Return (Some (locationOf c)), st)
      | Return None => (Return None, st)
      | Throw e => (Throw e, st)
      end
  | None => (Return None, st)
  end.

(** The third tier: the name the SODA directory gives, joined against the
    cached index by containment. *)
Definition sodaTier (quadrantId : string) (quadrantCenter : option LatLng)
    (st : state) : outcome (option CAILocation) * state :=
  let (r, st) := await GetJerarquiaCuadrante (getJerarquiaCuadrante quadrantId) st in
  match r with
  | Return (Some jerarquia) =>
      let wanted := toUpperCase (JS.replace (j_cai jerarquia) "CAI " "") in
      match List.find (fun c => includes (toUpperCase (nombre c)) wanted) (cachedCAIs st) with
      | Some caiPorNombre => (Return (Some (locationOf caiPorNombre)), st)
      | None => geographicFallback quadrantCenter st
      end
  | Return None => geographicFallback quadrantCenter st
  | Throw _ => geographicFallback quadrantCenter st
  end.

(** The second tier: the WebMap index, by code. *)
Definition webMapTier (quadrantId : string) (quadrantCenter : option LatLng)
    (st : state) : outcome (option CAILocation) * state :=
  let st := loadCAIs st in
  let (caiByCode, st) := findCAIByCuadrante quadrantId st in
  match caiByCode with
  | Some c => (Return (Some (locationOf c)), st)
  | None => sodaTier quadrantId quadrantCenter st
  end.

Definition getCAILocationForQuadrant (quadrantId : string)
    (quadrantCenter : option LatLng) (st : state)
    : outcome (option CAILocation) * state :=
  let esBogota :=
    includes (toUpperCase quadrantId) "MEBOG"
    || startsWith (toUpperCase quadrantId) "E" in
  if esBogota then
    let (r, st) :=
      await GetCAIFromSDSCJ (getCAIFromSDSCJ quadrantId quadrantCenter) st in
    match r with
    | Return (Some sdscjResult) => (Return (Some sdscjResult), st)
    | Return None => webMapTier quadrantId quadrantCenter st
    | Throw _ => webMapTier quadrantId quadrantCenter st
    end
  else webMapTier quadrantId quadrantCenter st.


(** The environment moves on between two calls of the service. *)
Definition elapse (f : Net -> Net) (st : state) : state :=
  {| cachedCAIs := cachedCAIs st;
     caiLoadedFromAPI := caiLoadedFromAPI st;
     caiLoadedFromLocal := caiLoadedFromLocal st;
     lastLoadAttempt := lastLoadAttempt st;
     net := f (net st);
     calls := calls st |}.

(** A series of [loadCAIs] calls, the environment moving on before each of
    them. *)
Fixpoint loadRepeatedly (moves : list (Net -> Net)) (st : state) : state :=
  match moves with
  | [] => st
  | f :: moves' => loadRepeatedly moves' (loadCAIs (elapse f st))
  end.

Definition getAllCAIs (st : state) : list RealCAI * state :=
  let st := loadCAIs st in
  (cachedCAIs st, st).

Definition inBounds (minLat maxLat minLng maxLng : number) (cai : RealCAI) : bool :=
  leb minLat (lat cai) && leb (lat cai) maxLat
  && leb minLng (lng cai) && leb (lng cai) maxLng.

Definition getCAIsInBounds (minLat maxLat minLng maxLng : number) (st : state)
    : list RealCAI * state :=
  let st := loadCAIs st in
  (List.filter (inBounds minLat maxLat minLng maxLng) (cachedCAIs st), st).

Inductive statsSource : Type :=
| SourceLocal
| SourceArcGIS
| SourceNone.

Record CAIStats : Type := mkCAIStats {
  total : nat;
  bogota : nat;
  source : statsSource
}.

Definition getCAIStats (st : state) : CAIStats * state :=
  let st := loadCAIs st in
  let bogotaCAIs :=
    List.filter (inBounds (Finite (44 # 10)) (Finite (49 # 10))
                          (Finite (-743 # 10)) (Finite (-739 # 10)))
                (cachedCAIs st) in
  ({| total := length (cachedCAIs st);
      bogota := length bogotaCAIs;
      source := if caiLoadedFromLocal st then SourceLocal
                else if caiLoadedFromAPI st then SourceArcGIS
                else SourceNone |}, st).

End Service.

(** An environment whose state is the clock, in milliseconds; the loaders
    find nothing, the sibling services answer nothing, and the distance
    between two positions is taken along the meridian only, 111 km to the
    degree. *)
Definition quiet : Remote :=
  {| Net := Z;
     Date_now := fun n => n;
     loadCAIsFromLocal := fun n => ([], (n + 10)%Z);
     loadCAIsFromArcGIS := fun n => ([], (n + 1000)%Z);
     getCAIFromSDSCJ := fun _ _ n => (Return None, n);
     getJerarquiaCuadrante := fun _ n => (Return None, n);
     turf_distance := fun p q =>
       match snd p, snd q with
       | Finite a, Finite b => Finite (Qabs (a - b) * 111)
       | _, _ => NaN
       end |}.

Definition webMapCAI (id codigo nombre : string) (lat lng : Q) : RealCAI :=
  {| id := id; nombre := nombre; direccion := ""; telefono := ""; email := "";
     horario := "24 Horas"; codigoCuadrante := codigo;
     lat := Finite lat; lng := Finite lng; localidad := ""; upz := "" |}.

(** A fresh index of two posts of station E10, the higher-numbered one
    first. *)
Definition chapinero : @state quiet :=
  @mkState quiet
    [webMapCAI "CAI_21" "E10-21" "CAI GRANADA" (4651 # 1000) (-74060 # 1000);
     webMapCAI "CAI_05" "E10-05" "CAI LOURDES" (4648 # 1000) (-74063 # 1000)]
    false true 1000%Z 2000%Z [LoadCAIsFromLocal].

End CaiService.


(** ** sodaService: the national logical directory *)

Module SodaService.

Record DirectorioCuadrante : Type := mkDirectorioCuadrante {
  departamento : string;
  ciudad_municipio : string;
  unidad : string;
  tipo_unidad : string;
  codigo_cuadrante : string;
  cuadrante : string;
  numero_celular_cuadrante : string
}.

(** What [response.json()] gives. *)
Inductive body : Type :=
| NotJSON (e : Error)                       (* the parse throws *)
| NotAnArray                                (* valid JSON, not an array *)
| Records (data : list DirectorioCuadrante).

(** What the awaited [fetch] gives: a rejection (no connection, or the
    abort after 20 s) or a response. *)
Inductive response : Type :=
| Rejected (e : Error)
| Responded (ok : bool) (status : string) (b : body).

Inductive call : Type :=
| Fetch.

Class Remote : Type := {
  Net : Type;
  Date_now : Net -> Z;
  fetch : Net -> response * Net
}.

(** What [loadDirectorioFromSODA] does with the answer, inside its [try]. *)
Definition decode (r : response) : outcome (list DirectorioCuadrante) :=
  match r with
  | Rejected e => Throw e
  | Responded false status _ => Throw (mkError ("HTTP " +:+ status))
  | Responded true _ (NotJSON e) => Throw e
  | Responded true _ NotAnArray => Return []
  | Responded true _ (Records data) =>
      if (length data =? 0)%nat then Return [] else Return data
  end.

Section Service.

Context `{Remote}.

Record state : Type := mkState {
  cachedDirectorio : list DirectorioCuadrante;
  directorioLoaded : bool;
  lastLoadAttempt : Z;
  net : Net;
  calls : list call
}.

Definition RELOAD_INTERVAL : Z := 3600000.

Definition initial (n : Net) : state :=
  {| cachedDirectorio := []; directorioLoaded := false; lastLoadAttempt := 0;
     net := n; calls := [] |}.

Definition await {A : Type} (c : call) (f : Net -> A * Net) (st : state)
    : A * state :=
  let (a, n) := f (net st) in
  (a, {| cachedDirectorio := cachedDirectorio st;
         directorioLoaded := directorioLoaded st;
         lastLoadAttempt := lastLoadAttempt st;
         net := n;
         calls := calls st ++ [c] |}).

Definition loadDirectorioFromSODA (st : state)
    : list DirectorioCuadrante * state :=
  let (r, st) := await Fetch fetch st in
  match decode r with
  | Return data => (data, st)
  | Throw _ => ([], st)                     (* catch (error) { return []; } *)
  end.

Definition loadDirectorio (st : state) : state :=
  let now := Date_now (net st) in
  if (0 <? length (cachedDirectorio st))%nat
     && (now - lastLoadAttempt st <? RELOAD_INTERVAL)%Z
  then st
  else
    let st := {| cachedDirectorio := cachedDirectorio st;
                 directorioLoaded := directorioLoaded st;
                 lastLoadAttempt := now;
                 net := net st;
                 calls := calls st |} in
    let (directorio, st) := loadDirectorioFromSODA st in
    if (0 <? length directorio)%nat then
      {| cachedDirectorio := directorio;
         directorioLoaded := true;
         lastLoadAttempt := lastLoadAttempt st;
         net := net st;
         calls := calls st |}
    else st.

(** [/^([A-Z]{5})?MNVCC([CDS]\d{2})?(E\d{2})(C\d{2}|S\d{2})?(\d{6})?$/] *)
Definition siviccRe : regex :=
  seq [Bol;
       Opt (Group 1 (Rep 5 (Class UpperAZ)));
       lit "MNVCC";
       Opt (Group 2 (seq [Class (OneOf "CDS"); Rep 2 (Class Digit)]));
       Group 3 (seq [Lit "E"; Rep 2 (Class Digit)]);
       Opt (Group 4 (Alt (seq [Lit "C"; Rep 2 (Class Digit)])
                         (seq [Lit "S"; Rep 2 (Class Digit)])));
       Opt (Group 5 (Rep 6 (Class Digit)));
       Eol].

Definition parseSIVICCCode (code : string) : option object :=
  if String.eqb code "" then None else
  let normalized := trim (toUpperCase code) in
  match regex_match normalized siviccRe with
  | Some m =>
      Some [("unidad", capture 1 m);
            ("distrito", capture 2 m);
            ("estacion", capture 3 m);
            ("cai", capture 4 m);
            ("cuadrante", capture 5 m)]
  | None => None
  end.

(** [a?.k]: the field of a parse that may be [null]. *)
Definition field (key : string) (parsed : option object) : option string :=
  match parsed with
  | Some o => get key o
  | None => None
  end.

Definition sameField (a b : option string) : bool :=
  match a, b with
  | Some x, Some y => String.eqb x y
  | None, None => true
  | _, _ => false
  end.

(** The two searches of [findCAIForCuadrante] over a snapshot. *)
Definition searchDirectorio (snapshot : list DirectorioCuadrante)
    (codigoCuadrante : string) : option DirectorioCuadrante :=
  let normalizedCodigo := trim (toUpperCase codigoCuadrante) in
  match List.find (fun d => String.eqb (toUpperCase (codigo_cuadrante d)) normalizedCodigo)
          snapshot with
  | Some exact => Some exact
  | None =>
      let parsed := parseSIVICCCode normalizedCodigo in
      if truthy (field "estacion" parsed) && truthy (field "cuadrante" parsed) then
        List.find (fun d =>
                let dParsed := parseSIVICCCode (codigo_cuadrante d) in
                sameField (field "estacion" dParsed) (field "estacion" parsed)
                && sameField (field "cuadrante" dParsed) (field "cuadrante" parsed))
             snapshot
      else None
  end.

Definition findCAIForCuadrante (codigoCuadrante : string) (st : state)
    : option DirectorioCuadrante * state :=
  let st := loadDirectorio st in
  (searchDirectorio (cachedDirectorio st) codigoCuadrante, st).

(** The loader came back without records: it threw, or the answer was not
    a non-empty array. *)
Definition noRecords (r : response) : bool :=
  match decode r with
  | Return (_ :: _) => false
  | Return [] => true
  | Throw _ => true
  end.

(** The environment moves on between two calls of the service. *)
Definition elapse (f : Net -> Net) (st : state) : state :=
  {| cachedDirectorio := cachedDirectorio st;
     directorioLoaded := directorioLoaded st;
     lastLoadAttempt := lastLoadAttempt st;
     net := f (net st);
     calls := calls st |}.

(** A series of load-or-reuse calls, the environment moving on before
    each of them. *)
Fixpoint loadRepeatedly (moves : list (Net -> Net)) (st : state) : state :=
  match moves with
  | [] => st
  | f :: moves' => loadRepeatedly moves' (loadDirectorio (elapse f st))
  end.


(** [{ codigo, numero, telefono }] *)
Record Cuadrante : Type := mkCuadrante {
  codigo : string;
  numero : string;
  telefono : string
}.

(** [CAIConCuadrantes]; the department and municipality carry a prime
    because [DirectorioCuadrante] has a field [departamento] already. *)
Record CAIConCuadrantes : Type := mkCAIConCuadrantes {
  nombre : string;
  estacionPadre : string;
  departamento' : string;
  municipio : string;
  cuadrantes : list Cuadrante;
  codigoEstacion : option string;
  codigoCAI : option string
}.

(** A [Map<string, CAIConCuadrantes>]: its entries in insertion order. *)
Definition CAIMap : Type := list (string * CAIConCuadrantes).

(** [caiMap.has(caiKey)] *)
Definition has (caiKey : string) (caiMap : CAIMap) : bool :=
  existsb (fun entry => String.eqb (fst entry) caiKey) caiMap.

(** [caiMap.get(caiKey)] *)
Fixpoint lookup (caiKey : string) (caiMap : CAIMap) : option CAIConCuadrantes :=
  match caiMap with
  | [] => None
  | (k, v) :: caiMap' => if String.eqb k caiKey then Some v else lookup caiKey caiMap'
  end.

(** [caiMap.get(caiKey)!.cuadrantes.push(c)] *)
Fixpoint push (caiKey : string) (c : Cuadrante) (caiMap : CAIMap) : CAIMap :=
  match caiMap with
  | [] => []
  | (k, v) :: caiMap' =>
      if String.eqb k caiKey then
        (k, {| nombre := nombre v;
               estacionPadre := estacionPadre v;
               departamento' := departamento' v;
               municipio := municipio v;
               cuadrantes := cuadrantes v ++ [c];
               codigoEstacion := codigoEstacion v;
               codigoCAI := codigoCAI v |}) :: caiMap'
      else (k, v) :: push caiKey c caiMap'
  end.

Definition caiKeyOf (registro : DirectorioCuadrante) : string :=
  toUpperCase (trim (tipo_unidad registro)).

(** The entry set for a key that the map does not hold yet. *)
Definition entryOf (registro : DirectorioCuadrante) : CAIConCuadrantes :=
  let parsed := parseSIVICCCode (codigo_cuadrante registro) in
  {| nombre := tipo_unidad registro;
     estacionPadre := unidad registro;
     departamento' := departamento registro;
     municipio := ciudad_municipio registro;
     cuadrantes := [];
     codigoEstacion := field "estacion" parsed;
     codigoCAI := field "cai" parsed |}.

Definition cuadranteOf (registro : DirectorioCuadrante) : Cuadrante :=
  {| codigo := codigo_cuadrante registro;
     numero := cuadrante registro;
     telefono := numero_celular_cuadrante registro |}.

(** The body of the loop of [agruparCuadrantesPorCAI]. *)
Definition agrupar (caiMap : CAIMap) (registro : DirectorioCuadrante) : CAIMap :=
  let caiKey := caiKeyOf registro in
  let caiMap :=
    if negb (has caiKey caiMap) then caiMap ++ [(caiKey, entryOf registro)]
    else caiMap in
  push caiKey (cuadranteOf registro) caiMap.

Definition agruparCuadrantesPorCAI (st : state) : CAIMap * state :=
  let st := loadDirectorio st in
  (fold_left agrupar (cachedDirectorio st) [], st).

Record JerarquiaCuadrante : Type := mkJerarquiaCuadrante {
  j_departamento : string;
  j_estacion : string;
  j_cai : string;
  j_cuadrante : string;
  j_telefono : string
}.

Definition getJerarquiaCuadrante (codigoCuadrante : string) (st : state)
    : option JerarquiaCuadrante * state :=
  let (registro, st) := findCAIForCuadrante codigoCuadrante st in
  match registro with
  | None => (None, st)
  | Some registro =>
      (Some {| j_departamento := departamento registro;
               j_estacion := unidad registro;
               j_cai := tipo_unidad registro;
               j_cuadrante := codigo_cuadrante registro;
               j_telefono := numero_celular_cuadrante registro |}, st)
  end.

(** [s.replace(/\D/g, '')] *)
Fixpoint digitsOnly (s : string) : string :=
  match s with
  | EmptyString => EmptyString
  | String c s' => if isDigit c then String c (digitsOnly s') else digitsOnly s'
  end.

Definition findCuadranteByTelefono (telefono : string) (st : state)
    : option DirectorioCuadrante * state :=
  let st := loadDirectorio st in
  let telefonoNorm := digitsOnly telefono in
  (List.find (fun d => String.eqb (digitsOnly (numero_celular_cuadrante d))
                                  telefonoNorm)
             (cachedDirectorio st), st).


(** The records of a directory that fall under one key, and the group a
    non-empty list of them makes: headed by the first, one quadrant for
    each. *)
Definition membersOf (caiKey : string) (directorio : list DirectorioCuadrante)
    : list DirectorioCuadrante :=
  List.filter (fun registro => String.eqb (caiKeyOf registro) caiKey) directorio.

Definition groupOf (members : list DirectorioCuadrante)
    : option CAIConCuadrantes :=
  match members with
  | [] => None
  | first :: _ =>
      Some {| nombre := nombre (entryOf first);
              estacionPadre := estacionPadre (entryOf first);
              departamento' := departamento' (entryOf first);
              municipio := municipio (entryOf first);
              cuadrantes := map cuadranteOf members;
              codigoEstacion := codigoEstacion (entryOf first);
              codigoCAI := codigoCAI (entryOf first) |}
  end.

End Service.

(** An environment whose state is the clock, in milliseconds, and in which
    no request gets through; a fetch takes a second to fail. *)
Definition unreachable : Remote :=
  {| Net := Z;
     Date_now := fun n => n;
     fetch := fun n => (Rejected (mkError "Failed to fetch"), (n + 1000)%Z) |}.

Definition usaquen : DirectorioCuadrante :=
  {| departamento := "METROPOLITANA DE BOGOTA";
     ciudad_municipio := "BOGOTA D.C.";
     unidad := "ESTACION DE POLICIA USAQUEN";
     tipo_unidad := "CAI CODITO";
     codigo_cuadrante := "MEBOGMNVCCC01E01C02000004";
     cuadrante := "004";
     numero_celular_cuadrante := "3000000000" |}.

End SodaService.

(** ** quadrantService: the roster and the fallback orchestrator *)

Module QuadrantService.

(** A property of a roster record as the services deliver it. *)
Inductive value : Type :=
| undefined
| null
| text (s : string).

Definition is_truthy (v : value) : bool :=
  match v with
  | text s => negb (String.eqb s "")
  | _ => false
  end.

(** [a || b] *)
Definition or (a b : value) : value := if is_truthy a then a else b.

(** [`${v}`] *)
Definition interpolate (v : value) : string :=
  match v with
  | undefined => "undefined"
  | null => "null"
  | text s => s
  end.

(** [v !== s] for a string literal [s]. *)
Definition differs (v : value) (s : string) : bool :=
  match v with
  | text t => negb (String.eqb t s)
  | _ => true
  end.

Record Props : Type := mkProps {
  EMPLEADO : value;
  nombre : value;
  TELEFONO : value;
  telefono : value
}.

(** A roster feature: a GeoJSON feature that carries [properties], or a
    flat record of the offline snapshot. *)
Inductive feature : Type :=
| Feature (properties : Props)
| Flat (record : Props).

(** [f.properties || f] *)
Definition propsOf (f : feature) : Props :=
  match f with
  | Feature properties => properties
  | Flat record => record
  end.

Record Officer : Type := mkOfficer {
  name : string;
  phone : string;
  initials : string
}.

Definition empleadoOf (props : Props) : value := or (EMPLEADO props) (nombre props).
Definition telefonoOf (props : Props) : value := or (TELEFONO props) (telefono props).

(** The identity key of the filter, [`${empleado}-${telefono}`]. *)
Definition idOf (props : Props) : string :=
  interpolate (empleadoOf props) +:+ "-" +:+ interpolate (telefonoOf props).

(** [empleado && empleado !== "null"] as the filter reads it. *)
Definition named (props : Props) : bool :=
  is_truthy (empleadoOf props) && differs (empleadoOf props) "null".

(** The [.filter] callback run over the array, threading the [seen] set. *)
Fixpoint filterSeen (seen : gset string) (l : list Props) : list Props :=
  match l with
  | [] => []
  | props :: rest =>
      let id := idOf props in
      if decide (id ∈ seen) then filterSeen seen rest
      else
        let seen := seen ∪ {[ id ]} in
        if named props then props :: filterSeen seen rest
        else filterSeen seen rest
  end.

(** The entry carries the identity key [key]. *)
Definition hasKey (key : string) (props : Props) : bool :=
  String.eqb (idOf props) key.

(** [/^(PT|SI|IT|CT|MY|TE|ST|AG)\.?\s/] *)
Definition rangeRe : regex :=
  seq [Bol;
       Group 1 (Alt (lit "PT") (Alt (lit "SI") (Alt (lit "IT") (Alt (lit "CT")
               (Alt (lit "MY") (Alt (lit "TE") (Alt (lit "ST") (lit "AG"))))))));
       Opt (Lit ".");
       Class Space].

Definition toOfficer (props : Props) : Officer :=
  let name := toUpperCase (interpolate (or (or (EMPLEADO props) (nombre props)) (text ""))) in
  let initials :=
    match regex_match name rangeRe with
    | Some rangeMatch => default "undefined" (capture 1 rangeMatch)
    | None => substring 0 2 name
    end in
  let phone := or (TELEFONO props) (telefono props) in
  {| name := name;
     phone := if is_truthy phone && differs phone "0" then interpolate phone else "S/N";
     initials := initials |}.

Definition processPersonnel (personnelFeatures : list feature) : list Officer :=
  map toOfficer (filterSeen ∅ (map propsOf personnelFeatures)).

(** Two roster records of the same officer, delivered with the literal
    "null" for a name. *)
Definition unnamedTwice : list feature :=
  [Feature {| EMPLEADO := text "null"; nombre := undefined;
              TELEFONO := text "3001234567"; telefono := undefined |};
   Feature {| EMPLEADO := text "null"; nombre := undefined;
              TELEFONO := text "3001234567"; telefono := undefined |}].

(** A roster as the official service delivers it: an officer listed
    twice, one without a telephone, and a record without a name. *)
Definition rosterE01 : list feature :=
  [Feature {| EMPLEADO := text "PT. Juan Perez"; nombre := undefined;
              TELEFONO := text "3001234567"; telefono := undefined |};
   Feature {| EMPLEADO := text "SI Ana Gomez"; nombre := undefined;
              TELEFONO := text "0"; telefono := undefined |};
   Feature {| EMPLEADO := text "PT. Juan Perez"; nombre := undefined;
              TELEFONO := text "3001234567"; telefono := undefined |};
   Flat {| EMPLEADO := undefined; nombre := null;
           TELEFONO := undefined; telefono := text "3009999999" |}].

(** *** The three geometry tiers *)

Inductive source : Type :=
| official
| alternative
| offline.

Inductive event : Type :=
| Called (tier : source)
| Log (line : string)
| Warn (line : string) (detail : string).

(** The tiers reach the network, the offline snapshot and the sibling
    services; each resolves to a result or [null], or rejects. What a tier
    resolves to is kept abstract: the orchestrator only copies it. *)
Class Remote : Type := {
  Net : Type;
  TierResult : Type;
  fetchFromOfficialAPI : number -> number -> Net -> outcome (option TierResult) * Net;
  fetchFromAlternativeAPI : number -> number -> Net -> outcome (option TierResult) * Net;
  fetchFromOfflineData : number -> number -> Net -> outcome (option TierResult) * Net
}.

Section Orchestrator.

Context `{Remote}.

Record state : Type := mkState {
  net : Net;
  trace : list event
}.

Definition emit (e : event) (st : state) : state :=
  {| net := net st; trace := trace st ++ [e] |}.

Definition await {A : Type} (tier : source) (f : Net -> A * Net) (st : state)
    : A * state :=
  let (a, n) := f (net st) in
  (a, {| net := n; trace := trace st ++ [Called tier] |}).

(** [{ ...result, source }] *)
Record Sourced : Type := mkSourced {
  result : TierResult;
  from : source
}.

(** One [try { ... } catch (error) { console.warn(...) }] block of the
    orchestrator: [Some] when the block returns from the function, [None]
    when control falls through to the statement after it. The console
    lines are written without their pictograms. *)
Definition attempt (tier : source) (trying obtained failed : string)
    (fetchFrom : Net -> outcome (option TierResult) * Net) (st : state)
    : option Sourced * state :=
  let st := emit (Log trying) st in
  let (r, st) := await tier fetchFrom st in
  match r with
  | Return (Some result) =>
      let st := emit (Log obtained) st in
      (Some {| result := result; from := tier |}, st)
  | Return None => (None, st)
  | Throw error => (None, emit (Warn failed (message error)) st)
  end.

Definition fetchQuadrantWithFallback (lat lng : number) (st : state)
    : outcome (option Sourced) * state :=
  (* 1. Intentar API oficial *)
  match attempt official "Intentando API oficial..."
          "Datos obtenidos de API oficial" "API oficial fallo:"
          (fetchFromOfficialAPI lat lng) st with
  | (Some found, st) => (Return (Some found), st)
  | (None, st) =>
  (* 2. Intentar API alternativa (SIPCI) *)
  match attempt alternative "Intentando API alternativa (SIPCI)..."
          "Datos obtenidos de API alternativa" "API alternativa fallo:"
          (fetchFromAlternativeAPI lat lng) st with
  | (Some found, st) => (Return (Some found), st)
  | (None, st) =>
  (* 3. Usar datos offline *)
  match attempt offline "Usando datos offline..."
          "Datos obtenidos de cache offline" "Busqueda offline fallo:"
          (fetchFromOfflineData lat lng) st with
  | (Some found, st) => (Return (Some found), st)
  | (None, st) =>
      (Return None, emit (Log "No se encontro cuadrante en ninguna fuente") st)
  end end end.

(** A tier that did not find the quadrant: it resolved to [null] or it
    rejected. *)
Definition missed (r : outcome (option TierResult)) : bool :=
  match r with
  | Return (Some _) => false
  | Return None => true
  | Throw _ => true
  end.

(** The declared priority: the tiers up to and including [tier]. *)
Definition upTo (tier : source) : list source :=
  match tier with
  | official => [official]
  | alternative => [official; alternative]
  | offline => [official; alternative; offline]
  end.

(** The tiers a run has called, in order. *)
Fixpoint calledTiers (t : list event) : list source :=
  match t with
  | [] => []
  | Called tier :: t' => tier :: calledTiers t'
  | _ :: t' => calledTiers t'
  end.

End Orchestrator.

(** Two environments to run the orchestrator in. In the first every tier
    finds the quadrant; in the second the official service times out, the
    alternative one has no polygon at the point and the offline snapshot
    is unreadable. The state of the environment counts the calls. *)
Definition everyTierFinds : Remote :=
  {| Net := nat;
     TierResult := string;
     fetchFromOfficialAPI := fun _ _ n => (Return (Some "MEBOGMNVCCC01E01C02000004"), S n);
     fetchFromAlternativeAPI := fun _ _ n => (Return (Some "E01-04"), S n);
     fetchFromOfflineData := fun _ _ n => (Return (Some "E01-04"), S n) |}.

Definition openWater : Remote :=
  {| Net := nat;
     TierResult := string;
     fetchFromOfficialAPI :=
       fun _ _ n => (Throw (mkError "The operation was aborted"), S n);
     fetchFromAlternativeAPI := fun _ _ n => (Return None, S n);
     fetchFromOfflineData :=
       fun _ _ n => (Throw (mkError "Unexpected token < in JSON"), S n) |}.


(** *** Identifiers of quadrants *)

(** [s.split(sep)] for a one-character separator. *)
Fixpoint split (sep : ascii) (s : string) : list string :=
  match s with
  | EmptyString => [EmptyString]
  | String c s' =>
      if Ascii.eqb c sep then EmptyString :: split sep s'
      else
        match split sep s' with
        | [] => [String c EmptyString]
        | w :: ws => String c w :: ws
        end
  end.

(** The value of [a.pop()]. *)
Definition pop (a : list string) : option string :=
  List.last (map Some a) None.

Definition matchesQuadrantId (personnelCuadrante : option string)
    (quadrantId : string) : bool :=
  if negb (truthy personnelCuadrante) then false
  else
    let normalizedPersonnel := toUpperCase (trim (default "" personnelCuadrante)) in
    let normalizedQuadrant := toUpperCase (trim quadrantId) in
    if String.eqb normalizedPersonnel normalizedQuadrant then true
    else
      let personnelSuffix :=
        default "" (or_else (pop (split "-" normalizedPersonnel)) (Some "")) in
      let quadrantSuffix :=
        default "" (or_else (pop (split "-" normalizedQuadrant)) (Some "")) in
      String.eqb personnelSuffix quadrantSuffix
      && negb (String.eqb personnelSuffix "").

(** A record of the offline roster, as far as the lookups read it; the
    coordinates are numbers. *)
Record Personal : Type := mkPersonal {
  p_cuadrante : option string;
  p_cai : option string;
  p_lat : option number;
  p_lng : option number
}.

(** Truthiness of a number that may be missing. *)
Definition nonzero (v : option number) : bool :=
  match v with
  | Some (Finite q) => negb (Qeq_bool q 0)
  | Some NaN => false
  | Some _ => true
  | None => false
  end.

(** [{ lat, lng, name }] *)
Record CAILocation : Type := mkCAILocation {
  loc_lat : option number;
  loc_lng : option number;
  loc_name : string
}.

(** [findCAILocationFromPersonnel], reading the module variable
    [offlinePersonal]. *)
Definition findCAILocationFromPersonnel (offlinePersonal : option (list Personal))
    (quadrantId : string) : option CAILocation :=
  match offlinePersonal with
  | None => None
  | Some personal =>
      match List.find (fun p => matchesQuadrantId (p_cuadrante p) quadrantId
                                && nonzero (p_lat p) && nonzero (p_lng p))
                      personal with
      | Some found =>
          Some {| loc_lat := p_lat found;
                  loc_lng := p_lng found;
                  loc_name := default "" (or_else (p_cai found) (Some "CAI")) |}
      | None => None
      end
  end.

(** *** The hierarchy read from a code *)

(** The properties of a quadrant feature that [extractJerarquia] reads. *)
Record QuadrantProps : Type := mkQuadrantProps {
  UNIDAD : value;
  DEPARTAMENTO : value;
  TELEFONO_CUAD : value;
  TELEFONO' : value
}.

Record Jerarquia : Type := mkJerarquia {
  departamento : value;
  estacion : value;
  codigoEstacion : option string;
  codigoCAI : option string;
  telefonoCuadrante : value
}.

(** [/^([A-Z]{5})?(MNVCC)?([CDS]\d{2})?(E\d{2})(C\d{2}|S\d{2})?(\d{6})?$/] *)
Definition siviccRe : regex :=
  seq [Bol;
       Opt (Group 1 (Rep 5 (Class UpperAZ)));
       Opt (Group 2 (lit "MNVCC"));
       Opt (Group 3 (seq [Class (OneOf "CDS"); Rep 2 (Class Digit)]));
       Group 4 (seq [Lit "E"; Rep 2 (Class Digit)]);
       Opt (Group 5 (Alt (seq [Lit "C"; Rep 2 (Class Digit)])
                         (seq [Lit "S"; Rep 2 (Class Digit)])));
       Opt (Group 6 (Rep 6 (Class Digit)));
       Eol].

Definition unidadToDepto : object :=
  [("MEBOG", Some "METROPOLITANA DE BOGOTA");
   ("DEANT", Some "DEPARTAMENTO DE POLICIA ANTIOQUIA");
   ("MEAME", Some "METROPOLITANA DEL VALLE DE ABURRA");
   ("MECAL", Some "METROPOLITANA DE SANTIAGO DE CALI");
   ("MEBAR", Some "METROPOLITANA DE BARRANQUILLA");
   ("DEBUC", Some "DEPARTAMENTO DE POLICIA BUCARAMANGA");
   ("DEAMA", Some "DEPARTAMENTO DE POLICIA AMAZONAS")].

(** A string that may be missing, as a property value. *)
Definition valueOf (v : option string) : value :=
  match v with
  | Some s => text s
  | None => undefined
  end.

Definition extractJerarquia (codigoCuadrante : string) (props : QuadrantProps)
    : Jerarquia :=
  let normalized := trim (toUpperCase codigoCuadrante) in
  let result :=
    match regex_match normalized siviccRe with
    | Some siviccMatch =>
        let unidad := capture 1 siviccMatch in
        let estacion := capture 4 siviccMatch in
        let cai := capture 5 siviccMatch in
        {| departamento :=
             if truthy unidad
             then valueOf (or_else (get (default "" unidad) unidadToDepto) unidad)
             else undefined;
           estacion := undefined;
           codigoEstacion := estacion;
           codigoCAI := cai;
           telefonoCuadrante := undefined |}
    | None =>
        {| departamento := undefined; estacion := undefined;
           codigoEstacion := None; codigoCAI := None;
           telefonoCuadrante := undefined |}
    end in
  let result :=
    if is_truthy (UNIDAD props) && negb (is_truthy (estacion result))
    then {| departamento := departamento result;
            estacion := UNIDAD props;
            codigoEstacion := codigoEstacion result;
            codigoCAI := codigoCAI result;
            telefonoCuadrante := telefonoCuadrante result |}
    else result in
  let result :=
    if is_truthy (DEPARTAMENTO props) && negb (is_truthy (departamento result))
    then {| departamento := DEPARTAMENTO props;
            estacion := estacion result;
            codigoEstacion := codigoEstacion result;
            codigoCAI := codigoCAI result;
            telefonoCuadrante := telefonoCuadrante result |}
    else result in
  if is_truthy (TELEFONO_CUAD props) || is_truthy (TELEFONO' props)
  then {| departamento := departamento result;
          estacion := estacion result;
          codigoEstacion := codigoEstacion result;
          codigoCAI := codigoCAI result;
          telefonoCuadrante := or (TELEFONO_CUAD props) (TELEFONO' props) |}
  else result.

(** *** The connectivity probe *)

Inductive connection : Type :=
| Online
| Alternative
| Offline.

(** The clock, and the request to the official service: [true] when the
    response is OK and its body parses to an object without an [error]
    property; [false] when the request is rejected or aborted, the status
    is not OK, the body does not parse or it reports an error. *)
Class Probe : Type := {
  Web : Type;
  Date_now : Web -> Z;
  probe : Web -> bool * Web
}.

Section Connectivity.

Context `{Probe}.

(** The two module variables, the environment, and the clock readings at
    which a request was sent, latest last. *)
Record status : Type := mkStatus {
  isOfflineMode : bool;
  lastOnlineCheck : Z;
  web : Web;
  probed : list Z
}.

Definition ONLINE_CHECK_INTERVAL : Z := 60000.

Definition starting (w : Web) : status :=
  {| isOfflineMode := false; lastOnlineCheck := 0; web := w; probed := [] |}.

Definition checkOnlineStatus (st : status) : bool * status :=
  let now := Date_now (web st) in
  if (now - lastOnlineCheck st <? ONLINE_CHECK_INTERVAL)%Z
  then (negb (isOfflineMode st), st)
  else
    let (available, w) := probe (web st) in
    if available then
      (true, {| isOfflineMode := false; lastOnlineCheck := now; web := w;
                probed := probed st ++ [now] |})
    else
      (false, {| isOfflineMode := true; lastOnlineCheck := now; web := w;
                 probed := probed st ++ [now] |}).

Definition getConnectionStatus (st : status) : connection :=
  if negb (isOfflineMode st) then Online else Offline.

(** Time passes between two checks. *)
Definition wait (f : Web -> Web) (st : status) : status :=
  {| isOfflineMode := isOfflineMode st; lastOnlineCheck := lastOnlineCheck st;
     web := f (web st); probed := probed st |}.

(** A series of checks, the environment moving on before each; the
    answers come back in order. *)
Fixpoint checkRepeatedly (moves : list (Web -> Web)) (st : status)
    : list bool * status :=
  match moves with
  | [] => ([], st)
  | f :: moves' =>
      let (answer, st) := checkOnlineStatus (wait f st) in
      let (answers, st) := checkRepeatedly moves' st in
      (answer :: answers, st)
  end.


(** Clock readings that lie at least [gap] apart, each from the one
    before. *)
Fixpoint spaced (gap : Z) (times : list Z) : Prop :=
  match times with
  | t1 :: (t2 :: _) as later => (gap <= t2 - t1)%Z /\ spaced gap later
  | _ => True
  end.

End Connectivity.

End QuadrantService.

(** ** caiService linked with the services it imports *)

Module Fusion.

Section Linked.

Context (webmap : CaiService.Remote) (sdscj : BogotaSDSCJService.Remote)
        (soda : SodaService.Remote).

(** caiService reaches the SDSCJ layers and the directory through
    [getCAIFromSDSCJ] and [getJerarquiaCuadrante], which it imports from
    bogotaSDSCJService and sodaService. Outside caiService there are then
    its own clock and loaders, and the two sibling modules with their
    module variables, each in an environment of its own. *)
Record World : Type := mkWorld {
  outside : @CaiService.Net webmap;
  sdscjService : @BogotaSDSCJService.state sdscj;
  sodaService : @SodaService.state soda
}.

Definition toFallback (center : CaiService.LatLng) : BogotaSDSCJService.LatLng :=
  {| BogotaSDSCJService.fallback_lat := CaiService.center_lat center;
     BogotaSDSCJService.fallback_lng := CaiService.center_lng center |}.

Definition toLocation (l : BogotaSDSCJService.CAILocation) : CaiService.CAILocation :=
  {| CaiService.loc_lat := BogotaSDSCJService.loc_lat l;
     CaiService.loc_lng := BogotaSDSCJService.loc_lng l;
     CaiService.loc_name := BogotaSDSCJService.loc_name l |}.

Definition toJerarquia (j : SodaService.JerarquiaCuadrante) : CaiService.Jerarquia :=
  {| CaiService.j_departamento := SodaService.j_departamento j;
     CaiService.j_estacion := SodaService.j_estacion j;
     CaiService.j_cai := SodaService.j_cai j;
     CaiService.j_cuadrante := SodaService.j_cuadrante j;
     CaiService.j_telefono := SodaService.j_telefono j |}.

Definition linked : CaiService.Remote :=
  {| CaiService.Net := World;
     CaiService.Date_now := fun w => CaiService.Date_now (outside w);
     CaiService.loadCAIsFromLocal := fun w =>
       let (local, n) := CaiService.loadCAIsFromLocal (outside w) in
       (local, {| outside := n; sdscjService := sdscjService w;
                  sodaService := sodaService w |});
     CaiService.loadCAIsFromArcGIS := fun w =>
       let (arcgis, n) := CaiService.loadCAIsFromArcGIS (outside w) in
       (arcgis, {| outside := n; sdscjService := sdscjService w;
                   sodaService := sodaService w |});
     CaiService.getCAIFromSDSCJ := fun quadrantId quadrantCenter w =>
       let (r, s) :=
         BogotaSDSCJService.getCAIFromSDSCJ quadrantId
           (option_map toFallback quadrantCenter) (sdscjService w) in
       (Return (option_map toLocation r),
        {| outside := outside w; sdscjService := s;
           sodaService := sodaService w |});
     CaiService.getJerarquiaCuadrante := fun quadrantId w =>
       let (r, s) :=
         SodaService.getJerarquiaCuadrante quadrantId (sodaService w) in
       (Return (option_map toJerarquia r),
        {| outside := outside w; sdscjService := sdscjService w;
           sodaService := s |});
     CaiService.turf_distance := CaiService.turf_distance |}.

End Linked.

End Fusion.

(** ** The great-circle distance over binary64

    [haversineDistance] of the SDSCJ service and of the comparison script,
    which are the same function, computed on doubles. The search of the
    SDSCJ service above takes it as a parameter. *)

Module Haversine.

Local Open Scope float_scope.

(** [Math.sin], [Math.cos] and [Math.atan2]. ECMAScript leaves their values
    to the engine, up to an approximation; the arithmetic operators and
    [Math.sqrt] are those of IEEE 754 binary64. *)
Class Math : Type := {
  sin : float -> float;
  cos : float -> float;
  atan2 : float -> float -> float
}.

(** [Math.PI], the double nearest to the number. *)
Definition PI : float := 0x1.921fb54442d18p+1.

Section Distance.

Context `{Math}.

Definition haversineDistance (lat1 lng1 lat2 lng2 : float) : float :=
  let R := 6371 in
  let dLat := (lat2 - lat1) * PI / 180 in
  let dLng := (lng2 - lng1) * PI / 180 in
  let a := sin (dLat / 2) * sin (dLat / 2)
           + cos (lat1 * PI / 180) * cos (lat2 * PI / 180)
             * sin (dLng / 2) * sin (dLng / 2) in
  let c := 2 * atan2 (sqrt a) (sqrt (1 - a)) in
  R * c.

(** A latitude and a longitude in degrees. *)
Definition coordinates (lat lng : float) : bool :=
  (-90 <=? lat) && (lat <=? 90) && (-180 <=? lng) && (lng <=? 180).

(** The three laws of a distance, with the comparisons of the language:
    [x === y] and [0 <= x] on doubles. *)
Definition distance_laws : Prop :=
  forall lat1 lng1 lat2 lng2,
    coordinates lat1 lng1 = true ->
    coordinates lat2 lng2 = true ->
    (haversineDistance lat1 lng1 lat2 lng2
     =? haversineDistance lat2 lng2 lat1 lng1) = true
    /\ (0 <=? haversineDistance lat1 lng1 lat2 lng2) = true
    /\ (haversineDistance lat1 lng1 lat1 lng1 =? 0) = true.

End Distance.

(** A table of arguments and values, read at an argument; an argument the
    table does not hold reads as [NaN]. *)
Fixpoint tabulated (table : list (float * float)) (x : float) : float :=
  match table with
  | [] => nan
  | (argument, value) :: table' =>
      if x =? argument then value else tabulated table' x
  end.

(** The sine and the cosine at zero, at 8 degrees and at a right angle,
    rounded to the nearest double, which is what the routines of fdlibm
    and of glibc return there, and the arc tangent where ECMAScript fixes
    its value: [NaN] of a [NaN], and the zero [y] itself for a positive
    [x]. *)
Definition sampled : Math :=
  {| sin := fun x =>
       if x =? 0 then x
       else tabulated
              [(0x1.1df46a2529d39p-3, 0x1.1d06c968d9e19p-3);
               (-0x1.1df46a2529d39p-3, -0x1.1d06c968d9e19p-3);
               (0x1.921fb54442d18p+0, 1);
               (-0x1.921fb54442d18p+0, -1)] x;
     cos := fun x =>
       if x =? 0 then 1
       else tabulated
              [(0x1.1df46a2529d39p-3, 0x1.fb046a930947ap-1);
               (-0x1.1df46a2529d39p-3, 0x1.fb046a930947ap-1)] x;
     atan2 := fun y x =>
       if is_nan y || is_nan x then nan
       else if (y =? 0) && (0 <? x) then y
       else nan |}.

End Haversine.

(** * Properties *)

(** ** The fallback orchestrator *)

Section OrchestratorProperties.

Import QuadrantService.
Context `{Remote}.

(** The whole run, by the outcomes of the three tiers at the states of
    the environment in which each of them would be called. *)
Lemma fetchQuadrantWithFallback_cases (lat lng : number) (st : state) :
  let run := fetchQuadrantWithFallback lat lng st in
  let o1 := fetchFromOfficialAPI lat lng (net st) in
  let o2 := fetchFromAlternativeAPI lat lng (snd o1) in
  let o3 := fetchFromOfflineData lat lng (snd o2) in
  exists new,
    trace (snd run) = trace st ++ new /\
    match fst o1 with
    | Return (Some r) =>
        fst run = Return (Some {| result := r; from := official |})
        /\ net (snd run) = snd o1 /\ calledTiers new = [official]
    | _ =>
        match fst o2 with
        | Return (Some r) =>
            fst run = Return (Some {| result := r; from := alternative |})
            /\ net (snd run) = snd o2
            /\ calledTiers new = [official; alternative]
        | _ =>
            fst run =
              Return (match fst o3 with
                      | Return (Some r) => Some {| result := r; from := offline |}
                      | _ => None
                      end)
            /\ net (snd run) = snd o3
            /\ calledTiers new = [official; alternative; offline]
        end
    end.
Proof.
  intros run o1 o2 o3; subst run o1 o2 o3.
  unfold fetchQuadrantWithFallback, attempt, await, emit; simpl.
  destruct (fetchFromOfficialAPI lat lng (net st)) as [[[r1|]|e1] n1]; simpl;
    try (eexists; split; [rewrite <- ?app_assoc; reflexivity | simpl; auto]; fail);
    destruct (fetchFromAlternativeAPI lat lng n1) as [[[r2|]|e2] n2]; simpl;
    try (eexists; split; [rewrite <- ?app_assoc; reflexivity | simpl; auto]; fail);
    destruct (fetchFromOfflineData lat lng n2) as [[[r3|]|e3] n3]; simpl;
    eexists; (split; [rewrite <- ?app_assoc; reflexivity | simpl; auto]).
Qed.

(** C1. When the official tier finds the quadrant at a point for which the
    alternative tier would find it too, the orchestrator returns the
    official result tagged [official], and the official tier is the only
    one it calls. In every run the tiers called are exactly those of the
    declared order up to the one the result comes from, or all three when
    there is none. *)
Theorem official_tier_has_priority (lat lng : number) (st : state)
    (r1 : TierResult) (n1 : Net) :
  fetchFromOfficialAPI lat lng (net st) = (Return (Some r1), n1) ->
  (forall n, exists r2 n2,
      fetchFromAlternativeAPI lat lng n = (Return (Some r2), n2)) ->
  let run := fetchQuadrantWithFallback lat lng st in
  fst run = Return (Some {| result := r1; from := official |})
  /\ net (snd run) = n1
  /\ (exists new, trace (snd run) = trace st ++ new
                  /\ calledTiers new = [official])
  /\ (forall st0,
        let run0 := fetchQuadrantWithFallback lat lng st0 in
        exists new, trace (snd run0) = trace st0 ++ new
                    /\ calledTiers new =
                       match fst run0 with
                       | Return (Some found) => upTo (from found)
                       | _ => upTo offline
                       end).
Proof.
  intros Hofficial _ run.
  destruct (fetchQuadrantWithFallback_cases lat lng st) as (new & Ht & Hcase).
  fold run in Ht, Hcase. rewrite Hofficial in Hcase; simpl in Hcase.
  destruct Hcase as (Hr & Hn & Hc).
  repeat split; auto.
  - exists new; auto.
  - intros st0 run0.
    destruct (fetchQuadrantWithFallback_cases lat lng st0) as (new0 & Ht0 & Hcase0).
    fold run0 in Ht0, Hcase0. exists new0; split; [exact Ht0|].
    destruct (fst (fetchFromOfficialAPI lat lng (net st0))) as [[r|]|e];
      [destruct Hcase0 as (-> & _ & ->); reflexivity|..];
      (destruct (fst (fetchFromAlternativeAPI lat lng _)) as [[r|]|e'];
       [destruct Hcase0 as (-> & _ & ->); reflexivity|..]);
      destruct Hcase0 as (-> & _ & ->);
      destruct (fst (fetchFromOfflineData lat lng _)) as [[r|]|e'']; reflexivity.
Qed.

(** C2. When each of the three tiers, called in turn, rejects or finds no
    polygon, the orchestrator returns [null]: it does not throw, and it
    has called the three tiers in order. *)
Theorem exhausted_tiers_give_null (lat lng : number) (st : state) :
  let o1 := fetchFromOfficialAPI lat lng (net st) in
  let o2 := fetchFromAlternativeAPI lat lng (snd o1) in
  let o3 := fetchFromOfflineData lat lng (snd o2) in
  missed (fst o1) = true -> missed (fst o2) = true -> missed (fst o3) = true ->
  let run := fetchQuadrantWithFallback lat lng st in
  fst run = Return None
  /\ (forall e, fst run <> Throw e)
  /\ net (snd run) = snd o3
  /\ (exists new, trace (snd run) = trace st ++ new
                  /\ calledTiers new = [official; alternative; offline]).
Proof.
  intros o1 o2 o3 H1 H2 H3 run.
  destruct (fetchQuadrantWithFallback_cases lat lng st) as (new & Ht & Hcase).
  fold run o1 in Ht, Hcase. fold o2 in Hcase. fold o3 in Hcase.
  assert (Hcase' : fst run = Return None /\ net (snd run) = snd o3
                   /\ calledTiers new = [official; alternative; offline]).
  { destruct (fst o1) as [[r|]|e]; [discriminate H1|..];
      (destruct (fst o2) as [[r|]|e']; [discriminate H2|..]);
      (destruct (fst o3) as [[r|]|e'']; [discriminate H3|..]); exact Hcase. }
  destruct Hcase' as (Hr & Hn & Hc).
  repeat split; auto.
  - intros e. rewrite Hr. discriminate.
  - exists new; auto.
Qed.

End OrchestratorProperties.

Lemma official_tier_has_priority_witness :
  let run := @QuadrantService.fetchQuadrantWithFallback
               QuadrantService.everyTierFinds
               (Finite (46 # 10)) (Finite (-74 # 1))
               (@QuadrantService.mkState QuadrantService.everyTierFinds 0%nat []) in
  fst run = Return (Some (@QuadrantService.mkSourced QuadrantService.everyTierFinds
                            "MEBOGMNVCCC01E01C02000004" QuadrantService.official))
  /\ QuadrantService.net (snd run) = 1%nat
  /\ (exists new, QuadrantService.trace (snd run) = [] ++ new
                  /\ QuadrantService.calledTiers new = [QuadrantService.official]).
Proof.
  destruct (@official_tier_has_priority QuadrantService.everyTierFinds
              (Finite (46 # 10)) (Finite (-74 # 1))
              (@QuadrantService.mkState QuadrantService.everyTierFinds 0%nat [])
              "MEBOGMNVCCC01E01C02000004" 1%nat)
    as (Hr & Hn & Hc & _).
  - reflexivity.
  - intros n. exists "E01-04", (S n). reflexivity.
  - repeat split; assumption.
Defined.

Lemma exhausted_tiers_give_null_witness :
  let run := @QuadrantService.fetchQuadrantWithFallback
               QuadrantService.openWater
               (Finite (12 # 1)) (Finite (-81 # 1))
               (@QuadrantService.mkState QuadrantService.openWater 0%nat []) in
  fst run = Return None /\ QuadrantService.net (snd run) = 3%nat.
Proof.
  destruct (@exhausted_tiers_give_null QuadrantService.openWater
              (Finite (12 # 1)) (Finite (-81 # 1))
              (@QuadrantService.mkState QuadrantService.openWater 0%nat []))
    as (Hr & _ & Hn & _).
  - reflexivity.
  - reflexivity.
  - reflexivity.
  - split; assumption.
Defined.

(** ** The TTL caches *)

Section CacheProperties.

Context {soda : SodaService.Remote} {webmap : CaiService.Remote}.

(** C6. While a non-empty snapshot is younger than the reload interval of
    its source, [loadDirectorio] and [loadCAIs] leave the state as it is:
    the snapshot is the one served and no loader is called. *)
Theorem fresh_snapshot_is_reused (sd : SodaService.state) (cs : CaiService.state) :
  (SodaService.cachedDirectorio sd <> [] ->
   (SodaService.Date_now (SodaService.net sd) - SodaService.lastLoadAttempt sd
    < SodaService.RELOAD_INTERVAL)%Z ->
   SodaService.loadDirectorio sd = sd
   /\ SodaService.calls (SodaService.loadDirectorio sd) = SodaService.calls sd
   /\ forall codigo,
        SodaService.findCAIForCuadrante codigo sd =
        (SodaService.searchDirectorio (SodaService.cachedDirectorio sd) codigo, sd))
  /\
  (CaiService.cachedCAIs cs <> [] ->
   (CaiService.Date_now (CaiService.net cs) - CaiService.lastLoadAttempt cs
    < CaiService.RELOAD_INTERVAL)%Z ->
   CaiService.loadCAIs cs = cs
   /\ CaiService.calls (CaiService.loadCAIs cs) = CaiService.calls cs).
Proof.
  split.
  - intros Hne Hfresh.
    assert (E : SodaService.loadDirectorio sd = sd).
    { unfold SodaService.loadDirectorio.
      destruct (SodaService.cachedDirectorio sd) as [|d l] eqn:Hc; [congruence|].
      simpl length. apply Z.ltb_lt in Hfresh. rewrite Hfresh. reflexivity. }
    repeat split.
    + exact E.
    + rewrite E; reflexivity.
    + intros codigo. unfold SodaService.findCAIForCuadrante. rewrite E. reflexivity.
  - intros Hne Hfresh.
    assert (E : CaiService.loadCAIs cs = cs).
    { unfold CaiService.loadCAIs.
      destruct (CaiService.cachedCAIs cs) as [|d l] eqn:Hc; [congruence|].
      simpl length. apply Z.ltb_lt in Hfresh. rewrite Hfresh. reflexivity. }
    split; [exact E | rewrite E; reflexivity].
Qed.

End CacheProperties.

Lemma fresh_snapshot_is_reused_witness :
  let sd := @SodaService.mkState SodaService.unreachable
              [SodaService.usaquen] true 1000%Z 2000%Z [SodaService.Fetch] in
  let cs := @CaiService.mkState CaiService.quiet
              [CaiService.webMapCAI "CAI_1" "E01-01" "CAI CODITO" (47 # 10) (-74 # 1)]
              false true 1000%Z 2000%Z [CaiService.LoadCAIsFromLocal] in
  @SodaService.loadDirectorio SodaService.unreachable sd = sd
  /\ @CaiService.loadCAIs CaiService.quiet cs = cs.
Proof.
  intros sd cs.
  destruct (@fresh_snapshot_is_reused SodaService.unreachable CaiService.quiet sd cs)
    as [Hsoda Hcai].
  split.
  - apply Hsoda; [discriminate | reflexivity].
  - apply Hcai; [discriminate | reflexivity].
Defined.

Section FailOpen.

Import SodaService.
Context `{Remote}.

Lemma loadDirectorio_noRecords (st : state) :
  noRecords (fst (fetch (net st))) = true ->
  cachedDirectorio (loadDirectorio st) = cachedDirectorio st
  /\ directorioLoaded (loadDirectorio st) = directorioLoaded st.
Proof.
  intros Hfail. unfold loadDirectorio.
  destruct (_ && _); [split; reflexivity|].
  unfold loadDirectorioFromSODA, await; simpl.
  unfold noRecords in Hfail.
  destruct (fetch (net st)) as [r n]; simpl in *.
  destruct (decode r) as [[|d l]|e]; simpl; try discriminate; split; reflexivity.
Qed.

Lemma loadRepeatedly_noRecords (moves : list (Net -> Net)) (st : state) :
  (forall n, noRecords (fst (fetch n)) = true) ->
  cachedDirectorio (loadRepeatedly moves st) = cachedDirectorio st.
Proof.
  intros Hfail. revert st.
  induction moves as [|f moves IH]; intros st; simpl; [reflexivity|].
  rewrite IH. destruct (loadDirectorio_noRecords (elapse f st)) as [E _].
  - apply Hfail.
  - rewrite E. reflexivity.
Qed.

(** C7. With a non-empty snapshot in the cache, a load whose loader comes
    back without records (the request was rejected, the status was not
    OK, the body did not parse, or it held no record) throws nothing and
    leaves the snapshot as it was, and the read that follows is answered
    from it; so is every later read for as long as the loader keeps
    failing. *)
Theorem failed_refresh_keeps_snapshot (st : state) :
  cachedDirectorio st <> [] ->
  noRecords (fst (fetch (net st))) = true ->
  cachedDirectorio (loadDirectorio st) = cachedDirectorio st
  /\ cachedDirectorio (loadDirectorio st) <> []
  /\ (forall codigo,
        fst (findCAIForCuadrante codigo st) =
        searchDirectorio (cachedDirectorio st) codigo)
  /\ ((forall n, noRecords (fst (fetch n)) = true) ->
      forall moves codigo,
        cachedDirectorio (loadRepeatedly moves st) = cachedDirectorio st
        /\ fst (findCAIForCuadrante codigo (loadRepeatedly moves st)) =
           searchDirectorio (cachedDirectorio st) codigo).
Proof.
  intros Hne Hfail.
  destruct (loadDirectorio_noRecords st Hfail) as [E _].
  split; [exact E|].
  split; [rewrite E; exact Hne|].
  split.
  - intros codigo. unfold findCAIForCuadrante; simpl. rewrite E. reflexivity.
  - intros Hall moves codigo.
    split; [apply loadRepeatedly_noRecords; exact Hall|].
    unfold findCAIForCuadrante; simpl.
    destruct (loadDirectorio_noRecords (loadRepeatedly moves st) (Hall _))
      as [E' _].
    rewrite E', loadRepeatedly_noRecords by exact Hall. reflexivity.
Qed.

End FailOpen.

Lemma failed_refresh_keeps_snapshot_witness :
  let st := @SodaService.mkState SodaService.unreachable
              [SodaService.usaquen] true 0%Z 3600000%Z [SodaService.Fetch] in
  @SodaService.cachedDirectorio SodaService.unreachable
    (@SodaService.loadDirectorio SodaService.unreachable st) = [SodaService.usaquen]
  /\ @SodaService.calls SodaService.unreachable
       (@SodaService.loadDirectorio SodaService.unreachable st)
     = [SodaService.Fetch; SodaService.Fetch].
Proof.
  intros st.
  destruct (@failed_refresh_keeps_snapshot SodaService.unreachable st)
    as (E & _).
  - discriminate.
  - reflexivity.
  - split; [exact E | reflexivity].
Defined.

(** ** The WebMap index tier *)

Section WebMapTier.

Import CaiService.
Context `{Remote}.

(** The first element a filter keeps is the first element of the list
    that passes the test. *)
Lemma filter_head_split {A : Type} (p : A -> bool) (l : list A) (x : A)
    (rest : list A) :
  List.filter p l = x :: rest ->
  exists before after,
    l = before ++ x :: after
    /\ forallb (fun y => negb (p y)) before = true
    /\ p x = true.
Proof.
  induction l as [|a l IH]; simpl; [discriminate|].
  destruct (p a) eqn:Ea.
  - intros E; injection E as -> _.
    exists [], l. simpl. auto.
  - intros E. destruct (IH E) as (before & after & -> & Hb & Hx).
    exists (a :: before), after. simpl. rewrite Ea, Hb. auto.
Qed.

(** C8, as amended. For a code whose parse gives a station and no subunit,
    [findCAIByCuadrante] returns the first entry of the cached index, in
    the order of the cache, whose own code parses to that station: no
    entry before it shares the station, whatever numbers the entries
    carry. *)
Theorem station_only_code_gives_first_cached (codigo : string) (st : state)
    (parsed : QuadrantCode) :
  parseQuadrantCode codigo = Some parsed ->
  cai parsed = None ->
  let cache := cachedCAIs (loadCAIs st) in
  let candidates := List.filter (sharesStation parsed) cache in
  fst (findCAIByCuadrante codigo st) = head candidates
  /\ (1 < length candidates ->
      exists first before after,
        fst (findCAIByCuadrante codigo st) = Some first
        /\ cache = before ++ first :: after
        /\ forallb (fun c => negb (sharesStation parsed c)) before = true
        /\ sharesStation parsed first = true).
Proof.
  intros Hparse Hcai cache candidates.
  assert (E : fst (findCAIByCuadrante codigo st) = head candidates).
  { unfold findCAIByCuadrante. rewrite Hparse. fold cache. fold candidates.
    destruct candidates as [|first [|second more]]; try reflexivity.
    rewrite Hcai. reflexivity. }
  split; [exact E|].
  intros Hmany.
  destruct candidates as [|first rest] eqn:Ec; [simpl in Hmany; lia|].
  destruct (filter_head_split _ _ _ _ Ec) as (before & after & Hsplit & Hb & Hx).
  exists first, before, after. auto.
Qed.

End WebMapTier.

Lemma station_only_code_gives_first_cached_witness :
  fst (@CaiService.findCAIByCuadrante CaiService.quiet "E10" CaiService.chapinero)
  = Some (CaiService.webMapCAI "CAI_21" "E10-21" "CAI GRANADA"
            (4651 # 1000) (-74060 # 1000)).
Proof.
  destruct (@station_only_code_gives_first_cached CaiService.quiet "E10"
              CaiService.chapinero
              (CaiService.mkQuadrantCode "E10" "" None))
    as [E _].
  - reflexivity.
  - reflexivity.
  - rewrite E. reflexivity.
Defined.

(** C8 as stated fails: with the index holding post 21 of station E10
    before post 5, the station-only code E10 resolves to post 21, which
    is not the lowest-numbered of the two candidates. *)
Lemma lowest_numbered_counterexample :
  let post21 := CaiService.webMapCAI "CAI_21" "E10-21" "CAI GRANADA"
                  (4651 # 1000) (-74060 # 1000) in
  let post05 := CaiService.webMapCAI "CAI_05" "E10-05" "CAI LOURDES"
                  (4648 # 1000) (-74063 # 1000) in
  let parsed := CaiService.mkQuadrantCode "E10" "" None in
  CaiService.parseQuadrantCode "E10" = Some parsed
  /\ List.filter (CaiService.sharesStation parsed)
       (CaiService.cachedCAIs (CaiService.loadCAIs CaiService.chapinero))
     = [post21; post05]
  /\ fst (CaiService.findCAIByCuadrante "E10" CaiService.chapinero) = Some post21
  /\ CaiService.numberOf post21 = Finite 21
  /\ CaiService.numberOf post05 = Finite 5
  /\ CaiService.lowestNumbered post21 [post21; post05] = false
  /\ ~ (forall (R : CaiService.Remote) (codigo : string) (st : @CaiService.state R)
               (parsed : CaiService.QuadrantCode),
           CaiService.parseQuadrantCode codigo = Some parsed ->
           CaiService.cai parsed = None ->
           let candidates :=
             List.filter (CaiService.sharesStation parsed)
               (CaiService.cachedCAIs (CaiService.loadCAIs st)) in
           (1 < length candidates)%nat ->
           exists c, fst (CaiService.findCAIByCuadrante codigo st) = Some c
                     /\ CaiService.lowestNumbered c candidates = true).
Proof.
  repeat (split; [vm_compute; reflexivity|]).
  intros claim.
  destruct (claim CaiService.quiet "E10" CaiService.chapinero
              (CaiService.mkQuadrantCode "E10" "" None) eq_refl eq_refl)
    as (c & Hc & Hlow).
  - vm_compute. lia.
  - vm_compute in Hc. injection Hc as <-. vm_compute in Hlow. discriminate.
Qed.

(** ** The geometric fallback tier *)

Section NumberOrder.

Lemma ltb_irrefl (a : number) : ltb a a = false.
Proof.
  destruct a as [x| | |]; simpl; try reflexivity.
  apply negb_false_iff, Qle_bool_iff. lra.
Qed.

Lemma ltb_trans (a b c : number) :
  ltb a b = true -> ltb b c = true -> ltb a c = true.
Proof.
  destruct a as [x| | |], b as [y| | |], c as [z| | |]; simpl;
    try discriminate; try reflexivity.
  rewrite !negb_true_iff. intros Hab Hbc.
  destruct (Qle_bool z x) eqn:E; [|reflexivity].
  apply Qle_bool_iff in E.
  assert (Hxy : ~ (y <= x)%Q) by (rewrite <- Qle_bool_iff; congruence).
  assert (Hyz : ~ (z <= y)%Q) by (rewrite <- Qle_bool_iff; congruence).
  exfalso. lra.
Qed.

Lemma ltb_leb_trans (a b c : number) :
  ltb a b = true -> leb b c = true -> leb a c = true.
Proof.
  destruct a as [x| | |], b as [y| | |], c as [z| | |]; simpl;
    try discriminate; try reflexivity.
  rewrite negb_true_iff. intros Hab Hbc.
  apply Qle_bool_iff in Hbc. apply Qle_bool_iff.
  assert (Hxy : ~ (y <= x)%Q) by (rewrite <- Qle_bool_iff; congruence).
  lra.
Qed.

Lemma leb_below_Infinity (d max : number) :
  leb Infinity max = false -> leb d max = true -> ltb d Infinity = true.
Proof.
  destruct d as [x| | |], max as [m| | |]; simpl; congruence.
Qed.

End NumberOrder.

Section Nearest.

Variables (A : Type) (dist : A -> number) (max : number).
Variable step : option A * number -> A -> option A * number.

Hypothesis step_eq : forall acc x,
  step acc x =
  if ltb (dist x) (snd acc) && leb (dist x) max then (Some x, dist x) else acc.

Hypothesis max_finite : leb Infinity max = false.

Lemma nearest_step (seen : list A) (acc : option A * number) (x : A) :
  nearest_so_far dist max seen acc ->
  nearest_so_far dist max (seen ++ [x]) (step acc x).
Proof.
  unfold nearest_so_far. rewrite step_eq.
  destruct acc as [[b|] m]; simpl.
  - intros (-> & Hin & Hmax & Hmin).
    destruct (ltb (dist x) (dist b)) eqn:Hlt; simpl.
    + destruct (leb (dist x) max) eqn:Hle; simpl.
      * repeat split; auto.
        -- apply in_or_app; right; left; reflexivity.
        -- intros c Hc. apply in_app_or in Hc as [Hc|[<-|[]]].
           ++ destruct (ltb (dist c) (dist x)) eqn:E; [|reflexivity].
              rewrite <- (Hmin c Hc). symmetry. eapply ltb_trans; eauto.
           ++ apply ltb_irrefl.
      * rewrite (ltb_leb_trans _ _ _ Hlt Hmax) in Hle. discriminate.
    + repeat split; auto.
      * apply in_or_app; left; exact Hin.
      * intros c Hc. apply in_app_or in Hc as [Hc|[<-|[]]]; auto.
  - intros (-> & Hout).
    destruct (leb (dist x) max) eqn:Hle.
    + rewrite (leb_below_Infinity _ _ max_finite Hle). simpl.
      repeat split; auto.
      * apply in_or_app; right; left; reflexivity.
      * intros c Hc. apply in_app_or in Hc as [Hc|[<-|[]]].
        -- destruct (ltb (dist c) (dist x)) eqn:E; [|reflexivity].
           rewrite <- (Hout c Hc). symmetry. eapply ltb_leb_trans; eauto.
        -- apply ltb_irrefl.
    + rewrite andb_false_r. simpl. split; [reflexivity|].
      intros c Hc. apply in_app_or in Hc as [Hc|[<-|[]]]; auto.
Qed.

Lemma nearest_fold (l seen : list A) (acc : option A * number) :
  nearest_so_far dist max seen acc ->
  nearest_so_far dist max (seen ++ l) (fold_left step l acc).
Proof.
  revert seen acc. induction l as [|x l IH]; intros seen acc Hinv; simpl.
  - rewrite app_nil_r. exact Hinv.
  - replace (seen ++ x :: l) with ((seen ++ [x]) ++ l)
      by (rewrite <- app_assoc; reflexivity).
    apply IH, nearest_step, Hinv.
Qed.

(** The loop returns an element at the least distance when that distance
    is within the cut-off, and nothing exactly when no element is. *)
Lemma nearest_loop (l : list A) :
  let found := fst (fold_left step l (None, Infinity)) in
  (forall c, found = Some c ->
     In c l /\ leb (dist c) max = true
     /\ forall c', In c' l -> ltb (dist c') (dist c) = false)
  /\ (found = None <-> forall c', In c' l -> leb (dist c') max = false).
Proof.
  intros found.
  assert (Hinv : nearest_so_far dist max ([] ++ l)
                   (fold_left step l (None, Infinity))).
  { apply nearest_fold. unfold nearest_so_far; simpl. split; [reflexivity|].
    intros c []. }
  simpl in Hinv. unfold nearest_so_far in Hinv. fold found in Hinv.
  destruct found as [b|].
  - destruct Hinv as (_ & Hin & Hmax & Hmin). split.
    + intros c E; injection E as <-. auto.
    + split; [discriminate|]. intros Hnone.
      rewrite (Hnone b Hin) in Hmax. discriminate.
  - destruct Hinv as (_ & Hout). split; [discriminate|].
    split; auto.
Qed.

End Nearest.

Section GeometricFallback.

Context {webmap : CaiService.Remote} {sdscj : BogotaSDSCJService.Remote}.

(** The resolver answers from the fallback tier exactly when the three
    tiers before it have given nothing: its result is then the one of
    [geographicFallback] in the state those tiers leave, a throw
    included. *)
Lemma resolver_falls_back_last (quadrantId : string)
    (quadrantCenter : option CaiService.LatLng) (st : CaiService.state) :
  let run := CaiService.getCAILocationForQuadrant quadrantId quadrantCenter st in
  (exists sdscjResult st',
      CaiService.await CaiService.GetCAIFromSDSCJ
        (CaiService.getCAIFromSDSCJ quadrantId quadrantCenter) st
      = (Return (Some sdscjResult), st')
      /\ run = (Return (Some sdscjResult), st'))
  \/ (exists st1 c st',
        CaiService.findCAIByCuadrante quadrantId st1 = (Some c, st')
        /\ run = (Return (Some (CaiService.locationOf c)), st'))
  \/ (exists c st',
        In c (CaiService.cachedCAIs st')
        /\ run = (Return (Some (CaiService.locationOf c)), st'))
  \/ (exists st', run = CaiService.geographicFallback quadrantCenter st').
Proof.
  intros run. subst run.
  assert (Hsoda : forall st1,
    (exists c st',
        In c (CaiService.cachedCAIs st')
        /\ CaiService.sodaTier quadrantId quadrantCenter st1
           = (Return (Some (CaiService.locationOf c)), st'))
    \/ (exists st', CaiService.sodaTier quadrantId quadrantCenter st1
                    = CaiService.geographicFallback quadrantCenter st')).
  { intros st1. unfold CaiService.sodaTier.
    destruct (CaiService.await _ _ st1) as [[[j|]|e] st2]; eauto.
    destruct (List.find _ (CaiService.cachedCAIs st2)) as [c|] eqn:Hfind; eauto.
    left. exists c, st2. split; [|reflexivity].
    apply List.find_some in Hfind. apply Hfind. }
  assert (Hweb : forall st1,
    (exists st2 c st',
        CaiService.findCAIByCuadrante quadrantId st2 = (Some c, st')
        /\ CaiService.webMapTier quadrantId quadrantCenter st1
           = (Return (Some (CaiService.locationOf c)), st'))
    \/ (exists c st',
          In c (CaiService.cachedCAIs st')
          /\ CaiService.webMapTier quadrantId quadrantCenter st1
             = (Return (Some (CaiService.locationOf c)), st'))
    \/ (exists st', CaiService.webMapTier quadrantId quadrantCenter st1
                    = CaiService.geographicFallback quadrantCenter st')).
  { intros st1. unfold CaiService.webMapTier.
    destruct (CaiService.findCAIByCuadrante quadrantId (CaiService.loadCAIs st1))
      as [[c|] st2] eqn:Hfind.
    - left. exists (CaiService.loadCAIs st1), c, st2. auto.
    - right. apply Hsoda. }
  unfold CaiService.getCAILocationForQuadrant.
  destruct (_ || _).
  - destruct (CaiService.await CaiService.GetCAIFromSDSCJ _ st)
      as [[[loc|]|e] st1] eqn:Hsdscj.
    + left. exists loc, st1. auto.
    + right. apply Hweb.
    + right. apply Hweb.
  - right. apply Hweb.
Qed.



(** What the loop returns is the running candidate or a CAI it visited. *)
Lemma nearestAmong_cached (userPoint : CaiService.Position) (max : number)
    (cais : list CaiService.RealCAI) (acc : option CaiService.RealCAI * number)
    (c : CaiService.RealCAI) :
  CaiService.nearestAmong userPoint max cais acc = Return (Some c) ->
  fst acc = Some c \/ In c cais.
Proof.
  revert acc. induction cais as [|cai cais IH]; intros acc; simpl.
  - intros [= E]. left. exact E.
  - destruct (CaiService.turf_point _) as [caiPoint|e]; [|discriminate].
    intros Hrun. apply IH in Hrun as [Hacc|Hin]; [|right; right; exact Hin].
    unfold CaiService.nearer in Hacc.
    destruct (_ && _); [|left; exact Hacc].
    injection Hacc as <-. right. left. reflexivity.
Qed.


End GeometricFallback.

(** The sample index of station E10, asked for the CAI nearest to a point
    two blocks south of post 5: post 5 is at 0.111 km, post 21 at
    0.444 km. From a point 3 km further south nothing is returned. *)
Example nearest_in_chapinero :
  fst (CaiService.findNearestCAI (Finite (4647 # 1000)) (Finite (-74063 # 1000))
         (Some (Finite 2)) CaiService.chapinero)
  = Return (Some (CaiService.webMapCAI "CAI_05" "E10-05" "CAI LOURDES"
                    (4648 # 1000) (-74063 # 1000)))
  /\ fst (CaiService.findNearestCAI (Finite (4620 # 1000)) (Finite (-74063 # 1000))
            (Some (Finite 2)) CaiService.chapinero)
     = Return None.
Proof. split; vm_compute; reflexivity. Qed.



(** ** The roster *)

Section Roster.

Import QuadrantService.

Lemma hasKey_idOf (props : Props) : hasKey (idOf props) props = true.
Proof. apply String.eqb_refl. Qed.

Lemma hasKey_true (key : string) (props : Props) :
  hasKey key props = true <-> idOf props = key.
Proof. apply String.eqb_eq. Qed.

Lemma hasKey_false (key : string) (props : Props) :
  hasKey key props = false <-> idOf props <> key.
Proof. apply String.eqb_neq. Qed.

(** The filter keeps the entries in the order of the input. *)
Lemma filterSeen_sublist (seen : gset string) (l : list Props) :
  sublist (filterSeen seen l) l.
Proof.
  revert seen. induction l as [|props rest IH]; intros seen; simpl.
  - constructor.
  - destruct (decide (idOf props ∈ seen)).
    + apply sublist_cons, IH.
    + destruct (named props).
      * apply sublist_skip, IH.
      * apply sublist_cons, IH.
Qed.

(** What the filter keeps of one key, for any set of keys seen so far. *)
Lemma filterSeen_key (seen : gset string) (l : list Props) (key : string) :
  List.filter (hasKey key) (filterSeen seen l) =
  if decide (key ∈ seen) then []
  else match List.find (hasKey key) l with
       | Some first => if named first then [first] else []
       | None => []
       end.
Proof.
  revert seen. induction l as [|props rest IH]; intros seen.
  - simpl. destruct (decide (key ∈ seen)); reflexivity.
  - cbn [filterSeen List.find].
    destruct (decide (idOf props ∈ seen)) as [Hseen|Hnew].
    + rewrite IH. destruct (decide (key ∈ seen)) as [|Hkey]; [reflexivity|].
      destruct (hasKey key props) eqn:E; [|reflexivity].
      apply hasKey_true in E. subst key. contradiction.
    + assert (Hin : forall k, k ∈ seen ∪ {[idOf props]} <-> k ∈ seen \/ k = idOf props)
        by set_solver.
      assert (Hrest : List.filter (hasKey key) (filterSeen (seen ∪ {[idOf props]}) rest) =
                      if hasKey key props then []
                      else if decide (key ∈ seen) then []
                      else match List.find (hasKey key) rest with
                           | Some first => if named first then [first] else []
                           | None => []
                           end).
      { rewrite IH. destruct (hasKey key props) eqn:E.
        - apply hasKey_true in E.
          destruct (decide (key ∈ seen ∪ {[idOf props]})) as [|Hout];
            [reflexivity | exfalso; apply Hout, Hin; right; congruence].
        - apply hasKey_false in E.
          destruct (decide (key ∈ seen ∪ {[idOf props]})) as [Hk|Hk],
                   (decide (key ∈ seen)) as [Hs|Hs]; try reflexivity.
          + apply Hin in Hk as [|]; [contradiction|congruence].
          + exfalso; apply Hk, Hin; left; exact Hs. }
      assert (Hkey : hasKey key props = true -> key ∉ seen)
        by (intros E; apply hasKey_true in E; congruence).
      assert (Hcons : forall l',
                 List.filter (hasKey key) (props :: l') =
                 if hasKey key props then props :: List.filter (hasKey key) l'
                 else List.filter (hasKey key) l') by reflexivity.
      destruct (hasKey key props).
      * destruct (decide (key ∈ seen)) as [Hs|];
          [exfalso; exact (Hkey eq_refl Hs)|].
        destruct (named props); rewrite ?Hcons, Hrest; reflexivity.
      * destruct (named props); rewrite ?Hcons, Hrest; reflexivity.
Qed.

(** C5, as amended. The roster is built from the entries the filter keeps,
    in the order of the input; of each identity key, name-phone, the
    filter keeps the first entry that carries it when that entry has a
    usable name, and no entry otherwise. *)
Theorem roster_keeps_first_named_per_key (personnelFeatures : list feature) :
  let entries := map propsOf personnelFeatures in
  let kept := filterSeen ∅ entries in
  processPersonnel personnelFeatures = map toOfficer kept
  /\ sublist kept entries
  /\ forall key,
       List.filter (hasKey key) kept =
       match List.find (hasKey key) entries with
       | Some first => if named first then [first] else []
       | None => []
       end.
Proof.
  intros entries kept. split; [reflexivity|].
  split; [apply filterSeen_sublist|].
  intros key. unfold kept. rewrite filterSeen_key.
  destruct (decide (key ∈ (∅ : gset string))) as [Hin|]; [|reflexivity].
  set_solver.
Qed.

Example roster_of_station_E01 :
  processPersonnel rosterE01
  = [{| name := "PT. JUAN PEREZ"; phone := "3001234567"; initials := "PT" |};
     {| name := "SI ANA GOMEZ"; phone := "S/N"; initials := "SI" |}].
Proof. vm_compute. reflexivity. Qed.

(** C5 as stated fails: of two entries that carry the same pair with the
    literal "null" for a name, none is returned. *)
Lemma duplicate_pair_counterexample :
  processPersonnel unnamedTwice = []
  /\ ~ (forall (personnelFeatures : list feature) (i j : nat) (a b : Props),
          (i < j)%nat ->
          map propsOf personnelFeatures !! i = Some a ->
          map propsOf personnelFeatures !! j = Some b ->
          empleadoOf a = empleadoOf b ->
          telefonoOf a = telefonoOf b ->
          exists kept first,
            processPersonnel personnelFeatures = map toOfficer kept
            /\ sublist kept (map propsOf personnelFeatures)
            /\ List.filter (hasKey (idOf a)) kept = [first]).
Proof.
  split; [vm_compute; reflexivity|].
  intros claim.
  destruct (claim unnamedTwice 0%nat 1%nat
              (mkProps (text "null") undefined (text "3001234567") undefined)
              (mkProps (text "null") undefined (text "3001234567") undefined))
    as (kept & first & Hout & _ & Hone); try reflexivity; [lia|].
  assert (Hlen : length (map toOfficer kept) = 0%nat)
    by (rewrite <- Hout; vm_compute; reflexivity).
  rewrite length_map in Hlen.
  destruct kept; [discriminate Hone | discriminate Hlen].
Qed.

End Roster.

(** ** The code grammar parsers *)

Section CharacterClasses.

Lemma digit_facts (c : ascii) :
  isDigit c = true ->
  isUpper c = false /\ isLower c = false /\ isSpace c = false.
Proof.
  unfold isDigit, isUpper, isLower, isSpace. intros H.
  apply andb_true_iff in H as [H1 H2]. apply Nat.leb_le in H1, H2.
  repeat split.
  - apply andb_false_iff. left. apply Nat.leb_gt. lia.
  - apply andb_false_iff. left. apply Nat.leb_gt. lia.
  - apply orb_false_iff. split.
    + apply andb_false_iff. right. apply Nat.leb_gt. lia.
    + apply Nat.eqb_neq. lia.
Qed.

Lemma upper_facts (c : ascii) :
  isUpper c = true ->
  isDigit c = false /\ isLower c = false /\ isSpace c = false.
Proof.
  unfold isDigit, isUpper, isLower, isSpace. intros H.
  apply andb_true_iff in H as [H1 H2]. apply Nat.leb_le in H1, H2.
  repeat split.
  - apply andb_false_iff. right. apply Nat.leb_gt. lia.
  - apply andb_false_iff. left. apply Nat.leb_gt. lia.
  - apply orb_false_iff. split.
    + apply andb_false_iff. right. apply Nat.leb_gt. lia.
    + apply Nat.eqb_neq. lia.
Qed.

(** Two characters that a class tells apart are different. *)
Lemma eqb_apart (p : ascii -> bool) (c l : ascii) :
  p c = true -> p l = false -> Ascii.eqb c l = false.
Proof.
  intros Hc Hl. apply Ascii.eqb_neq. intros ->. congruence.
Qed.

Lemma code_char_facts (c : ascii) :
  isUpper c || isDigit c = true -> isLower c = false /\ isSpace c = false.
Proof.
  intros H. apply orb_true_iff in H as [H|H].
  - destruct (upper_facts c H) as (_ & ? & ?); auto.
  - destruct (digit_facts c H) as (_ & ? & ?); auto.
Qed.

Lemma toUpperCase_code (s : string) : isCode s = true -> toUpperCase s = s.
Proof.
  induction s as [|c s IH]; simpl; [reflexivity|].
  intros H. apply andb_true_iff in H as [Hc Hs].
  destruct (code_char_facts c Hc) as [Hlow _].
  unfold upcase. rewrite Hlow, IH by exact Hs. reflexivity.
Qed.

Lemma trimEnd_code (s : string) : isCode s = true -> trimEnd s = s.
Proof.
  induction s as [|c s IH]; simpl; [reflexivity|].
  intros H. apply andb_true_iff in H as [Hc Hs].
  destruct (code_char_facts c Hc) as [_ Hsp].
  rewrite IH by exact Hs. destruct s; [rewrite Hsp|]; reflexivity.
Qed.

Lemma trimStart_code (s : string) : isCode s = true -> trimStart s = s.
Proof.
  destruct s as [|c s]; simpl; [reflexivity|].
  intros H. apply andb_true_iff in H as [Hc Hs].
  destruct (code_char_facts c Hc) as [_ Hsp]. rewrite Hsp. reflexivity.
Qed.

(** Normalisation leaves a string of upper-case letters and digits as it
    is. *)
Lemma normalized_code (s : string) :
  isCode s = true -> trim (toUpperCase s) = s.
Proof.
  intros H. unfold trim.
  rewrite toUpperCase_code, trimStart_code, trimEnd_code by exact H.
  reflexivity.
Qed.

End CharacterClasses.

(** Running the matcher on a subject whose shape is known and whose
    characters are known by their class only: the tests on literal
    characters are computed, the tests the hypotheses decide are
    rewritten, and a comparison of an unknown letter with a literal is
    split in two. *)

Ltac literal c := lazymatch c with Ascii _ _ _ _ _ _ _ _ => idtac end.

Ltac compute_test t :=
  let v := eval vm_compute in t in change t with v.

Ltac tests :=
  repeat match goal with
  | |- context [isDigit ?c] => literal c; compute_test (isDigit c)
  | |- context [isUpper ?c] => literal c; compute_test (isUpper c)
  | |- context [isSpace ?c] => literal c; compute_test (isSpace c)
  | |- context [isLower ?c] => literal c; compute_test (isLower c)
  | |- context [mem ?c ?s] => literal c; compute_test (mem c s)
  | H : isDigit ?c = _ |- context [isDigit ?c] => rewrite H
  | H : isUpper ?c = _ |- context [isUpper ?c] => rewrite H
  | H : isSpace ?c = _ |- context [isSpace ?c] => rewrite H
  | H : isLower ?c = _ |- context [isLower ?c] => rewrite H
  | H : Ascii.eqb ?c ?l = _ |- context [Ascii.eqb ?c ?l] => rewrite H
  | H : isDigit ?c = true |- context [Ascii.eqb ?c ?l] =>
      literal l; rewrite (eqb_apart isDigit c l H eq_refl)
  end.

Ltac stuck :=
  match goal with
  | |- context [Ascii.eqb ?c ?l] =>
      literal l;
      let E := fresh "E" in
      destruct (Ascii.eqb c l) eqn:E;
      [apply Ascii.eqb_eq in E; subst c|]
  end.

Ltac reduce := cbn; cbv beta iota zeta delta [String.append]; cbn.

Ltac run := repeat (reduce; tests); repeat (stuck; repeat (reduce; tests)).

Ltac facts :=
  repeat match goal with
  | H : isDigit ?c = true |- _ =>
      lazymatch goal with
      | _ : isUpper c = false |- _ => fail
      | _ => destruct (digit_facts c H) as (? & ? & ?)
      end
  | H : isUpper ?c = true |- _ =>
      lazymatch goal with
      | _ : isDigit c = false |- _ => fail
      | _ => destruct (upper_facts c H) as (? & ? & ?)
      end
  end.

(** Taking a segment apart into its characters. *)
Ltac segment H s :=
  cbv beta delta [BogotaSDSCJService.isStation BogotaSDSCJService.isSubunit
                  BogotaSDSCJService.isDistrict BogotaSDSCJService.isUnit
                  BogotaSDSCJService.isSerial] in H;
  destruct s as [|? [|? [|? [|? [|? [|? [|? ?]]]]]]]; try discriminate H.

Ltac conjuncts :=
  repeat match goal with
  | H : _ && _ = true |- _ => apply andb_true_iff in H; destruct H
  | H : _ || _ = true |- _ => apply orb_true_iff in H; destruct H
  | H : Ascii.eqb ?c ?l = true |- _ => apply Ascii.eqb_eq in H; subst c
  | H : mem _ _ = true |- _ => cbn [mem] in H
  | H : false = true |- _ => discriminate H
  end.

Ltac undecided :=
  match goal with
  | |- context [Ascii.eqb ?c ?l] =>
      literal l;
      let E := fresh "E" in
      destruct (Ascii.eqb c l) eqn:E;
      [apply Ascii.eqb_eq in E; subst c|]
  | |- context [isDigit ?c] =>
      let E := fresh "E" in destruct (isDigit c) eqn:E
  end.

Ltac explore :=
  repeat (reduce; tests); repeat (undecided; repeat (reduce; tests)).

(** Reading a property whose name is not known: one case for each name
    the object literal holds. *)
Ltac properties key :=
  repeat match goal with
  | |- context [String.eqb key ?l] =>
      let E := fresh "E" in
      destruct (String.eqb key l) eqn:E;
      [apply String.eqb_eq in E; subst key; vm_compute|]
  end.

Section Anchors.

(** A pattern that starts with [^] matches at the start of the subject or
    nowhere. *)
Lemma bol_later (r : regex) (pos : nat) (s : string) :
  match_from (Cat Bol r) (S pos) s = None.
Proof.
  revert pos. induction s as [|c s IH]; intros pos; simpl; [reflexivity|].
  apply IH.
Qed.

Lemma anchored_match (r : regex) (s : string) :
  regex_match s (Cat Bol r) = match_here (Cat Bol r) 0 s.
Proof.
  unfold regex_match. destruct s as [|c s]; simpl.
  - destruct (match_here _ _ _); reflexivity.
  - destruct (match_here _ _ _); [reflexivity|]. apply bol_later.
Qed.

End Anchors.

Section SIVICC.

Import BogotaSDSCJService.

Local Arguments Ascii.eqb : simpl nomatch.
Local Arguments isDigit : simpl nomatch.
Local Arguments isUpper : simpl nomatch.
Local Arguments isSpace : simpl nomatch.
Local Arguments isLower : simpl nomatch.
Local Arguments mem : simpl nomatch.

(** C4. A long-form code made of an optional unit, the optional model
    marker, an optional district, a station, a subunit and an optional
    serial parses, and the [estacionCAI] of the parse is the station
    followed by the subunit as they stand in the code. *)
Theorem estacionCAI_is_station_then_subunit
    (unit : option string) (model : bool) (district : option string)
    (station subunit : string) (serial : option string) :
  optionally isUnit unit = true ->
  optionally isDistrict district = true ->
  isStation station = true ->
  isSubunit subunit = true ->
  optionally isSerial serial = true ->
  exists parsed,
    parseSIVICCCode (longForm unit model district station subunit serial)
    = Some parsed
    /\ get "estacionCAI" parsed = Some (station +:+ subunit)
    /\ get "estacion" parsed = Some station
    /\ get "cai" parsed = Some subunit.
Proof.
  intros Hunit Hdistrict Hstation Hsubunit Hserial.
  segment Hstation station. segment Hsubunit subunit.
  destruct unit as [unit|]; [simpl in Hunit; segment Hunit unit|];
    (destruct district as [district|];
     [simpl in Hdistrict; segment Hdistrict district|]);
    (destruct serial as [serial|];
     [simpl in Hserial; segment Hserial serial|]);
    destruct model;
    conjuncts; facts;
    unfold parseSIVICCCode;
    rewrite normalized_code by (unfold longForm; run; reflexivity);
    unfold longForm; run;
    (eexists; split; [reflexivity|]; cbn; auto).
Qed.

(** What the short pattern of the SIVICC parser matches. *)
Lemma sivicc_short_shape (n : string) (ms : captures) :
  regex_match n shortRe = Some ms ->
  (exists a b, isDigit a = true /\ isDigit b = true
     /\ n = String "E" (String a (String b ""))
     /\ ms = [(0, n); (1, n)])
  \/ (exists a b c d, isDigit a = true /\ isDigit b = true
        /\ isDigit c = true /\ isDigit d = true
        /\ n = String "E" (String a (String b (String "C" (String c (String d "")))))
        /\ ms = [(0, n); (2, String "C" (String c (String d "")));
                 (1, String "E" (String a (String b "")))]).
Proof.
  change shortRe
    with (Cat Bol (seq [Group 1 (seq [Lit "E"; Rep 2 (Class Digit)]);
                        Opt (Group 2 (seq [Lit "C"; Rep 2 (Class Digit)]));
                        Eol])).
  rewrite anchored_match. unfold match_here.
  match goal with |- _ -> ?C => remember C as shape eqn:Hshape end.
  destruct n as [|c0 [|c1 [|c2 [|c3 [|c4 [|c5 [|c6 rest]]]]]]];
    explore; try discriminate.
  all: intros H; injection H as <-; subst shape.
  - left. exists c1, c2. repeat split; assumption.
  - right. exists c1, c2, c4, c5. repeat split; assumption.
Qed.

(** On a subject that both patterns of the SIVICC parser match, the two
    objects give the same value for every property. *)
Lemma sivicc_branches_agree (n : string) (ms ml : captures) :
  regex_match n shortRe = Some ms ->
  regex_match n longRe = Some ml ->
  forall key, get key (shortResult n ms) = get key (longResult ml).
Proof.
  intros Hs Hl.
  destruct (sivicc_short_shape n ms Hs)
    as [(a & b & Ha & Hb & -> & ->)
       |(a & b & c & d & Ha & Hb & Hc & Hd & -> & ->)];
    facts; revert Hl; unfold regex_match, longRe; run;
    intros Hlong; injection Hlong as <-; intros key;
    unfold shortResult, longResult; reduce; properties key; reflexivity.
Qed.

End SIVICC.

Section QuadrantCodes.

Import CaiService.

Local Arguments Ascii.eqb : simpl nomatch.
Local Arguments isDigit : simpl nomatch.
Local Arguments isUpper : simpl nomatch.
Local Arguments isSpace : simpl nomatch.
Local Arguments isLower : simpl nomatch.
Local Arguments mem : simpl nomatch.

(** What the short pattern of the WebMap parser matches. *)
Lemma quadrant_short_shape (n : string) (ms : captures) :
  regex_match n shortRe = Some ms ->
  exists a b c d, isDigit a = true /\ isDigit b = true
    /\ isDigit c = true /\ isDigit d = true
    /\ n = String "E" (String a (String b (String "-" (String c (String d ""))))).
Proof.
  change shortRe
    with (Cat Bol (seq [Group 1 (seq [Lit "E"; Rep 2 (Class Digit)]);
                        Lit "-";
                        Group 2 (Rep 2 (Class Digit));
                        Eol])).
  rewrite anchored_match. unfold match_here.
  match goal with |- _ -> ?C => remember C as shape eqn:Hshape end.
  destruct n as [|c0 [|c1 [|c2 [|c3 [|c4 [|c5 [|c6 rest]]]]]]];
    explore; try discriminate.
  intros _; subst shape.
  exists c1, c2, c4, c5. repeat split; assumption.
Qed.

(** No subject is matched by both patterns of the WebMap parser: the long
    one ends in six digits, the short one in a hyphen and two. *)
Lemma quadrant_patterns_disjoint (n : string) :
  regex_match n shortRe <> None -> regex_match n longRe = None.
Proof.
  destruct (regex_match n shortRe) as [ms|] eqn:Hs; [intros _|congruence].
  destruct (quadrant_short_shape n ms Hs)
    as (a & b & c & d & Ha & Hb & Hc & Hd & ->).
  facts. unfold regex_match, longRe. run. reflexivity.
Qed.

End QuadrantCodes.

(** The short code of the WebMap index and the long code of the official
    service name the same station. *)
Example both_forms_name_station_E01 :
  option_map CaiService.estacion (CaiService.parseQuadrantCode "E01-01")
  = Some "E01"
  /\ option_map CaiService.estacion
       (CaiService.parseQuadrantCode "MEBOGMNVCCC01E01C02000004")
     = Some "E01"
  /\ option_map (get "estacion")
       (BogotaSDSCJService.parseSIVICCCode "MEBOGMNVCCC01E01C02000004")
     = Some (Some "E01")
  /\ BogotaSDSCJService.parseSIVICCCode "sin codigo" = None.
Proof. repeat split; vm_compute; reflexivity. Qed.

(** C3. For every input the SIVICC parser reads as the cascade that tries
    the long pattern first, then the short one, then the scan for a bare
    station: both give [null], or objects holding the same value under
    every property. An input the long pattern matches is parsed according
    to it, whether or not the short pattern matches too, and the scan
    decides only when neither pattern matches. The WebMap parser returns
    what its long-first cascade returns, and the record of the long
    pattern on every input that pattern matches. *)
Theorem parsers_read_as_long_grammar_first (code : string) :
  let normalized := trim (toUpperCase code) in
  BogotaSDSCJService.reads_as
    (BogotaSDSCJService.parseSIVICCCode code)
    (BogotaSDSCJService.parseSIVICCCode_long_first code)
  /\ (forall longMatch,
        regex_match normalized BogotaSDSCJService.longRe = Some longMatch ->
        BogotaSDSCJService.reads_as
          (BogotaSDSCJService.parseSIVICCCode code)
          (Some (BogotaSDSCJService.longResult longMatch)))
  /\ (forall parsed,
        BogotaSDSCJService.parseSIVICCCode code = Some parsed ->
        get "estacionCAI" parsed = None ->
        regex_match normalized BogotaSDSCJService.longRe = None
        /\ regex_match normalized BogotaSDSCJService.shortRe = None)
  /\ CaiService.parseQuadrantCode code = CaiService.parseQuadrantCode_long_first code
  /\ (forall longMatch,
        regex_match normalized CaiService.longRe = Some longMatch ->
        CaiService.parseQuadrantCode code
        = Some (CaiService.longResult longMatch)).
Proof.
  intros normalized.
  pose proof (quadrant_patterns_disjoint normalized) as Hdisjoint.
  split; [|split; [|split; [|split]]].
  - unfold BogotaSDSCJService.parseSIVICCCode,
      BogotaSDSCJService.parseSIVICCCode_long_first.
    fold normalized.
    destruct (String.eqb code ""); [exact I|].
    destruct (regex_match normalized BogotaSDSCJService.shortRe) as [ms|] eqn:Hs;
      destruct (regex_match normalized BogotaSDSCJService.longRe) as [ml|] eqn:Hl.
    + exact (sivicc_branches_agree normalized ms ml Hs Hl).
    + intros key. reflexivity.
    + intros key. reflexivity.
    + destruct (regex_match normalized BogotaSDSCJService.estacionRe);
        [intros key; reflexivity|exact I].
  - intros longMatch Hl.
    unfold BogotaSDSCJService.parseSIVICCCode. fold normalized.
    destruct (String.eqb code "") eqn:Hempty.
    + apply String.eqb_eq in Hempty. subst code normalized.
      vm_compute in Hl. discriminate Hl.
    + rewrite Hl.
      destruct (regex_match normalized BogotaSDSCJService.shortRe) as [ms|] eqn:Hs.
      * exact (sivicc_branches_agree normalized ms longMatch Hs Hl).
      * intros key. reflexivity.
  - intros parsed. unfold BogotaSDSCJService.parseSIVICCCode. fold normalized.
    destruct (String.eqb code ""); [discriminate|].
    destruct (regex_match normalized BogotaSDSCJService.shortRe) as [ms|].
    { intros [= <-] Hkey. discriminate Hkey. }
    destruct (regex_match normalized BogotaSDSCJService.longRe) as [ml|].
    { intros [= <-] Hkey. discriminate Hkey. }
    intros _ _. split; reflexivity.
  - unfold CaiService.parseQuadrantCode, CaiService.parseQuadrantCode_long_first.
    fold normalized.
    destruct (regex_match normalized CaiService.shortRe) as [ms|];
      [rewrite Hdisjoint by discriminate|]; reflexivity.
  - intros longMatch Hl. unfold CaiService.parseQuadrantCode. fold normalized.
    destruct (regex_match normalized CaiService.shortRe) as [ms|].
    + rewrite Hdisjoint in Hl by discriminate. discriminate Hl.
    + rewrite Hl. reflexivity.
Qed.

(** E15C02 is matched by the long pattern and by the short one; what the
    parser returns holds the station, the subunit and their key as the
    long pattern captures them, and nothing under the other names. *)
Example both_grammars_match_E15C02 :
  regex_match "E15C02" BogotaSDSCJService.longRe
  = Some [(0%nat, "E15C02"); (5%nat, "C02"); (4%nat, "E15")]
  /\ regex_match "E15C02" BogotaSDSCJService.shortRe
     = Some [(0%nat, "E15C02"); (2%nat, "C02"); (1%nat, "E15")]
  /\ option_map
       (fun parsed =>
          map (fun key => get key parsed)
            ["unidad"; "modelo"; "distrito"; "estacion"; "cai"; "cuadrante";
             "estacionCAI"])
       (BogotaSDSCJService.parseSIVICCCode "E15C02")
     = option_map
         (fun parsed =>
            map (fun key => get key parsed)
              ["unidad"; "modelo"; "distrito"; "estacion"; "cai"; "cuadrante";
               "estacionCAI"])
         (BogotaSDSCJService.parseSIVICCCode_long_first "E15C02").
Proof. repeat split; vm_compute; reflexivity. Qed.

Lemma estacionCAI_is_station_then_subunit_witness :
  exists parsed,
    BogotaSDSCJService.parseSIVICCCode "MEBOGMNVCCC01E15C02000033" = Some parsed
    /\ get "estacionCAI" parsed = Some "E15C02"
    /\ get "estacion" parsed = Some "E15"
    /\ get "cai" parsed = Some "C02".
Proof.
  apply (estacionCAI_is_station_then_subunit
           (Some "MEBOG") true (Some "C01") "E15" "C02" (Some "000033"));
    reflexivity.
Defined.

(** ** The great-circle distance *)

Section GreatCircle.

Import Haversine.
Local Open Scope float_scope.

Context `{Math}.

(** C10. The point at latitude 8, longitude 0 and its antipode at latitude
    -8, longitude 180. The squared sine of half the difference of the
    latitudes and the product of the cosines are rounded separately, their
    sum is the double next above 1, and the square root of [1 - a] is
    [NaN]. With the sine and the cosine of 8 degrees and of a right angle
    rounded to the nearest double
    (sin 0.13962634015954636 = 0.13917310096006544,
    cos 0.13962634015954636 = 0.9902680687415704,
    sin 1.5707963267948966 = 1) and the arc tangent of a [NaN] being
    [NaN], [haversineDistance] is [NaN] in both directions: it is not
    non-negative and not equal to itself, and the three laws of a distance
    fail. *)
Theorem haversine_of_antipodes_is_not_a_number :
  sin 0x1.1df46a2529d39p-3 = 0x1.1d06c968d9e19p-3 ->
  sin (-0x1.1df46a2529d39p-3) = -0x1.1d06c968d9e19p-3 ->
  cos 0x1.1df46a2529d39p-3 = 0x1.fb046a930947ap-1 ->
  cos (-0x1.1df46a2529d39p-3) = 0x1.fb046a930947ap-1 ->
  sin 0x1.921fb54442d18p+0 = 1 ->
  sin (-0x1.921fb54442d18p+0) = -1 ->
  (forall y, atan2 y nan = nan) ->
  coordinates 8 0 = true
  /\ coordinates (-8) 180 = true
  /\ haversineDistance 8 0 (-8) 180 = nan
  /\ haversineDistance (-8) 180 8 0 = nan
  /\ (0 <=? haversineDistance 8 0 (-8) 180) = false
  /\ (haversineDistance 8 0 (-8) 180 =? haversineDistance (-8) 180 8 0) = false
  /\ ~ distance_laws.
Proof.
  intros Hsin Hsin' Hcos Hcos' Hright Hright' Hnan.
  assert (Hthere : haversineDistance 8 0 (-8) 180 = nan).
  { unfold haversineDistance. cbv zeta.
    change ((-8 - 8) * PI / 180 / 2) with (-0x1.1df46a2529d39p-3).
    change (8 * PI / 180) with 0x1.1df46a2529d39p-3.
    change (-8 * PI / 180) with (-0x1.1df46a2529d39p-3).
    change ((180 - 0) * PI / 180 / 2) with 0x1.921fb54442d18p+0.
    rewrite Hsin', Hcos, Hcos', Hright.
    change (sqrt (1 - _)) with nan.
    rewrite Hnan. reflexivity. }
  assert (Hback : haversineDistance (-8) 180 8 0 = nan).
  { unfold haversineDistance. cbv zeta.
    change ((8 - -8) * PI / 180 / 2) with 0x1.1df46a2529d39p-3.
    change (8 * PI / 180) with 0x1.1df46a2529d39p-3.
    change (-8 * PI / 180) with (-0x1.1df46a2529d39p-3).
    change ((0 - 180) * PI / 180 / 2) with (-0x1.921fb54442d18p+0).
    rewrite Hsin, Hcos, Hcos', Hright'.
    change (sqrt (1 - _)) with nan.
    rewrite Hnan. reflexivity. }
  split; [reflexivity|]. split; [reflexivity|].
  split; [exact Hthere|]. split; [exact Hback|].
  rewrite Hthere, Hback.
  split; [reflexivity|]. split; [reflexivity|].
  intros laws.
  destruct (laws 8 0 (-8) 180 eq_refl eq_refl) as (_ & Hnonneg & _).
  rewrite Hthere in Hnonneg. discriminate Hnonneg.
Qed.

End GreatCircle.

(** In the sampled environment the distance from the point to itself is
    zero and the distance to its antipode is no number. *)
Lemma haversine_of_antipodes_is_not_a_number_witness :
  @Haversine.haversineDistance Haversine.sampled 8 0 8 0 = 0%float
  /\ @Haversine.haversineDistance Haversine.sampled 8 0 (-8) 180 = nan
  /\ ~ @Haversine.distance_laws Haversine.sampled.
Proof.
  split; [reflexivity|].
  destruct (@haversine_of_antipodes_is_not_a_number Haversine.sampled)
    as (_ & _ & Hthere & _ & _ & _ & Hlaws);
    try reflexivity.
  - intros y. cbn [Haversine.atan2 Haversine.sampled].
    destruct (is_nan y); reflexivity.
  - split; [exact Hthere|exact Hlaws].
Defined.


(** * Further properties *)

(** ** The matcher and what a pattern matches *)

Section MatcherSoundness.

Lemma append_empty (s : string) : "" +:+ s = s.
Proof. reflexivity. Qed.

Lemma append_cons (c : ascii) (s t : string) :
  String c s +:+ t = String c (s +:+ t).
Proof. reflexivity. Qed.

Lemma append_nil_r (s : string) : s +:+ "" = s.
Proof.
  induction s as [|c s IH]; [reflexivity|]. rewrite append_cons, IH. reflexivity.
Qed.

Lemma append_assoc (a b c : string) : (a +:+ b) +:+ c = a +:+ (b +:+ c).
Proof.
  induction a as [|x a IH]; [reflexivity|]. rewrite !append_cons, IH. reflexivity.
Qed.

Lemma length_append (a b : string) :
  String.length (a +:+ b) = (String.length a + String.length b)%nat.
Proof.
  induction a as [|x a IH]; [reflexivity|]. rewrite append_cons. simpl.
  rewrite IH. reflexivity.
Qed.

Lemma substring_prefix (w s : string) :
  substring 0 (String.length w) (w +:+ s) = w.
Proof.
  induction w as [|c w IH].
  - rewrite append_empty. destruct s; reflexivity.
  - rewrite append_cons. simpl. rewrite IH. reflexivity.
Qed.

Lemma consumed_append (w s : string) : consumed (w +:+ s) s = w.
Proof.
  unfold consumed. rewrite length_append.
  replace (String.length w + String.length s - String.length s)%nat
    with (String.length w) by lia.
  apply substring_prefix.
Qed.

(** Whenever the matcher succeeds, it has handed to its continuation the
    rest of the subject after a word the pattern matches, with the groups
    bound so far kept, the groups of the pattern that take part in every
    match bound, and every new binding a word its group can hold. *)
Lemma exec_sound (r : regex) :
  forall (A : Type) (pos : nat) (s : string) (m : captures)
         (k : nat -> string -> captures -> option A) (x : A),
    exec r pos s m k = Some x ->
    exists w s' m',
      s = w +:+ s'
      /\ matches r w
      /\ k (pos + String.length w)%nat s' m' = Some x
      /\ (forall p, In p m -> In p m')
      /\ (forall i v, In (i, v) m' -> In (i, v) m \/ captured r i v)
      /\ (forall i, binds r i = true -> exists v, In (i, v) m').
Proof.
  induction r as [| |c|cl|r1 IH1 r2 IH2|r1 IH1 r2 IH2|r1 IH1|n r1 IH1|j r1 IH1];
    intros A pos s m k x H.
  - simpl in H. destruct (pos =? 0)%nat; [|discriminate].
    exists "", s, m. rewrite Nat.add_0_r. simpl.
    repeat split; auto. discriminate.
  - simpl in H. destruct s; [|discriminate].
    exists "", "", m. rewrite Nat.add_0_r. simpl.
    repeat split; auto. discriminate.
  - simpl in H. destruct s as [|a s]; [discriminate|].
    destruct (Ascii.eqb a c) eqn:E; [|discriminate].
    apply Ascii.eqb_eq in E. subst a.
    exists (String c ""), s, m. rewrite Nat.add_1_r. simpl.
    repeat split; auto. discriminate.
  - simpl in H. destruct s as [|a s]; [discriminate|].
    destruct (in_class cl a) eqn:E; [|discriminate].
    exists (String a ""), s, m. rewrite Nat.add_1_r. simpl.
    repeat split; eauto. discriminate.
  - simpl in H.
    apply IH1 in H as (w1 & s1 & m1 & -> & Hw1 & H & Hk1 & Hc1 & Hb1).
    apply IH2 in H as (w2 & s2 & m2 & -> & Hw2 & H & Hk2 & Hc2 & Hb2).
    exists (w1 +:+ w2), s2, m2.
    rewrite length_append, Nat.add_assoc, append_assoc. simpl.
    repeat split; eauto.
    + intros i v Hin. destruct (Hc2 i v Hin) as [Hin1|]; [|auto].
      destruct (Hc1 i v Hin1); auto.
    + intros i Hi. apply orb_true_iff in Hi as [Hi|Hi].
      * destruct (Hb1 i Hi) as [v Hv]. eauto.
      * apply Hb2, Hi.
  - simpl in H. destruct (exec r1 pos s m k) as [y|] eqn:E.
    + injection H as ->.
      apply IH1 in E as (w & s' & m' & -> & Hw & H & Hk & Hc & Hb).
      exists w, s', m'. simpl. repeat split; auto.
      * intros i v Hin. destruct (Hc i v Hin); auto.
      * intros i Hi. apply andb_true_iff in Hi as [Hi _]. auto.
    + apply IH2 in H as (w & s' & m' & -> & Hw & H & Hk & Hc & Hb).
      exists w, s', m'. simpl. repeat split; auto.
      * intros i v Hin. destruct (Hc i v Hin); auto.
      * intros i Hi. apply andb_true_iff in Hi as [_ Hi]. auto.
  - simpl in H. destruct (exec r1 pos s m k) as [y|] eqn:E.
    + injection H as ->.
      apply IH1 in E as (w & s' & m' & -> & Hw & H & Hk & Hc & Hb).
      exists w, s', m'. simpl. repeat split; auto. discriminate.
    + exists "", s, m. rewrite Nat.add_0_r. simpl.
      repeat split; auto. discriminate.
  - revert pos s m H. induction n as [|n IHn]; intros pos s m H.
    + simpl in H. exists "", s, m. rewrite Nat.add_0_r. simpl.
      repeat split; auto. discriminate.
    + change (exec r1 pos s m
                (fun pos' s' m' => exec (Rep n r1) pos' s' m' k) = Some x) in H.
      apply IH1 in H as (w1 & s1 & m1 & -> & Hw1 & H & Hk1 & Hc1 & Hb1).
      apply IHn in H as (w2 & s2 & m2 & -> & Hw2 & H & Hk2 & Hc2 & Hb2).
      exists (w1 +:+ w2), s2, m2.
      rewrite length_append, Nat.add_assoc, append_assoc.
      split; [reflexivity|].
      split; [simpl; exists w1, w2; auto|].
      split; [exact H|].
      split; [auto|].
      split.
      * intros i v Hin. destruct (Hc2 i v Hin) as [Hin1|]; [|auto].
        destruct (Hc1 i v Hin1); auto.
      * simpl. intros i Hi. destruct (Hb1 i Hi) as [v Hv]. eauto.
  - simpl in H.
    apply IH1 in H as (w & s' & m' & -> & Hw & H & Hk & Hc & Hb).
    rewrite consumed_append in H.
    exists w, s', ((j, w) :: m'). simpl.
    repeat split; auto.
    + intros i v [E|Hin].
      * injection E as <- <-. auto.
      * destruct (Hc i v Hin); auto.
    + intros i Hi. apply orb_true_iff in Hi as [Hi|Hi].
      * apply Nat.eqb_eq in Hi. subst i. eauto.
      * destruct (Hb i Hi) as [v Hv]. eauto.
Qed.

Lemma capture_In (i : nat) (m : captures) (v : string) :
  capture i m = Some v -> In (i, v) m.
Proof.
  induction m as [|[j w] m IH]; simpl; [discriminate|].
  destruct (i =? j)%nat eqn:E.
  - intros H; injection H as ->. apply Nat.eqb_eq in E. subst j. auto.
  - auto.
Qed.

Lemma In_capture (i : nat) (m : captures) (v : string) :
  In (i, v) m -> exists v', capture i m = Some v'.
Proof.
  induction m as [|[j w] m IH]; simpl; [intros []|].
  intros [E|Hin].
  - injection E as -> ->. rewrite Nat.eqb_refl. eauto.
  - destruct (i =? j)%nat; eauto.
Qed.

Lemma match_here_sound (r : regex) (pos : nat) (s : string) (m : captures) :
  match_here r pos s = Some m ->
  exists w t,
    s = w +:+ t /\ matches r w /\ capture 0 m = Some w
    /\ (forall i v, (0 < i)%nat -> capture i m = Some v -> captured r i v)
    /\ (forall i, (0 < i)%nat -> binds r i = true -> exists v, capture i m = Some v).
Proof.
  unfold match_here. intros E.
  apply exec_sound in E as (w & t & m' & -> & Hw & H & Hk & Hc & Hb).
  rewrite consumed_append in H. injection H as <-.
  exists w, t. repeat split; auto.
  - intros i v Hi Hcap. apply capture_In in Hcap as [E|Hin].
    + injection E as <- _. lia.
    + destruct (Hc i v Hin) as [[]|]; auto.
  - intros i Hi Hbi. destruct (Hb i Hbi) as [v Hv].
    simpl. destruct (i =? 0)%nat eqn:E0; [apply Nat.eqb_eq in E0; lia|].
    eapply In_capture; eauto.
Qed.

Lemma match_from_sound (r : regex) (s : string) :
  forall (pos : nat) (m : captures),
    match_from r pos s = Some m ->
    (exists u w t, s = u +:+ w +:+ t /\ matches r w /\ capture 0 m = Some w)
    /\ (forall i v, (0 < i)%nat -> capture i m = Some v -> captured r i v)
    /\ (forall i, (0 < i)%nat -> binds r i = true -> exists v, capture i m = Some v).
Proof.
  assert (Hhere : forall pos s0 m, match_here r pos s0 = Some m ->
    (exists u w t, s0 = u +:+ w +:+ t /\ matches r w /\ capture 0 m = Some w)
    /\ (forall i v, (0 < i)%nat -> capture i m = Some v -> captured r i v)
    /\ (forall i, (0 < i)%nat -> binds r i = true -> exists v, capture i m = Some v)).
  { intros pos s0 m E.
    apply match_here_sound in E as (w & t & -> & Hw & H0 & Hc & Hb).
    split; [|split]; auto. exists "", w, t. auto. }
  induction s as [|c s IH]; intros pos m H; simpl in H.
  - destruct (match_here r pos "") as [m0|] eqn:E; [|discriminate].
    injection H as ->. eapply Hhere; eauto.
  - destruct (match_here r pos (String c s)) as [m0|] eqn:E.
    + injection H as ->. eapply Hhere; eauto.
    + apply IH in H as ((u & w & t & -> & Hw & Hcap) & Hc & Hb).
      split; [|split]; auto.
      exists (String c u), w, t. auto.
Qed.

(** A match found somewhere in the subject: the subject is a prefix, the
    matched word and a rest; a group read from the match holds a word of
    that group, and a group that takes part in every match is bound. *)
Lemma regex_match_sound (r : regex) (s : string) (m : captures) :
  regex_match s r = Some m ->
  (exists u w t, s = u +:+ w +:+ t /\ matches r w /\ capture 0 m = Some w)
  /\ (forall i v, (0 < i)%nat -> capture i m = Some v -> captured r i v)
  /\ (forall i, (0 < i)%nat -> binds r i = true -> exists v, capture i m = Some v).
Proof. apply match_from_sound. Qed.

End MatcherSoundness.

(** ** The segments a parse can hold *)

Ltac take_apart :=
  repeat match goal with
  | H : exists _, _ |- _ => destruct H as [? H]
  | H : _ /\ _ |- _ => destruct H
  | H : _ \/ _ |- _ => destruct H
  | H : False |- _ => destruct H
  end.

Ltac word H :=
  cbn [matches seq lit] in H; take_apart; subst;
  cbv beta iota zeta delta [String.append].

Section Segments.

Import BogotaSDSCJService.

Lemma station_word (v : string) :
  matches (seq [Lit "E"; Rep 2 (Class Digit)]) v -> isStation v = true.
Proof.
  intros H. word H. cbn in *.
  repeat match goal with E : _ = true |- _ => rewrite E; clear E end.
  reflexivity.
Qed.

Lemma subunit_word (v : string) :
  matches (Alt (seq [Lit "C"; Rep 2 (Class Digit)])
               (seq [Lit "S"; Rep 2 (Class Digit)])) v ->
  isSubunit v = true.
Proof.
  intros H. word H; cbn in *;
    repeat match goal with E : _ = true |- _ => rewrite E; clear E end;
    reflexivity.
Qed.

Lemma post_word (v : string) :
  matches (seq [Lit "C"; Rep 2 (Class Digit)]) v -> isSubunit v = true.
Proof.
  intros H. apply subunit_word. left. exact H.
Qed.

Lemma district_word (v : string) :
  matches (seq [Class (OneOf "CDS"); Rep 2 (Class Digit)]) v ->
  isDistrict v = true.
Proof.
  intros H. word H. cbn in *.
  repeat match goal with E : _ = true |- _ => rewrite E; clear E end.
  reflexivity.
Qed.

Lemma unit_word (v : string) :
  matches (Rep 5 (Class UpperAZ)) v -> isUnit v = true.
Proof.
  intros H. word H. cbn in *.
  repeat match goal with E : _ = true |- _ => rewrite E; clear E end.
  reflexivity.
Qed.

Lemma serial_word (v : string) :
  matches (Rep 6 (Class Digit)) v -> isSerial v = true.
Proof.
  intros H. word H. cbn in *.
  repeat match goal with E : _ = true |- _ => rewrite E; clear E end.
  reflexivity.
Qed.

Lemma model_word (v : string) : matches (lit "MNVCC") v -> v = "MNVCC".
Proof. intros H. word H. reflexivity. Qed.

End Segments.

Section WellFormedParses.

Lemma sivicc_long_groups (i : nat) (v : string) :
  captured BogotaSDSCJService.longRe i v ->
  (i = 1%nat /\ BogotaSDSCJService.isUnit v = true)
  \/ (i = 2%nat /\ v = "MNVCC")
  \/ (i = 3%nat /\ BogotaSDSCJService.isDistrict v = true)
  \/ (i = 4%nat /\ BogotaSDSCJService.isStation v = true)
  \/ (i = 5%nat /\ BogotaSDSCJService.isSubunit v = true)
  \/ (i = 6%nat /\ BogotaSDSCJService.isSerial v = true).
Proof.
  intros H. cbn [captured BogotaSDSCJService.longRe seq lit] in H.
  take_apart.
  - left. split; [assumption|]. apply unit_word; assumption.
  - right; left. split; [assumption|]. apply model_word; assumption.
  - right; right; left. split; [assumption|]. apply district_word; assumption.
  - right; right; right; left. split; [assumption|]. apply station_word; assumption.
  - do 4 right; left. split; [assumption|]. apply subunit_word; assumption.
  - do 5 right. split; [assumption|]. apply serial_word; assumption.
Qed.

(** X1. Whatever the input, a parse that [parseSIVICCCode] returns holds a
    station of the form E and two digits, and every other property it
    holds has the form of its segment: a unit of five capital letters, the
    marker MNVCC, a district of C, D or S and two digits, a subunit of C
    or S and two digits, a serial of six digits; the combined key, when
    present, is the station followed by the subunit if there is one. *)
Theorem sivicc_parse_is_well_formed (code : string) (parsed : object) :
  BogotaSDSCJService.parseSIVICCCode code = Some parsed ->
  (exists station,
      get "estacion" parsed = Some station
      /\ BogotaSDSCJService.isStation station = true
      /\ forall key, get "estacionCAI" parsed = Some key ->
           key = station +:+ default "" (get "cai" parsed))
  /\ (forall v, get "unidad" parsed = Some v -> BogotaSDSCJService.isUnit v = true)
  /\ (forall v, get "modelo" parsed = Some v -> v = "MNVCC")
  /\ (forall v, get "distrito" parsed = Some v ->
        BogotaSDSCJService.isDistrict v = true)
  /\ (forall v, get "cai" parsed = Some v -> BogotaSDSCJService.isSubunit v = true)
  /\ (forall v, get "cuadrante" parsed = Some v ->
        BogotaSDSCJService.isSerial v = true).
Proof.
  unfold BogotaSDSCJService.parseSIVICCCode.
  destruct (String.eqb code ""); [discriminate|].
  set (normalized := trim (toUpperCase code)).
  destruct (regex_match normalized BogotaSDSCJService.shortRe) as [ms|] eqn:Es.
  { intros H; injection H as <-.
    destruct (sivicc_short_shape normalized ms Es)
      as [(a & b & Ha & Hb & -> & ->)
         |(a & b & c & d & Ha & Hb & Hc & Hd & -> & ->)];
      unfold BogotaSDSCJService.shortResult; cbn;
      (split; [eexists; split; [reflexivity|]; split;
               [cbn; rewrite ?Ha, ?Hb; reflexivity
               |intros key E; injection E as <-; reflexivity]|]);
      repeat split; intros v E; try discriminate E; injection E as <-;
      cbn; rewrite ?Hc, ?Hd; reflexivity. }
  destruct (regex_match normalized BogotaSDSCJService.longRe) as [ml|] eqn:El.
  { intros H; injection H as <-.
    destruct (regex_match_sound _ _ _ El) as (_ & Hcap & Hbind).
    assert (Hgroup : forall i v, (0 < i)%nat -> capture i ml = Some v ->
                                 captured BogotaSDSCJService.longRe i v) by exact Hcap.
    destruct (Hbind 4%nat ltac:(lia) eq_refl) as [station Hst].
    unfold BogotaSDSCJService.longResult. cbn [get String.eqb Ascii.eqb Bool.eqb].
    rewrite Hst.
    split.
    { exists station. split; [reflexivity|]. split.
      - destruct (sivicc_long_groups _ _ (Hgroup 4%nat station ltac:(lia) Hst))
          as [[E _]|[[E _]|[[E _]|[[_ H]|[[E _]|[E _]]]]]];
          try discriminate E; exact H.
      - intros key E. injection E as <-.
        cbn [BogotaSDSCJService.str].
        destruct (capture 5 ml) as [sub|] eqn:E5; [|reflexivity].
        destruct (sivicc_long_groups _ _ (Hgroup 5%nat sub ltac:(lia) E5))
          as [[E _]|[[E _]|[[E _]|[[E _]|[[_ H]|[E _]]]]]];
          try discriminate E.
        destruct sub as [|c sub]; [discriminate H|]. reflexivity. }
    repeat split; intros v E.
    - destruct (sivicc_long_groups _ _ (Hgroup 1%nat v ltac:(lia) E))
        as [[_ H]|[[E' _]|[[E' _]|[[E' _]|[[E' _]|[E' _]]]]]];
        try discriminate E'; exact H.
    - destruct (sivicc_long_groups _ _ (Hgroup 2%nat v ltac:(lia) E))
        as [[E' _]|[[_ H]|[[E' _]|[[E' _]|[[E' _]|[E' _]]]]]];
        try discriminate E'; exact H.
    - destruct (sivicc_long_groups _ _ (Hgroup 3%nat v ltac:(lia) E))
        as [[E' _]|[[E' _]|[[_ H]|[[E' _]|[[E' _]|[E' _]]]]]];
        try discriminate E'; exact H.
    - destruct (sivicc_long_groups _ _ (Hgroup 5%nat v ltac:(lia) E))
        as [[E' _]|[[E' _]|[[E' _]|[[E' _]|[[_ H]|[E' _]]]]]];
        try discriminate E'; exact H.
    - destruct (sivicc_long_groups _ _ (Hgroup 6%nat v ltac:(lia) E))
        as [[E' _]|[[E' _]|[[E' _]|[[E' _]|[[E' _]|[_ H]]]]]];
        try discriminate E'; exact H. }
  destruct (regex_match normalized BogotaSDSCJService.estacionRe) as [me|] eqn:Ee;
    [|discriminate].
  intros H; injection H as <-.
  destruct (regex_match_sound _ _ _ Ee) as (_ & Hcap & Hbind).
  destruct (Hbind 1%nat ltac:(lia) eq_refl) as [station Hst].
  unfold BogotaSDSCJService.estacionResult. cbn [get String.eqb Ascii.eqb Bool.eqb].
  rewrite Hst.
  split.
  { exists station. split; [reflexivity|]. split; [|discriminate].
    specialize (Hcap 1%nat station ltac:(lia) Hst).
    cbn [captured BogotaSDSCJService.estacionRe seq] in Hcap.
    destruct Hcap as [[_ H]|[[]|[]]]. apply station_word; exact H. }
  repeat split; discriminate.
Qed.

End WellFormedParses.

Lemma sivicc_parse_is_well_formed_witness :
  exists station,
    get "estacion" [("estacion", Some "E07")] = Some station
    /\ BogotaSDSCJService.isStation station = true.
Proof.
  destruct (sivicc_parse_is_well_formed "cuadrante e07 (sin serial)"
              [("estacion", Some "E07")] eq_refl)
    as ((station & Hget & Hst & _) & _).
  exists station. split; assumption.
Defined.

Section Numerals.

Import CaiService.

Lemma stripLeadingZeros_cons (c : ascii) (s : string) :
  stripLeadingZeros (String c s) =
  if Ascii.eqb c "0" then stripLeadingZeros s else String c s.
Proof.
  destruct c as [[] [] [] [] [] [] [] []]; reflexivity.
Qed.

Lemma stripLeadingZeros_numeral (s : string) :
  isNumeral s = true -> isNumeral (stripLeadingZeros s) = true.
Proof.
  induction s as [|c s IH]; [reflexivity|].
  intros H. rewrite stripLeadingZeros_cons.
  destruct (Ascii.eqb c "0"); [|exact H].
  simpl in H. apply andb_true_iff in H as [_ H]. auto.
Qed.

Lemma stripLeadingZeros_length (s : string) :
  (String.length (stripLeadingZeros s) <= String.length s)%nat.
Proof.
  induction s as [|c s IH]; [reflexivity|].
  rewrite stripLeadingZeros_cons. destruct (Ascii.eqb c "0"); simpl; lia.
Qed.

(** Reading a numeral does not depend on the zeros in front of it. *)
Lemma parseDigits_zero (s : string) (acc : option Z) :
  default 0%Z acc = 0%Z ->
  parseDigits (String "0" s) acc = parseDigits s (Some 0%Z).
Proof. intros H. simpl. rewrite H. reflexivity. Qed.

Lemma parseDigits_from_zero (s : string) :
  isNumeral s = true -> s <> "" ->
  parseDigits s (Some 0%Z) = parseDigits s None.
Proof.
  destruct s as [|c s]; [congruence|]. simpl. intros H _.
  apply andb_true_iff in H as [Hc _]. rewrite Hc. reflexivity.
Qed.

Lemma parseDigits_strip (s : string) :
  parseDigits s (Some 0%Z) = parseDigits (stripLeadingZeros s) (Some 0%Z).
Proof.
  induction s as [|c s IH]; [reflexivity|].
  rewrite stripLeadingZeros_cons.
  destruct (Ascii.eqb c "0") eqn:E; [|reflexivity].
  apply Ascii.eqb_eq in E. subst c. rewrite <- IH. reflexivity.
Qed.

Lemma parseDigits_pad (n : nat) (s : string) :
  parseDigits (repeatChar n "0" +:+ s) (Some 0%Z) = parseDigits s (Some 0%Z).
Proof.
  induction n as [|n IH]; [reflexivity|].
  simpl repeatChar. rewrite append_cons. rewrite <- IH. reflexivity.
Qed.

Lemma parseInt_numeral (s : string) :
  isNumeral s = true -> s <> "" ->
  parseInt s = match parseDigits s (Some 0%Z) with
               | Some n => Finite (inject_Z n)
               | None => NaN
               end.
Proof.
  intros H Hne. destruct s as [|c s]; [congruence|].
  simpl in H. apply andb_true_iff in H as [Hc Hs].
  destruct (digit_facts c Hc) as (_ & _ & Hsp).
  unfold parseInt. simpl trimStart. rewrite Hsp.
  assert (Hminus : Ascii.eqb c "-" = false) by (apply (eqb_apart isDigit); auto).
  assert (Hplus : Ascii.eqb c "+" = false) by (apply (eqb_apart isDigit); auto).
  assert (E : (let '(sign, digits) :=
                 match String c s with
                 | String "-" s' => ((-1)%Z, s')
                 | String "+" s' => (1%Z, s')
                 | _ => (1%Z, String c s)
                 end in
               match parseDigits digits None with
               | Some n => Finite (inject_Z (sign * n))
               | None => NaN
               end) =
              match parseDigits (String c s) None with
              | Some n => Finite (inject_Z (1 * n))
              | None => NaN
              end).
  { destruct c as [[] [] [] [] [] [] [] []]; try reflexivity; discriminate. }
  rewrite E. rewrite <- parseDigits_from_zero;
    [|simpl; rewrite Hc, Hs; reflexivity|discriminate].
  destruct (parseDigits (String c s) (Some 0%Z)) as [n|]; [|reflexivity].
  rewrite Z.mul_1_l. reflexivity.
Qed.

Lemma isNumeral_append (a b : string) :
  isNumeral a = true -> isNumeral b = true -> isNumeral (a +:+ b) = true.
Proof.
  induction a as [|c a IH]; [auto|].
  intros H Hb. simpl in H. apply andb_true_iff in H as [Hc Ha].
  rewrite append_cons. simpl. rewrite Hc. auto.
Qed.

Lemma isNumeral_zeros (n : nat) : isNumeral (repeatChar n "0") = true.
Proof. induction n as [|n IH]; [reflexivity|]. simpl. exact IH. Qed.

(** The [numero] the long branch derives from a six-digit serial: a
    numeral of two characters at least that reads as the same integer. *)
Lemma numero_of_serial (serial : string) :
  BogotaSDSCJService.isSerial serial = true ->
  let stripped := stripLeadingZeros serial in
  let numero := padStart (if String.eqb stripped "" then "0" else stripped) 2 "0" in
  isNumeral numero = true
  /\ (2 <= String.length numero)%nat
  /\ parseInt numero = parseInt serial.
Proof.
  intros Hserial stripped numero.
  assert (Hnum : isNumeral serial = true).
  { unfold BogotaSDSCJService.isSerial in Hserial.
    destruct serial as [|a [|b [|c [|d [|e [|f [|? ?]]]]]]]; try discriminate.
    do 5 (apply andb_true_iff in Hserial as [Hserial ?]).
    simpl.
    repeat match goal with E : isDigit _ = true |- _ => rewrite E; clear E end.
    reflexivity. }
  assert (Hne : serial <> "").
  { intros ->. discriminate Hserial. }
  set (core := if String.eqb stripped "" then "0" else stripped) in *.
  assert (Hcore : isNumeral core = true /\ core <> ""
                  /\ parseDigits core (Some 0%Z) = parseDigits serial (Some 0%Z)).
  { subst core. destruct (String.eqb stripped "") eqn:E.
    - apply String.eqb_eq in E. split; [reflexivity|]. split; [discriminate|].
      rewrite (parseDigits_strip serial). fold stripped. rewrite E.
      reflexivity.
    - apply String.eqb_neq in E. split; [apply stripLeadingZeros_numeral, Hnum|].
      split; [exact E|]. symmetry. apply parseDigits_strip. }
  destruct Hcore as (Hcn & Hcne & Hcv).
  subst numero. unfold padStart.
  split; [apply isNumeral_append; [apply isNumeral_zeros | exact Hcn]|].
  split.
  - rewrite length_append.
    assert (Hlen : forall n, String.length (repeatChar n "0") = n)
      by (induction n as [|n IH]; simpl; congruence).
    rewrite Hlen. lia.
  - rewrite (parseInt_numeral serial Hnum Hne).
    rewrite parseInt_numeral.
    + rewrite parseDigits_pad, Hcv. reflexivity.
    + apply isNumeral_append; [apply isNumeral_zeros | exact Hcn].
    + destruct core as [|c core]; [congruence|].
      destruct (2 - String.length (String c core))%nat; discriminate.
Qed.

End Numerals.

Section WellFormedQuadrantCodes.

Import CaiService.

Lemma two_digit_word (v : string) :
  matches (Rep 2 (Class Digit)) v ->
  isNumeral v = true /\ String.length v = 2%nat.
Proof.
  intros H. word H. cbn in *.
  repeat match goal with E : _ = true |- _ => rewrite E; clear E end.
  auto.
Qed.

(** X2. Whatever the input, a parse that [parseQuadrantCode] returns holds
    a station of the form E and two digits; its subunit, when present, is
    C and two digits; its number is empty only when the parse comes from
    the last-resort scan, and is otherwise a numeral of two characters at
    least, which for a long code reads as the same integer as the
    six-digit serial. *)
Theorem quadrant_parse_is_well_formed (code : string) (parsed : QuadrantCode) :
  parseQuadrantCode code = Some parsed ->
  let normalized := trim (toUpperCase code) in
  BogotaSDSCJService.isStation (estacion parsed) = true
  /\ (forall c, cai parsed = Some c ->
        BogotaSDSCJService.isSubunit c = true /\ startsWith c "C" = true)
  /\ (numero parsed = ""
      <-> regex_match normalized shortRe = None
          /\ regex_match normalized longRe = None)
  /\ (numero parsed <> "" ->
      isNumeral (numero parsed) = true
      /\ (2 <= String.length (numero parsed))%nat)
  /\ (forall longMatch,
        regex_match normalized shortRe = None ->
        regex_match normalized longRe = Some longMatch ->
        exists serial,
          capture 3 longMatch = Some serial
          /\ BogotaSDSCJService.isSerial serial = true
          /\ parseInt (numero parsed) = parseInt serial).
Proof.
  unfold parseQuadrantCode. intros H. cbv zeta in *.
  set (normalized := trim (toUpperCase code)) in *.
  destruct (regex_match normalized shortRe) as [ms|] eqn:Es.
  { injection H as <-.
    destruct (regex_match_sound _ _ _ Es) as (_ & Hcap & Hbind).
    destruct (Hbind 1%nat ltac:(lia) eq_refl) as [station Hst].
    destruct (Hbind 2%nat ltac:(lia) eq_refl) as [number Hnum].
    unfold shortResult, group. rewrite Hst, Hnum. cbn [estacion numero cai].
    assert (Hstation : BogotaSDSCJService.isStation station = true).
    { specialize (Hcap 1%nat station ltac:(lia) Hst).
      cbn [captured shortRe seq] in Hcap. take_apart; try discriminate.
      apply station_word; assumption. }
    assert (Hnumber : isNumeral number = true /\ String.length number = 2%nat).
    { specialize (Hcap 2%nat number ltac:(lia) Hnum).
      cbn [captured shortRe seq] in Hcap. take_apart; try discriminate.
      apply two_digit_word; assumption. }
    destruct Hnumber as [Hn Hl].
    split; [exact Hstation|]. split; [discriminate|].
    split; [split; [intros ->; discriminate Hl | intros [E _]; discriminate E]|].
    split; [intros _; split; [exact Hn | lia]|].
    intros ml E. discriminate E. }
  destruct (regex_match normalized longRe) as [ml|] eqn:El.
  { injection H as <-.
    destruct (regex_match_sound _ _ _ El) as (_ & Hcap & Hbind).
    destruct (Hbind 1%nat ltac:(lia) eq_refl) as [station Hst].
    destruct (Hbind 3%nat ltac:(lia) eq_refl) as [serial Hser].
    assert (Hstation : BogotaSDSCJService.isStation station = true).
    { specialize (Hcap 1%nat station ltac:(lia) Hst).
      cbn [captured longRe seq] in Hcap. take_apart; try discriminate.
      apply station_word; assumption. }
    assert (Hserial : BogotaSDSCJService.isSerial serial = true).
    { specialize (Hcap 3%nat serial ltac:(lia) Hser).
      cbn [captured longRe seq] in Hcap. take_apart; try discriminate.
      apply serial_word; assumption. }
    destruct (numero_of_serial serial Hserial) as (Hn & Hl & Hv).
    unfold longResult, group. rewrite Hst, Hser. cbn [estacion numero cai].
    split; [exact Hstation|].
    split.
    { intros c Hc. specialize (Hcap 2%nat c ltac:(lia) Hc).
      cbn [captured longRe seq] in Hcap. take_apart; try discriminate.
      split; [apply post_word; assumption|].
      match goal with Hw : matches _ c |- _ => word Hw end. reflexivity. }
    split.
    { split; [|intros [_ E]; discriminate E].
      intros E. rewrite E in Hl. simpl in Hl. lia. }
    split; [intros _; split; assumption|].
    intros ml' _ E. injection E as <-. exists serial. auto. }
  destruct (regex_match normalized estacionRe) as [me|] eqn:Ee; [|discriminate].
  injection H as <-.
  destruct (regex_match_sound _ _ _ Ee) as (_ & Hcap & Hbind).
  destruct (Hbind 1%nat ltac:(lia) eq_refl) as [station Hst].
  unfold estacionResult, group. rewrite Hst. cbn [estacion numero cai].
  split.
  { specialize (Hcap 1%nat station ltac:(lia) Hst).
    cbn [captured estacionRe seq] in Hcap. take_apart; try discriminate.
    apply station_word; assumption. }
  split; [discriminate|].
  split; [split; auto|].
  split; [congruence|].
  intros ml _ E. discriminate E.
Qed.

End WellFormedQuadrantCodes.

Lemma quadrant_parse_is_well_formed_witness :
  BogotaSDSCJService.isStation "E01" = true
  /\ parseInt "04" = parseInt "000004".
Proof.
  destruct (quadrant_parse_is_well_formed "mebogmnvccc01e01c02000004"
              (CaiService.mkQuadrantCode "E01" "04" (Some "C02")) eq_refl)
    as (Hst & _ & _ & _ & Hlong).
  split; [exact Hst|].
  destruct (Hlong [(0%nat, "E01C02000004"); (3%nat, "000004"); (2%nat, "C02");
                   (1%nat, "E01")] eq_refl eq_refl)
    as (serial & Hs & _ & Hv).
  injection Hs as <-. exact Hv.
Defined.

(** ** Normalisation *)

Section Normalisation.

Lemma upcase_facts (c : ascii) :
  isLower (upcase c) = false /\ isSpace (upcase c) = isSpace c.
Proof.
  unfold upcase. destruct (isLower c) eqn:E; [|auto].
  unfold isLower, isSpace, code in *.
  apply andb_true_iff in E as [E1 E2]. apply Nat.leb_le in E1, E2.
  rewrite nat_ascii_embedding by lia.
  split.
  - apply andb_false_iff. left. apply Nat.leb_gt. lia.
  - replace (nat_of_ascii c - 32 <=? 13)%nat with false
      by (symmetry; apply Nat.leb_gt; lia).
    replace (nat_of_ascii c <=? 13)%nat with false
      by (symmetry; apply Nat.leb_gt; lia).
    replace (nat_of_ascii c - 32 =? 32)%nat with false
      by (symmetry; apply Nat.eqb_neq; lia).
    replace (nat_of_ascii c =? 32)%nat with false
      by (symmetry; apply Nat.eqb_neq; lia).
    rewrite !andb_false_r. reflexivity.
Qed.

Lemma upcase_idempotent (c : ascii) : upcase (upcase c) = upcase c.
Proof.
  destruct (upcase_facts c) as [H _]. unfold upcase at 1. rewrite H. reflexivity.
Qed.

Lemma toUpperCase_idempotent (s : string) :
  toUpperCase (toUpperCase s) = toUpperCase s.
Proof.
  induction s as [|c s IH]; simpl; [reflexivity|].
  rewrite upcase_idempotent, IH. reflexivity.
Qed.

Lemma toUpperCase_trimStart (s : string) :
  toUpperCase (trimStart s) = trimStart (toUpperCase s).
Proof.
  induction s as [|c s IH]; simpl; [reflexivity|].
  destruct (upcase_facts c) as [_ ->].
  destruct (isSpace c); [exact IH | reflexivity].
Qed.

Lemma toUpperCase_trimEnd (s : string) :
  toUpperCase (trimEnd s) = trimEnd (toUpperCase s).
Proof.
  induction s as [|c s IH]; simpl; [reflexivity|].
  rewrite <- IH. destruct (upcase_facts c) as [_ ->].
  destruct (trimEnd s) as [|a t]; simpl; [|reflexivity].
  destruct (isSpace c); reflexivity.
Qed.

Lemma trimEnd_idempotent (s : string) : trimEnd (trimEnd s) = trimEnd s.
Proof.
  induction s as [|c s IH]; simpl; [reflexivity|].
  destruct (trimEnd s) as [|a t] eqn:E.
  - destruct (isSpace c) eqn:Ec; simpl; [reflexivity|]. rewrite Ec. reflexivity.
  - simpl. simpl in IH. rewrite IH. reflexivity.
Qed.

Lemma trimStart_head (s : string) :
  match trimStart s with
  | String c _ => isSpace c = false
  | EmptyString => True
  end.
Proof.
  induction s as [|c s IH]; simpl; [exact I|].
  destruct (isSpace c) eqn:E; [exact IH | exact E].
Qed.

Lemma trimEnd_head (c : ascii) (s : string) :
  isSpace c = false -> exists t, trimEnd (String c s) = String c t.
Proof.
  intros H. simpl. destruct (trimEnd s); rewrite ?H; eauto.
Qed.

Lemma trim_idempotent (s : string) : trim (trim s) = trim s.
Proof.
  unfold trim. pose proof (trimStart_head s) as Hhead.
  destruct (trimStart s) as [|c t]; [reflexivity|].
  destruct (trimEnd_head c t Hhead) as [t' E]. rewrite E.
  simpl trimStart. rewrite Hhead. rewrite <- E. apply trimEnd_idempotent.
Qed.

Lemma toUpperCase_trim (s : string) :
  toUpperCase (trim s) = trim (toUpperCase s).
Proof.
  unfold trim. rewrite toUpperCase_trimEnd, toUpperCase_trimStart. reflexivity.
Qed.

(** Normalising twice is normalising once. *)
Lemma normalize_idempotent (s : string) :
  trim (toUpperCase (trim (toUpperCase s))) = trim (toUpperCase s).
Proof.
  rewrite toUpperCase_trim, toUpperCase_idempotent. apply trim_idempotent.
Qed.

(** X3. The two parsers read a code through its normal form only: in
    upper case, without the white space around it. A code and its normal
    form parse alike, and so do two codes with the same normal form. *)
Theorem parsers_read_the_normal_form (code : string) :
  BogotaSDSCJService.parseSIVICCCode code
  = BogotaSDSCJService.parseSIVICCCode (trim (toUpperCase code))
  /\ CaiService.parseQuadrantCode code
     = CaiService.parseQuadrantCode (trim (toUpperCase code))
  /\ forall other,
       trim (toUpperCase other) = trim (toUpperCase code) ->
       BogotaSDSCJService.parseSIVICCCode other
       = BogotaSDSCJService.parseSIVICCCode code
       /\ CaiService.parseQuadrantCode other = CaiService.parseQuadrantCode code.
Proof.
  assert (Hsivicc : forall c,
    BogotaSDSCJService.parseSIVICCCode c
    = BogotaSDSCJService.parseSIVICCCode (trim (toUpperCase c))).
  { intros c. unfold BogotaSDSCJService.parseSIVICCCode.
    rewrite normalize_idempotent.
    destruct (String.eqb c "") eqn:E.
    - apply String.eqb_eq in E. subst c. reflexivity.
    - destruct (String.eqb (trim (toUpperCase c)) "") eqn:E'; [|reflexivity].
      apply String.eqb_eq in E'. rewrite E'. reflexivity. }
  assert (Hquadrant : forall c,
    CaiService.parseQuadrantCode c
    = CaiService.parseQuadrantCode (trim (toUpperCase c))).
  { intros c. unfold CaiService.parseQuadrantCode.
    rewrite normalize_idempotent. reflexivity. }
  split; [apply Hsivicc|]. split; [apply Hquadrant|].
  intros other E. split.
  - rewrite (Hsivicc other), (Hsivicc code), E. reflexivity.
  - rewrite (Hquadrant other), (Hquadrant code), E. reflexivity.
Qed.

End Normalisation.

Lemma parsers_read_the_normal_form_witness :
  BogotaSDSCJService.parseSIVICCCode "  e15c02 "
  = BogotaSDSCJService.parseSIVICCCode "E15C02"
  /\ CaiService.parseQuadrantCode " e10-21"
     = CaiService.parseQuadrantCode "E10-21".
Proof.
  destruct (parsers_read_the_normal_form "E15C02") as (_ & _ & H1).
  destruct (parsers_read_the_normal_form "E10-21") as (_ & _ & H2).
  split; [apply H1 | apply H2]; reflexivity.
Defined.

(** ** The last-resort scan *)

Section StationToken.

Import BogotaSDSCJService.

Local Arguments isDigit : simpl never.

Lemma token_in_station (v : string) :
  isStation v = true -> hasStationToken v.
Proof.
  unfold isStation. intros H.
  destruct v as [|e [|a [|b [|? ?]]]]; try discriminate.
  apply andb_true_iff in H as [H Hb]. apply andb_true_iff in H as [He Ha].
  apply Ascii.eqb_eq in He. subst e.
  exists "", a, b, "". auto.
Qed.

Lemma token_after (p s : string) : hasStationToken s -> hasStationToken (p +:+ s).
Proof.
  intros (x & a & b & y & Ha & Hb & ->).
  exists (p +:+ x), a, b, y. rewrite append_assoc. auto.
Qed.

Lemma token_before (s q : string) : hasStationToken s -> hasStationToken (s +:+ q).
Proof.
  intros (x & a & b & y & Ha & Hb & ->).
  exists x, a, b, (y +:+ q). rewrite append_assoc. auto.
Qed.

Lemma no_token_in_empty : ~ hasStationToken "".
Proof.
  intros (x & a & b & y & _ & _ & H). destruct x; discriminate H.
Qed.

(** The scan finds a token wherever there is one. *)
Lemma scan_finds_token (s : string) :
  hasStationToken s -> forall pos, match_from estacionRe pos s <> None.
Proof.
  intros (x & a & b & y & Ha & Hb & ->).
  induction x as [|c x IH]; intros pos.
  - rewrite append_empty. destruct y; cbn; rewrite Ha, Hb; discriminate.
  - rewrite append_cons. simpl match_from.
    destruct (match_here estacionRe pos _); [discriminate | apply IH].
Qed.

Lemma scan_token (s : string) (m : captures) :
  regex_match s estacionRe = Some m -> hasStationToken s.
Proof.
  intros H. destruct (regex_match_sound _ _ _ H) as ((u & w & t & -> & Hw & _) & _).
  apply token_after, token_before, token_in_station, station_word, Hw.
Qed.

Lemma sivicc_short_token (s : string) (m : captures) :
  regex_match s shortRe = Some m -> hasStationToken s.
Proof.
  intros H. destruct (regex_match_sound _ _ _ H) as ((u & w & t & -> & Hw & _) & _).
  apply token_after, token_before.
  unfold shortRe in Hw. cbn [seq] in Hw.
  destruct Hw as (w0 & w1 & -> & _ & ws & w2 & -> & Hs & _).
  apply token_after, token_before, token_in_station, station_word, Hs.
Qed.

Lemma sivicc_long_token (s : string) (m : captures) :
  regex_match s longRe = Some m -> hasStationToken s.
Proof.
  intros H. destruct (regex_match_sound _ _ _ H) as ((u & w & t & -> & Hw & _) & _).
  apply token_after, token_before.
  unfold longRe in Hw. cbn [seq] in Hw.
  destruct Hw as (w0 & w1 & -> & _ & wu & w2 & -> & _ & wm & w3 & -> & _
                  & wd & w4 & -> & _ & ws & w5 & -> & Hs & _).
  do 4 apply token_after.
  apply token_before, token_in_station, station_word, Hs.
Qed.

Lemma quadrant_short_token (s : string) (m : captures) :
  regex_match s CaiService.shortRe = Some m -> hasStationToken s.
Proof.
  intros H. destruct (regex_match_sound _ _ _ H) as ((u & w & t & -> & Hw & _) & _).
  apply token_after, token_before.
  unfold CaiService.shortRe in Hw. cbn [seq] in Hw.
  destruct Hw as (w0 & w1 & -> & _ & ws & w2 & -> & Hs & _).
  apply token_after, token_before, token_in_station, station_word, Hs.
Qed.

Lemma quadrant_long_token (s : string) (m : captures) :
  regex_match s CaiService.longRe = Some m -> hasStationToken s.
Proof.
  intros H. destruct (regex_match_sound _ _ _ H) as ((u & w & t & -> & Hw & _) & _).
  apply token_after, token_before.
  unfold CaiService.longRe in Hw. cbn [seq] in Hw.
  destruct Hw as (ws & w1 & -> & Hs & _).
  apply token_before, token_in_station, station_word, Hs.
Qed.

(** X4. Each parser returns nothing exactly when the normal form of the
    code holds no station token, E and two digits, anywhere. *)
Theorem no_parse_means_no_station_token (code : string) :
  (parseSIVICCCode code = None
   <-> ~ hasStationToken (trim (toUpperCase code)))
  /\ (CaiService.parseQuadrantCode code = None
      <-> ~ hasStationToken (trim (toUpperCase code))).
Proof.
  set (normalized := trim (toUpperCase code)).
  assert (Hscan : regex_match normalized estacionRe = None
                  <-> ~ hasStationToken normalized).
  { split.
    - intros E Htoken. exact (scan_finds_token _ Htoken 0%nat E).
    - intros Hno. destruct (regex_match normalized estacionRe) eqn:E; [|reflexivity].
      destruct Hno. eapply scan_token; eauto. }
  split; split.
  - unfold parseSIVICCCode. fold normalized.
    destruct (String.eqb code "") eqn:E0.
    + intros _. apply String.eqb_eq in E0. subst code. apply no_token_in_empty.
    + destruct (regex_match normalized shortRe); [discriminate|].
      destruct (regex_match normalized longRe); [discriminate|].
      destruct (regex_match normalized estacionRe) eqn:E; [discriminate|].
      intros _. apply Hscan. reflexivity.
  - intros Hno. unfold parseSIVICCCode. fold normalized.
    destruct (String.eqb code ""); [reflexivity|].
    destruct (regex_match normalized shortRe) eqn:Es;
      [destruct Hno; eapply sivicc_short_token; eauto|].
    destruct (regex_match normalized longRe) eqn:El;
      [destruct Hno; eapply sivicc_long_token; eauto|].
    apply Hscan in Hno. rewrite Hno. reflexivity.
  - unfold CaiService.parseQuadrantCode. fold normalized.
    destruct (regex_match normalized CaiService.shortRe); [discriminate|].
    destruct (regex_match normalized CaiService.longRe); [discriminate|].
    destruct (regex_match normalized CaiService.estacionRe) eqn:E; [discriminate|].
    intros _. apply Hscan. exact E.
  - intros Hno. unfold CaiService.parseQuadrantCode. fold normalized.
    destruct (regex_match normalized CaiService.shortRe) eqn:Es;
      [destruct Hno; eapply quadrant_short_token; eauto|].
    destruct (regex_match normalized CaiService.longRe) eqn:El;
      [destruct Hno; eapply quadrant_long_token; eauto|].
    apply Hscan in Hno.
    change CaiService.estacionRe with estacionRe. rewrite Hno. reflexivity.
Qed.

End StationToken.

Section SegmentsRoundTrip.

Import BogotaSDSCJService.

Local Arguments Ascii.eqb : simpl nomatch.
Local Arguments isDigit : simpl nomatch.
Local Arguments isUpper : simpl nomatch.
Local Arguments isSpace : simpl nomatch.
Local Arguments isLower : simpl nomatch.
Local Arguments mem : simpl nomatch.

(** The parse of a code written out from its segments. *)
Lemma sivicc_of_segments
    (unit : option string) (model : bool) (district : option string)
    (station : string) (subunit serial : option string) :
  optionally isUnit unit = true ->
  optionally isDistrict district = true ->
  isStation station = true ->
  optionally isSubunit subunit = true ->
  optionally isSerial serial = true ->
  exists parsed,
    parseSIVICCCode (fullForm unit model district station subunit serial)
    = Some parsed
    /\ get "estacion" parsed = Some station
    /\ get "cai" parsed = subunit
    /\ get "distrito" parsed = district
    /\ get "cuadrante" parsed = serial
    /\ get "unidad" parsed
       = match unit with
         | Some u => Some u
         | None => if model then Some "MNVCC" else None
         end
    /\ get "modelo" parsed
       = match unit with
         | Some _ => if model then Some "MNVCC" else None
         | None => None
         end.
Proof.
  intros Hunit Hdistrict Hstation Hsubunit Hserial.
  segment Hstation station.
  destruct unit as [unit|]; [simpl in Hunit; segment Hunit unit|];
    (destruct district as [district|];
     [simpl in Hdistrict; segment Hdistrict district|]);
    (destruct subunit as [subunit|];
     [simpl in Hsubunit; segment Hsubunit subunit|]);
    (destruct serial as [serial|];
     [simpl in Hserial; segment Hserial serial|]);
    destruct model;
    conjuncts; facts;
    unfold parseSIVICCCode;
    rewrite normalized_code by (unfold fullForm; run; reflexivity);
    unfold fullForm; run;
    (eexists; split; [reflexivity|]; cbn; repeat split; reflexivity).
Qed.

(** X5. A code written out from its segments parses back into them: the
    station, and the district, the subunit and the serial when the code
    has them. The unit and the model marker come back as written when
    the code has a unit; a code that starts with the marker MNVCC and has
    no unit comes back with MNVCC as its unit and no model. *)
Theorem segments_round_trip
    (unit : option string) (model : bool) (district : option string)
    (station : string) (subunit serial : option string) :
  optionally isUnit unit = true ->
  optionally isDistrict district = true ->
  isStation station = true ->
  optionally isSubunit subunit = true ->
  optionally isSerial serial = true ->
  exists parsed,
    parseSIVICCCode (fullForm unit model district station subunit serial)
    = Some parsed
    /\ get "estacion" parsed = Some station
    /\ get "cai" parsed = subunit
    /\ get "distrito" parsed = district
    /\ get "cuadrante" parsed = serial
    /\ get "unidad" parsed
       = match unit with
         | Some u => Some u
         | None => if model then Some "MNVCC" else None
         end
    /\ get "modelo" parsed
       = match unit with
         | Some _ => if model then Some "MNVCC" else None
         | None => None
         end.
Proof.
  exact (sivicc_of_segments unit model district station subunit serial).
Qed.

End SegmentsRoundTrip.

Lemma segments_round_trip_witness :
  exists parsed,
    BogotaSDSCJService.parseSIVICCCode "MNVCCD12E07000011" = Some parsed
    /\ get "unidad" parsed = Some "MNVCC"
    /\ get "modelo" parsed = None
    /\ get "distrito" parsed = Some "D12"
    /\ get "cuadrante" parsed = Some "000011".
Proof.
  destruct (segments_round_trip None true (Some "D12") "E07" None (Some "000011"))
    as (parsed & Hp & _ & _ & Hd & Hq & Hu & Hm); try reflexivity.
  exists parsed. repeat split; assumption.
Defined.

(** ** The WebMap index cache *)

Section WebMapCache.

Import CaiService.
Context `{Remote}.

(** One call of [loadCAIs]: what it keeps. *)
Lemma loadCAIs_step (st : state) :
  (cachedCAIs st <> [] -> cachedCAIs (loadCAIs st) <> [])
  /\ (caiLoadedFromLocal st = true -> caiLoadedFromLocal (loadCAIs st) = true)
  /\ (caiLoadedFromAPI st = true -> caiLoadedFromAPI (loadCAIs st) = true)
  /\ ((cachedCAIs st <> [] <-> caiLoadedFromLocal st || caiLoadedFromAPI st = true) ->
      (cachedCAIs (loadCAIs st) <> []
       <-> caiLoadedFromLocal (loadCAIs st) || caiLoadedFromAPI (loadCAIs st) = true))
  /\ exists new,
       calls (loadCAIs st) = calls st ++ new
       /\ (caiLoadedFromLocal st = true -> ~ In LoadCAIsFromLocal new)
       /\ (caiLoadedFromAPI st = true -> ~ In LoadCAIsFromArcGIS new)
       /\ (caiLoadedFromLocal st = true -> caiLoadedFromAPI st = true ->
           new = [] /\ cachedCAIs (loadCAIs st) = cachedCAIs st).
Proof.
  unfold loadCAIs, loadFromAPI, await, set_lastLoadAttempt, set_fromLocal,
    set_fromAPI.
  destruct (_ && _).
  { repeat split; auto; try tauto.
    exists []. rewrite app_nil_r. repeat split; auto. }
  cbn.
  destruct (caiLoadedFromLocal st) eqn:EL, (caiLoadedFromAPI st) eqn:EA; cbn;
    repeat match goal with
    | |- context [loadCAIsFromLocal ?n] =>
        destruct (loadCAIsFromLocal n) as [[|? ?] ?]; cbn
    | |- context [loadCAIsFromArcGIS ?n] =>
        destruct (loadCAIsFromArcGIS n) as [[|? ?] ?]; cbn
    end;
    rewrite ?EL, ?EA; cbn;
    (split; [|split; [|split; [|split]]]);
    try solve [intuition (try discriminate; try congruence)];
    first [ exists []; split; [rewrite app_nil_r; reflexivity|]
          | exists [LoadCAIsFromLocal; LoadCAIsFromArcGIS];
            split; [rewrite <- app_assoc; reflexivity|]
          | exists [LoadCAIsFromLocal]; split; [reflexivity|]
          | exists [LoadCAIsFromArcGIS]; split; [reflexivity|] ];
    (split; [|split]);
    try solve [intros; discriminate];
    try solve [intros _ [E|[]]; discriminate E];
    try solve [intros _ []];
    try solve [intros _ _; split; reflexivity].
Qed.

(** X6. A WebMap index that holds data keeps holding data through any
    series of loads, whatever the loaders answer and however much time
    passes between the calls. *)
Theorem webmap_index_never_empties (moves : list (Net -> Net)) (st : state) :
  cachedCAIs st <> [] ->
  cachedCAIs (loadRepeatedly moves st) <> [].
Proof.
  revert st. induction moves as [|f moves IH]; intros st Hne; simpl;
    [exact Hne|].
  apply IH. destruct (loadCAIs_step (elapse f st)) as (Hk & _).
  apply Hk. exact Hne.
Qed.

(** X7. Starting from the empty cache of a fresh page, after any series
    of loads the index holds data exactly when one of the two source
    flags is set; so the statistics name a source exactly when they count
    at least one CAI, and they never count more CAIs in Bogota than in
    total. *)
Theorem webmap_stats_name_a_source (moves : list (Net -> Net)) (n : Net) :
  let st := loadRepeatedly moves (initial n) in
  (cachedCAIs st <> []
   <-> caiLoadedFromLocal st || caiLoadedFromAPI st = true)
  /\ (total (fst (getCAIStats st)) = 0%nat
      <-> source (fst (getCAIStats st)) = SourceNone)
  /\ (bogota (fst (getCAIStats st)) <= total (fst (getCAIStats st)))%nat.
Proof.
  assert (Hinv : forall ms st,
    (cachedCAIs st <> [] <-> caiLoadedFromLocal st || caiLoadedFromAPI st = true) ->
    (cachedCAIs (loadRepeatedly ms st) <> []
     <-> caiLoadedFromLocal (loadRepeatedly ms st)
         || caiLoadedFromAPI (loadRepeatedly ms st) = true)).
  { induction ms as [|f ms IH]; intros st Hst; simpl; [exact Hst|].
    apply IH. destruct (loadCAIs_step (elapse f st)) as (_ & _ & _ & Hk & _).
    apply Hk. exact Hst. }
  intros st.
  assert (Hst : cachedCAIs st <> []
                <-> caiLoadedFromLocal st || caiLoadedFromAPI st = true).
  { apply Hinv. simpl. split; [congruence|discriminate]. }
  split; [exact Hst|].
  destruct (loadCAIs_step st) as (_ & _ & _ & Hkeep & _).
  specialize (Hkeep Hst).
  unfold getCAIStats. cbn [fst total source bogota].
  split.
  - destruct (cachedCAIs (loadCAIs st)) as [|c l];
      destruct (caiLoadedFromLocal (loadCAIs st)),
               (caiLoadedFromAPI (loadCAIs st)); simpl in *;
      split; intros E; try reflexivity; try discriminate E;
      exfalso;
      try (destruct Hkeep as [_ Hk]; apply Hk; reflexivity);
      try (destruct Hkeep as [Hk _]; specialize (Hk ltac:(discriminate));
           discriminate Hk).
  - apply List.filter_length_le.
Qed.

(** Any series of loads: the calls it adds, and what earlier successes
    exclude. *)
Lemma loadRepeatedly_calls (moves : list (Net -> Net)) (st : state) :
  exists new,
    calls (loadRepeatedly moves st) = calls st ++ new
    /\ (caiLoadedFromLocal st = true -> ~ In LoadCAIsFromLocal new)
    /\ (caiLoadedFromAPI st = true -> ~ In LoadCAIsFromArcGIS new)
    /\ (caiLoadedFromLocal st = true -> caiLoadedFromAPI st = true ->
        new = [] /\ cachedCAIs (loadRepeatedly moves st) = cachedCAIs st).
Proof.
  revert st. induction moves as [|f moves IH]; intros st; simpl.
  - exists []. rewrite app_nil_r. repeat split; auto.
  - destruct (loadCAIs_step (elapse f st))
      as (_ & HL & HA & _ & new1 & Hc1 & HnL1 & HnA1 & Hboth1).
    destruct (IH (loadCAIs (elapse f st)))
      as (new2 & Hc2 & HnL2 & HnA2 & Hboth2).
    exists (new1 ++ new2). simpl in *.
    split; [rewrite Hc2, Hc1, app_assoc; reflexivity|].
    split; [|split].
    + intros E Hin. apply in_app_or in Hin as [Hin|Hin].
      * exact (HnL1 E Hin).
      * exact (HnL2 (HL E) Hin).
    + intros E Hin. apply in_app_or in Hin as [Hin|Hin].
      * exact (HnA1 E Hin).
      * exact (HnA2 (HA E) Hin).
    + intros EL EA.
      destruct (Hboth1 EL EA) as [-> Hsame1].
      destruct (Hboth2 (HL EL) (HA EA)) as [-> Hsame2].
      split; [reflexivity|]. rewrite Hsame2, Hsame1. reflexivity.
Qed.

(** X8. A source that has delivered the index is never read again: once
    the local file has loaded, no call added by any series of loads is a
    call of the local loader, and once the ArcGIS API has loaded, none is
    a call of the ArcGIS loader. *)
Theorem sources_are_read_once (moves : list (Net -> Net)) (st : state) :
  exists new,
    calls (loadRepeatedly moves st) = calls st ++ new
    /\ (caiLoadedFromLocal st = true -> ~ In LoadCAIsFromLocal new)
    /\ (caiLoadedFromAPI st = true -> ~ In LoadCAIsFromArcGIS new).
Proof.
  destruct (loadRepeatedly_calls moves st) as (new & Hc & HnL & HnA & _).
  exists new. split; [exact Hc|]. split; assumption.
Qed.

(** X9. Once both the local file and the ArcGIS API have delivered, the
    index is final: no series of loads, however much time passes, calls a
    loader or changes the cached CAIs. *)
Theorem index_is_final_after_both_sources (moves : list (Net -> Net))
    (st : state) :
  caiLoadedFromLocal st = true ->
  caiLoadedFromAPI st = true ->
  calls (loadRepeatedly moves st) = calls st
  /\ cachedCAIs (loadRepeatedly moves st) = cachedCAIs st.
Proof.
  intros EL EA.
  destruct (loadRepeatedly_calls moves st) as (new & Hc & _ & _ & Hboth).
  destruct (Hboth EL EA) as [-> Hsame].
  rewrite app_nil_r in Hc. split; assumption.
Qed.

End WebMapCache.

(** ** Looking a CAI up by quadrant code *)

Section LookupByCode.

Import CaiService.
Context `{Remote}.

(** X10. [findCAIByCuadrante] answers null exactly when the code does not
    parse or no cached CAI has a code that parses to the same station;
    every CAI it answers is one of the cached CAIs after the load, and
    its own code parses to the station of the code asked for. *)
Theorem lookup_by_code_answers_a_cached_cai_of_the_station
    (codigoCuadrante' : string) (st : state) :
  let cached := cachedCAIs (loadCAIs st) in
  snd (findCAIByCuadrante codigoCuadrante' st) = loadCAIs st
  /\ match fst (findCAIByCuadrante codigoCuadrante' st) with
     | Some found =>
         In found cached
         /\ exists parsed caiParsed,
              parseQuadrantCode codigoCuadrante' = Some parsed
              /\ parseQuadrantCode (codigoCuadrante found) = Some caiParsed
              /\ estacion caiParsed = estacion parsed
     | None =>
         parseQuadrantCode codigoCuadrante' = None
         \/ exists parsed,
              parseQuadrantCode codigoCuadrante' = Some parsed
              /\ forall c caiParsed,
                   In c cached ->
                   parseQuadrantCode (codigoCuadrante c) = Some caiParsed ->
                   estacion caiParsed <> estacion parsed
     end.
Proof.
  intros cached. unfold findCAIByCuadrante. cbv zeta. fold cached.
  assert (Hshare : forall parsed c,
    In c (List.filter (sharesStation parsed) cached) ->
    In c cached
    /\ exists caiParsed,
         parseQuadrantCode (codigoCuadrante c) = Some caiParsed
         /\ estacion caiParsed = estacion parsed).
  { intros parsed c Hin. apply List.filter_In in Hin as [Hin Hs].
    split; [exact Hin|]. unfold sharesStation in Hs.
    destruct (parseQuadrantCode (codigoCuadrante c)) as [caiParsed|];
      [|discriminate].
    exists caiParsed. split; [reflexivity|]. apply String.eqb_eq, Hs. }
  destruct (parseQuadrantCode codigoCuadrante') as [parsed|] eqn:Hparse;
    [|split; [reflexivity|left; reflexivity]].
  destruct (List.filter (sharesStation parsed) cached)
    as [|first [|second rest]] eqn:Hcands.
  - split; [reflexivity|]. right. exists parsed. split; [reflexivity|].
    intros c caiParsed Hin Hc Heq.
    assert (Hf : In c (List.filter (sharesStation parsed) cached)).
    { apply List.filter_In. split; [exact Hin|]. unfold sharesStation.
      rewrite Hc. apply String.eqb_eq, Heq. }
    rewrite Hcands in Hf. exact Hf.
  - split; [reflexivity|]. cbn [fst].
    destruct (Hshare parsed first) as (Hin & caiParsed & Hc & He);
      [rewrite Hcands; left; reflexivity|].
    split; [exact Hin|]. exists parsed, caiParsed. auto.
  - assert (Hfirst : In first cached
        /\ exists parsed0 caiParsed,
             Some parsed = Some parsed0
             /\ parseQuadrantCode (codigoCuadrante first) = Some caiParsed
             /\ estacion caiParsed = estacion parsed0).
    { destruct (Hshare parsed first) as (Hin & caiParsed & Hc & He);
        [rewrite Hcands; left; reflexivity|].
      split; [exact Hin|]. exists parsed, caiParsed. auto. }
    destruct (truthy (cai parsed)); [|split; [reflexivity|exact Hfirst]].
    destruct (List.find _ _) as [c|] eqn:Hfind;
      [|split; [reflexivity|exact Hfirst]].
    split; [reflexivity|]. cbn [fst].
    apply List.find_some in Hfind as [Hin _].
    rewrite <- Hcands in Hin.
    destruct (Hshare parsed c Hin) as (Hin' & caiParsed & Hc & He).
    split; [exact Hin'|]. exists parsed, caiParsed. auto.
Qed.

(** The subunit of a parse is never the empty string. *)
Lemma quadrant_subunit_present (code sub : string) (parsed : QuadrantCode) :
  parseQuadrantCode code = Some parsed ->
  cai parsed = Some sub ->
  truthy (cai parsed) = true.
Proof.
  unfold parseQuadrantCode. cbv zeta.
  set (normalized := trim (toUpperCase code)).
  destruct (regex_match normalized shortRe) as [ms|] eqn:Es;
    [intros [= <-]; discriminate|].
  destruct (regex_match normalized longRe) as [ml|] eqn:El.
  - intros [= <-]. unfold longResult. cbn [cai]. intros Hc.
    destruct (regex_match_sound _ _ _ El) as (_ & Hcap & _).
    specialize (Hcap 2%nat sub ltac:(lia) Hc).
    cbn [captured longRe seq] in Hcap. take_apart; try discriminate.
    rewrite Hc.
    match goal with Hw : matches _ sub |- _ => word Hw end. reflexivity.
  - destruct (regex_match normalized estacionRe) as [me|];
      intros [= <-]; discriminate.
Qed.

(** X11. When two or more cached CAIs belong to the station of the code
    and the code names a subunit, the answer of [findCAIByCuadrante]
    carries the number of that subunit whenever one of the station's
    cached CAIs does. *)
Theorem subunit_number_selects_among_several
    (codigoCuadrante' sub : string) (parsed : QuadrantCode) (st : state)
    (candidate : RealCAI) :
  parseQuadrantCode codigoCuadrante' = Some parsed ->
  cai parsed = Some sub ->
  let caisDeEstacion :=
    List.filter (sharesStation parsed) (cachedCAIs (loadCAIs st)) in
  let caiNumero := parseInt (JS.replace sub "C" "") in
  (2 <= length caisDeEstacion)%nat ->
  In candidate caisDeEstacion ->
  hasNumero caiNumero candidate = true ->
  exists found,
    fst (findCAIByCuadrante codigoCuadrante' st) = Some found
    /\ In found caisDeEstacion
    /\ hasNumero caiNumero found = true.
Proof.
  intros Hparse Hsub cands n Hlen Hin Hnum.
  pose proof (quadrant_subunit_present _ _ _ Hparse Hsub) as Htruthy.
  unfold findCAIByCuadrante. cbv zeta. rewrite Hparse. fold cands.
  destruct cands as [|first [|second rest]] eqn:Hcands;
    [simpl in Hlen; lia | simpl in Hlen; lia |].
  rewrite Htruthy, Hsub. change (default "" (Some sub)) with sub. fold n.
  destruct (List.find (hasNumero n) (first :: second :: rest))
    as [found|] eqn:Hfind.
  - exists found. apply List.find_some in Hfind as [Hf Hn].
    split; [reflexivity|]. split; assumption.
  - exfalso. pose proof (List.find_none _ _ Hfind candidate Hin) as Hno.
    rewrite Hnum in Hno. discriminate Hno.
Qed.

End LookupByCode.

(** ** The resolver of CAI locations *)

Section Resolver.

Import CaiService.
Context `{Remote}.

(** [loadCAIs] calls nothing but the two loaders of the index. *)
Lemma loadCAIs_log (st : state) :
  exists new,
    calls (loadCAIs st) = calls st ++ new
    /\ forall c, In c new -> c = LoadCAIsFromLocal \/ c = LoadCAIsFromArcGIS.
Proof.
  unfold loadCAIs, loadFromAPI, await, set_lastLoadAttempt, set_fromLocal,
    set_fromAPI.
  destruct (_ && _).
  { exists []. rewrite app_nil_r. split; [reflexivity|]. intros c []. }
  cbn.
  destruct (caiLoadedFromLocal st) eqn:EL, (caiLoadedFromAPI st) eqn:EA; cbn;
    repeat match goal with
    | |- context [loadCAIsFromLocal ?n] =>
        destruct (loadCAIsFromLocal n) as [[|? ?] ?]; cbn
    | |- context [loadCAIsFromArcGIS ?n] =>
        destruct (loadCAIsFromArcGIS n) as [[|? ?] ?]; cbn
    end;
    rewrite ?EL, ?EA; cbn;
    first [ exists []; split; [rewrite app_nil_r; reflexivity|]
          | exists [LoadCAIsFromLocal; LoadCAIsFromArcGIS];
            split; [rewrite <- app_assoc; reflexivity|]
          | exists [LoadCAIsFromLocal]; split; [reflexivity|]
          | exists [LoadCAIsFromArcGIS]; split; [reflexivity|] ];
    simpl; intuition auto.
Qed.

Lemma findCAIByCuadrante_state (codigo : string) (st : state) :
  snd (findCAIByCuadrante codigo st) = loadCAIs st.
Proof.
  unfold findCAIByCuadrante. cbv zeta.
  destruct (parseQuadrantCode codigo) as [parsed|]; [|reflexivity].
  destruct (List.filter _ _) as [|first [|second rest]]; try reflexivity.
  destruct (truthy _); [|reflexivity].
  destruct (List.find _ _); reflexivity.
Qed.

Lemma findCAIByCuadrante_cached (codigo : string) (st : state) (c : RealCAI) :
  fst (findCAIByCuadrante codigo st) = Some c ->
  In c (cachedCAIs (loadCAIs st)).
Proof.
  unfold findCAIByCuadrante. cbv zeta.
  destruct (parseQuadrantCode codigo) as [parsed|]; [|discriminate].
  destruct (List.filter _ _) as [|first [|second rest]] eqn:Hc;
    [discriminate| |].
  - intros [= <-].
    assert (Hin : In first (List.filter (sharesStation parsed)
                              (cachedCAIs (loadCAIs st))))
      by (rewrite Hc; left; reflexivity).
    apply List.filter_In in Hin. apply Hin.
  - assert (Hall : forall x, In x (first :: second :: rest) ->
                             In x (cachedCAIs (loadCAIs st))).
    { intros x Hx. rewrite <- Hc in Hx. apply List.filter_In in Hx. apply Hx. }
    destruct (truthy _).
    + destruct (List.find _ _) as [found|] eqn:Hf; intros [= <-].
      * apply Hall. apply List.find_some in Hf. apply Hf.
      * apply Hall. left. reflexivity.
    + intros [= <-]. apply Hall. left. reflexivity.
Qed.

Lemma findNearestCAI_cached (lat lng : number) (cutoff : option number)
    (st : state) :
  snd (findNearestCAI lat lng cutoff st) = loadCAIs st
  /\ forall c, fst (findNearestCAI lat lng cutoff st) = Return (Some c) ->
               In c (cachedCAIs (loadCAIs st)).
Proof.
  unfold findNearestCAI. cbv zeta.
  destruct (_ =? 0)%nat; [split; [reflexivity|discriminate]|].
  destruct (turf_point (lng, lat)) as [userPoint|e];
    [|split; [reflexivity|discriminate]].
  split; [reflexivity|]. cbn [fst].
  intros c Hc. apply nearestAmong_cached in Hc as [Hc|Hc];
    [discriminate Hc|exact Hc].
Qed.

(** The fallback tier: it loads the index and answers from it. *)
Lemma geographicFallback_frame (center : option LatLng) (st : state) :
  exists later,
    calls (snd (geographicFallback center st)) = calls st ++ later
    /\ ~ In GetCAIFromSDSCJ later
    /\ forall loc, fst (geographicFallback center st) = Return (Some loc) ->
         exists c, In c (cachedCAIs (snd (geographicFallback center st)))
                   /\ loc = locationOf c.
Proof.
  unfold geographicFallback. destruct center as [center|].
  - destruct (findNearestCAI_cached (center_lat center) (center_lng center)
                (Some (Finite 2)) st) as [Hst Hin].
    destruct (findNearestCAI _ _ _ st) as [[[c|]|e] st']; cbn [fst snd] in *;
      subst st'; destruct (loadCAIs_log st) as (new & Hnew & Hwhich);
      exists new; (split; [exact Hnew|]);
      (split; [intros Hc; destruct (Hwhich _ Hc); discriminate|]).
    + intros loc [= <-]. exists c. split; [apply Hin; reflexivity|reflexivity].
    + discriminate.
    + discriminate.
  - exists []. rewrite app_nil_r. split; [reflexivity|].
    split; [intros []|discriminate].
Qed.

Lemma sodaTier_frame (quadrantId : string) (center : option LatLng)
    (st : state) :
  exists later,
    calls (snd (sodaTier quadrantId center st)) = calls st ++ later
    /\ ~ In GetCAIFromSDSCJ later
    /\ forall loc, fst (sodaTier quadrantId center st) = Return (Some loc) ->
         exists c, In c (cachedCAIs (snd (sodaTier quadrantId center st)))
                   /\ loc = locationOf c.
Proof.
  unfold sodaTier, await.
  destruct (getJerarquiaCuadrante quadrantId (net st)) as [r n].
  set (st1 := {| cachedCAIs := cachedCAIs st;
                 caiLoadedFromAPI := caiLoadedFromAPI st;
                 caiLoadedFromLocal := caiLoadedFromLocal st;
                 lastLoadAttempt := lastLoadAttempt st;
                 net := n;
                 calls := calls st ++ [GetJerarquiaCuadrante] |}).
  assert (Hfall : exists later,
    calls (snd (geographicFallback center st1)) = calls st ++ later
    /\ ~ In GetCAIFromSDSCJ later
    /\ forall loc, fst (geographicFallback center st1) = Return (Some loc) ->
         exists c, In c (cachedCAIs (snd (geographicFallback center st1)))
                   /\ loc = locationOf c).
  { destruct (geographicFallback_frame center st1) as (later & Hl & Hno & Hloc).
    exists (GetJerarquiaCuadrante :: later).
    split; [rewrite Hl; subst st1; cbn [calls]; rewrite <- app_assoc; reflexivity|].
    split; [|exact Hloc].
    intros [E|Hin]; [discriminate E|exact (Hno Hin)]. }
  destruct r as [[jerarquia|]|e]; try exact Hfall.
  destruct (List.find _ (cachedCAIs st1)) as [c|] eqn:Hfind; [|exact Hfall].
  exists [GetJerarquiaCuadrante]. cbn [fst snd].
  split; [reflexivity|].
  split; [intros [E|[]]; discriminate E|].
  intros loc [= <-]. exists c. split; [|reflexivity].
  apply List.find_some in Hfind. apply Hfind.
Qed.

Lemma webMapTier_frame (quadrantId : string) (center : option LatLng)
    (st : state) :
  exists later,
    calls (snd (webMapTier quadrantId center st)) = calls st ++ later
    /\ ~ In GetCAIFromSDSCJ later
    /\ forall loc, fst (webMapTier quadrantId center st) = Return (Some loc) ->
         exists c, In c (cachedCAIs (snd (webMapTier quadrantId center st)))
                   /\ loc = locationOf c.
Proof.
  unfold webMapTier. cbv zeta.
  pose proof (findCAIByCuadrante_state quadrantId (loadCAIs st)) as Hst.
  pose proof (findCAIByCuadrante_cached quadrantId (loadCAIs st)) as Hin.
  destruct (findCAIByCuadrante quadrantId (loadCAIs st)) as [[c|] st2];
    cbn [fst snd] in *; subst st2;
    destruct (loadCAIs_log st) as (new1 & Hnew1 & Hwhich1);
    destruct (loadCAIs_log (loadCAIs st)) as (new2 & Hnew2 & Hwhich2).
  - exists (new1 ++ new2).
    split; [rewrite Hnew2, Hnew1, app_assoc; reflexivity|].
    split.
    + intros Hc. apply in_app_or in Hc as [Hc|Hc];
        [destruct (Hwhich1 _ Hc)|destruct (Hwhich2 _ Hc)]; discriminate.
    + intros loc [= <-]. exists c. split; [apply Hin; reflexivity|reflexivity].
  - destruct (sodaTier_frame quadrantId center (loadCAIs (loadCAIs st)))
      as (later & Hl & Hno & Hloc).
    exists (new1 ++ new2 ++ later).
    split; [rewrite Hl, Hnew2, Hnew1, !app_assoc; reflexivity|].
    split; [|exact Hloc].
    intros Hc. apply in_app_or in Hc as [Hc|Hc];
      [destruct (Hwhich1 _ Hc); discriminate|].
    apply in_app_or in Hc as [Hc|Hc];
      [destruct (Hwhich2 _ Hc); discriminate|exact (Hno Hc)].
Qed.

(** X12. One resolution asks the SDSCJ service exactly when the code
    contains MEBOG or starts with E, once, and before any other call. A
    resolution that does not ask it answers, if at all, with the position
    and name of a CAI of the WebMap index as cached when it returns. *)
Theorem sdscj_is_asked_first_and_only_for_bogota (quadrantId : string)
    (quadrantCenter : option LatLng) (st : state) :
  let esBogota :=
    includes (toUpperCase quadrantId) "MEBOG"
    || startsWith (toUpperCase quadrantId) "E" in
  let run := getCAILocationForQuadrant quadrantId quadrantCenter st in
  exists later,
    calls (snd run)
    = calls st ++ (if esBogota then [GetCAIFromSDSCJ] else []) ++ later
    /\ ~ In GetCAIFromSDSCJ later
    /\ (esBogota = false ->
        forall loc, fst run = Return (Some loc) ->
          exists c, In c (cachedCAIs (snd run)) /\ loc = locationOf c).
Proof.
  intros esBogota run. subst run. unfold getCAILocationForQuadrant.
  cbv zeta. fold esBogota. destruct esBogota.
  - unfold await.
    destruct (getCAIFromSDSCJ quadrantId quadrantCenter (net st)) as [r n].
    set (st1 := {| cachedCAIs := cachedCAIs st;
                   caiLoadedFromAPI := caiLoadedFromAPI st;
                   caiLoadedFromLocal := caiLoadedFromLocal st;
                   lastLoadAttempt := lastLoadAttempt st;
                   net := n;
                   calls := calls st ++ [GetCAIFromSDSCJ] |}).
    assert (Hweb : exists later,
      calls (snd (webMapTier quadrantId quadrantCenter st1))
      = calls st ++ [GetCAIFromSDSCJ] ++ later
      /\ ~ In GetCAIFromSDSCJ later
      /\ (true = false ->
          forall loc,
            fst (webMapTier quadrantId quadrantCenter st1) = Return (Some loc) ->
            exists c,
              In c (cachedCAIs (snd (webMapTier quadrantId quadrantCenter st1)))
              /\ loc = locationOf c)).
    { destruct (webMapTier_frame quadrantId quadrantCenter st1)
        as (later & Hl & Hno & _).
      exists later. split; [rewrite Hl; subst st1; cbn [calls];
                            rewrite <- app_assoc; reflexivity|].
      split; [exact Hno|discriminate]. }
    destruct r as [[sdscjResult|]|e]; try exact Hweb.
    exists []. cbn [fst snd]. split; [reflexivity|].
    split; [intros []|discriminate].
  - destruct (webMapTier_frame quadrantId quadrantCenter st)
      as (later & Hl & Hno & Hloc).
    exists later. split; [exact Hl|]. split; [exact Hno|].
    intros _. exact Hloc.
Qed.

End Resolver.

(** ** Looking equipment up in the SDSCJ layers *)

Section EquipmentByCode.

Import BogotaSDSCJService.
Context `{Remote}.

(** The station and the subunit of a parse, and the key made of them. *)
Lemma sivicc_parse_station (code : string) (parsed : object) :
  parseSIVICCCode code = Some parsed ->
  exists station,
    get "estacion" parsed = Some station
    /\ isStation station = true
    /\ (forall key, get "estacionCAI" parsed = Some key ->
          key = station +:+ default "" (get "cai" parsed))
    /\ (forall sub, get "cai" parsed = Some sub -> isSubunit sub = true).
Proof.
  unfold parseSIVICCCode.
  destruct (String.eqb code ""); [discriminate|].
  set (normalized := trim (toUpperCase code)).
  destruct (regex_match normalized shortRe) as [ms|] eqn:Es.
  { intros E; injection E as <-.
    destruct (sivicc_short_shape normalized ms Es)
      as [(a & b & Ha & Hb & -> & ->)
         |(a & b & c & d & Ha & Hb & Hc & Hd & -> & ->)];
      unfold shortResult; cbn;
      (eexists; split; [reflexivity|]; split;
         [cbn; rewrite ?Ha, ?Hb; reflexivity|]; split;
         [intros key E; injection E as <-; reflexivity|]);
      intros sub E; try discriminate E; injection E as <-;
      cbn; rewrite ?Hc, ?Hd; reflexivity. }
  destruct (regex_match normalized longRe) as [ml|] eqn:El.
  { intros E; injection E as <-.
    destruct (regex_match_sound _ _ _ El) as (_ & Hcap & Hbind).
    destruct (Hbind 4%nat ltac:(lia) eq_refl) as [station Hst].
    assert (Hsub : forall sub, capture 5 ml = Some sub -> isSubunit sub = true).
    { intros sub E5.
      destruct (sivicc_long_groups _ _ (Hcap 5%nat sub ltac:(lia) E5))
        as [[E _]|[[E _]|[[E _]|[[E _]|[[_ Hs]|[E _]]]]]];
        try discriminate E. exact Hs. }
    unfold longResult. cbn [get String.eqb Ascii.eqb Bool.eqb].
    rewrite Hst. exists station. split; [reflexivity|]. split; [|split].
    - destruct (sivicc_long_groups _ _ (Hcap 4%nat station ltac:(lia) Hst))
        as [[E _]|[[E _]|[[E _]|[[_ Hs]|[[E _]|[E _]]]]]];
        try discriminate E; exact Hs.
    - intros key E. injection E as <-. cbn [str].
      destruct (capture 5 ml) as [sub|] eqn:E5; [|reflexivity].
      pose proof (Hsub sub eq_refl) as Hs.
      destruct sub as [|c sub]; [discriminate Hs|]. reflexivity.
    - exact Hsub. }
  destruct (regex_match normalized estacionRe) as [me|] eqn:Ee; [|discriminate].
  intros E; injection E as <-.
  destruct (regex_match_sound _ _ _ Ee) as (_ & Hcap & Hbind).
  destruct (Hbind 1%nat ltac:(lia) eq_refl) as [station Hst].
  unfold estacionResult. cbn [get String.eqb Ascii.eqb Bool.eqb].
  rewrite Hst. exists station. split; [reflexivity|]. split; [|split].
  - specialize (Hcap 1%nat station ltac:(lia) Hst).
    cbn [captured estacionRe seq] in Hcap.
    destruct Hcap as [[_ Hs]|[[]|[]]]. apply station_word; exact Hs.
  - discriminate.
  - discriminate.
Qed.

Lemma station_is_code (s : string) : isStation s = true -> isCode s = true.
Proof.
  destruct s as [|e [|a [|b [|]]]]; try discriminate. simpl.
  intros Hs. apply andb_true_iff in Hs as [Hs Hb].
  apply andb_true_iff in Hs as [He Ha].
  apply Ascii.eqb_eq in He. subst e. rewrite Ha, Hb.
  rewrite !orb_true_r. reflexivity.
Qed.

Lemma subunit_is_code (s : string) : isSubunit s = true -> isCode s = true.
Proof.
  destruct s as [|c [|a [|b [|]]]]; try discriminate. simpl.
  intros Hs. apply andb_true_iff in Hs as [Hs Hb].
  apply andb_true_iff in Hs as [Hc Ha].
  rewrite Ha, Hb, !orb_true_r.
  apply orb_true_iff in Hc as [Hc|Hc]; apply Ascii.eqb_eq in Hc; subst c;
    reflexivity.
Qed.

Lemma isCode_append (a b : string) :
  isCode a = true -> isCode b = true -> isCode (a +:+ b) = true.
Proof.
  induction a as [|c a IH]; intros Ha Hb.
  - rewrite append_empty. exact Hb.
  - rewrite append_cons. simpl in *.
    apply andb_true_iff in Ha as [Hc Ha]. rewrite Hc, IH by assumption.
    reflexivity.
Qed.

Lemma startsWith_append (a b : string) : startsWith (a +:+ b) a = true.
Proof.
  induction a as [|c a IH].
  - destruct (EmptyString +:+ b); reflexivity.
  - rewrite append_cons. simpl. rewrite Ascii.eqb_refl, IH. reflexivity.
Qed.

Lemma startsWith_refl (a : string) : startsWith a a = true.
Proof.
  induction a as [|c a IH]; simpl; [reflexivity|].
  rewrite Ascii.eqb_refl, IH. reflexivity.
Qed.

Lemma startsWith_shorter (s a b : string) :
  startsWith s (a +:+ b) = true -> startsWith s a = true.
Proof.
  revert s. induction a as [|c a IH]; intros s.
  - destruct s; reflexivity.
  - rewrite append_cons. destruct s as [|d s]; simpl; [discriminate|].
    intros Hs. apply andb_true_iff in Hs as [Hc Hs].
    rewrite Hc, (IH s Hs). reflexivity.
Qed.

Lemma includes_unfold (s p : string) :
  includes s p
  = startsWith s p
    || match s with
       | EmptyString => false
       | String _ s' => includes s' p
       end.
Proof. destruct s; reflexivity. Qed.

Lemma includes_shorter (s a b : string) :
  includes s (a +:+ b) = true -> includes s a = true.
Proof.
  induction s as [|d s IH].
  - rewrite !(includes_unfold EmptyString), !orb_false_r.
    apply startsWith_shorter.
  - rewrite !(includes_unfold (String d s)). intros Hs.
    apply orb_true_iff in Hs as [Hs|Hs].
    + rewrite (startsWith_shorter _ _ _ Hs). reflexivity.
    + rewrite (IH Hs). apply orb_true_r.
Qed.

(** Every search code is the station, or the station followed by the
    subunit; the station alone is always among them. *)
Lemma searchCodes_shape (code station : string) (parsed : object) :
  parseSIVICCCode code = Some parsed ->
  get "estacion" parsed = Some station ->
  In station (searchCodes parsed)
  /\ forall searchCode, In searchCode (searchCodes parsed) ->
       toUpperCase searchCode = searchCode
       /\ exists rest, searchCode = station +:+ rest.
Proof.
  intros Hparse Hst.
  destruct (sivicc_parse_station code parsed Hparse)
    as (station' & Hst' & Hstation & Hkey & Hsub).
  rewrite Hst in Hst'. injection Hst' as <-.
  assert (Hne : truthy (Some station) = true).
  { destruct station; [discriminate Hstation|reflexivity]. }
  assert (Hcode : isCode (station +:+ default "" (get "cai" parsed)) = true).
  { apply isCode_append; [apply station_is_code, Hstation|].
    destruct (get "cai" parsed) as [sub|]; [|reflexivity].
    apply subunit_is_code, Hsub. reflexivity. }
  unfold searchCodes. rewrite Hst, Hne. cbn [str andb].
  split.
  - apply in_or_app. right. apply in_or_app. right. left. reflexivity.
  - intros searchCode Hin.
    apply in_app_or in Hin as [Hin|Hin]; [|apply in_app_or in Hin as [Hin|Hin]].
    + destruct (truthy (get "estacionCAI" parsed)) eqn:Ht; [|destruct Hin].
      destruct Hin as [<-|[]].
      destruct (get "estacionCAI" parsed) as [key|]; [|discriminate Ht].
      rewrite (Hkey key eq_refl). cbn [str].
      split; [apply toUpperCase_code, Hcode|eauto].
    + destruct (truthy (get "cai" parsed)) eqn:Ht; [|destruct Hin].
      destruct Hin as [<-|[]].
      destruct (get "cai" parsed) as [sub|]; [|discriminate Ht].
      cbn [str]. split; [apply toUpperCase_code, Hcode|eauto].
    + destruct Hin as [<-|[]].
      split; [apply toUpperCase_code, station_is_code, Hstation|].
      exists "". rewrite append_nil_r. reflexivity.
Qed.

Lemma firstFound_some {A : Type} (lookup : string -> option A)
    (codes : list string) (x : A) :
  firstFound lookup codes = Some x ->
  exists searchCode, In searchCode codes /\ lookup searchCode = Some x.
Proof.
  induction codes as [|c codes IH]; simpl; [discriminate|].
  destruct (lookup c) as [y|] eqn:E.
  - intros [= <-]. exists c. split; [left; reflexivity|exact E].
  - intros Hx. destruct (IH Hx) as (sc & Hin & Hl).
    exists sc. split; [right; exact Hin|exact Hl].
Qed.

Lemma firstFound_none {A : Type} (lookup : string -> option A)
    (codes : list string) :
  firstFound lookup codes = None ->
  forall searchCode, In searchCode codes -> lookup searchCode = None.
Proof.
  induction codes as [|c codes IH]; simpl; [intros _ sc []|].
  destruct (lookup c) as [y|] eqn:E; [discriminate|].
  intros Hn sc [<-|Hin]; [exact E|exact (IH Hn sc Hin)].
Qed.

(** The three steps of [findEquipamientoByCodigo], by what they answer. *)
Lemma findEquipamientoByCodigo_cases
    (codigoSIVICC station : string) (parsed : object) (st : state) :
  parseSIVICCCode codigoSIVICC = Some parsed ->
  get "estacion" parsed = Some station ->
  let cache := loadEquipamientos st in
  let ofStation e := startsWith (toUpperCase (codigoEstacionCAI e)) station in
  let namesStation e := includes (toUpperCase (codigoEstacionCAI e)) station in
  match fst (findEquipamientoByCodigo codigoSIVICC st) with
  | Some found =>
      (In found (cachedCAIs cache) /\ ofStation found = true)
      \/ ((forall c, In c (cachedCAIs cache) -> ofStation c = false)
          /\ In found (cachedEstaciones cache)
          /\ namesStation found = true)
  | None =>
      (forall c, In c (cachedCAIs cache) -> ofStation c = false)
      /\ (forall e, In e (cachedEstaciones cache) -> namesStation e = false)
  end.
Proof.
  intros Hparse Hst cache ofStation namesStation.
  destruct (searchCodes_shape _ _ _ Hparse Hst) as [Hlast Hcodes].
  destruct (sivicc_parse_station _ _ Hparse)
    as (station' & Hst' & Hstation & _ & _).
  rewrite Hst in Hst'. injection Hst' as <-.
  assert (Hne : truthy (Some station) = true).
  { destruct station; [discriminate Hstation|reflexivity]. }
  unfold findEquipamientoByCodigo. cbv zeta. fold cache. rewrite Hparse.
  destruct (firstFound (exactCAI (cachedCAIs cache)) (searchCodes parsed))
    as [found|] eqn:Hexact.
  { cbn [fst]. left.
    apply firstFound_some in Hexact as (searchCode & Hin & Hfind).
    apply List.find_some in Hfind as [Hcached Heq].
    split; [exact Hcached|].
    apply String.eqb_eq in Heq.
    destruct (Hcodes searchCode Hin) as (Hup & rest & Hrest).
    subst ofStation. cbv beta. rewrite Heq, Hup, Hrest.
    apply startsWith_append. }
  unfold byStation. rewrite Hst, Hne. cbn [str].
  destruct (List.filter _ (cachedCAIs cache)) as [|first others] eqn:Hfilter.
  - assert (Hnone : forall c, In c (cachedCAIs cache) -> ofStation c = false).
    { intros c Hin. destruct (ofStation c) eqn:E; [|reflexivity].
      assert (Hf : In c (List.filter
                 (fun cai => startsWith (toUpperCase (codigoEstacionCAI cai)) station)
                 (cachedCAIs cache)))
        by (apply List.filter_In; split; assumption).
      rewrite Hfilter in Hf. destruct Hf. }
    cbn [fst].
    destruct (firstFound (estacionFor (cachedEstaciones cache)) (searchCodes parsed))
      as [found|] eqn:Hest.
    + right. split; [exact Hnone|].
      apply firstFound_some in Hest as (searchCode & Hin & Hfind).
      apply List.find_some in Hfind as [Hcached Hinc].
      split; [exact Hcached|].
      destruct (Hcodes searchCode Hin) as (Hup & rest & Hrest).
      rewrite Hup, Hrest in Hinc.
      subst namesStation. cbv beta. eapply includes_shorter. exact Hinc.
    + split; [exact Hnone|].
      intros e Hin.
      pose proof (firstFound_none _ _ Hest station Hlast) as Hno.
      unfold estacionFor in Hno.
      pose proof (List.find_none _ _ Hno e Hin) as He. cbv beta in He.
      rewrite (toUpperCase_code station (station_is_code _ Hstation)) in He.
      exact He.
  - assert (Hall : forall c, In c (first :: others) ->
                             In c (cachedCAIs cache) /\ ofStation c = true).
    { intros c Hin. rewrite <- Hfilter in Hin.
      apply List.filter_In in Hin. exact Hin. }
    destruct (truthy (get "cai" parsed)).
    + destruct (List.find _ (first :: others)) as [found|] eqn:Hfind; cbn [fst];
        left; apply Hall.
      * apply List.find_some in Hfind. apply Hfind.
      * left. reflexivity.
    + cbn [fst]. left. apply Hall. left. reflexivity.
Qed.

(** X13. A code lookup in the SDSCJ layers prefers the CAIs: whenever the
    key of some cached CAI starts with the station of the code, the answer
    is a cached CAI whose key starts with that station. A police station
    is answered only when no CAI key starts with the station of the code,
    and its key then contains the station; nothing is answered only when
    neither layer holds such a key. *)
Theorem code_lookup_prefers_a_cai_of_the_station
    (codigoSIVICC station : string) (parsed : object) (st : state) :
  parseSIVICCCode codigoSIVICC = Some parsed ->
  get "estacion" parsed = Some station ->
  let cache := loadEquipamientos st in
  let ofStation e := startsWith (toUpperCase (codigoEstacionCAI e)) station in
  let namesStation e := includes (toUpperCase (codigoEstacionCAI e)) station in
  match fst (findEquipamientoByCodigo codigoSIVICC st) with
  | Some found =>
      (In found (cachedCAIs cache) /\ ofStation found = true)
      \/ ((forall c, In c (cachedCAIs cache) -> ofStation c = false)
          /\ In found (cachedEstaciones cache)
          /\ namesStation found = true)
  | None =>
      (forall c, In c (cachedCAIs cache) -> ofStation c = false)
      /\ (forall e, In e (cachedEstaciones cache) -> namesStation e = false)
  end.
Proof. exact (findEquipamientoByCodigo_cases codigoSIVICC station parsed st). Qed.

Lemma startsWith_includes (s p : string) :
  startsWith s p = true -> includes s p = true.
Proof. intros Hs. rewrite includes_unfold, Hs. reflexivity. Qed.

(** X14. Whenever [getEstacionFromSDSCJ] answers a police station for a
    code, [findEquipamientoByCodigo] answers an equipment for the same
    code from the same caches; and the station answered is a cached
    station whose key starts with the station of the code. *)
Theorem a_station_found_means_an_equipment_found
    (codigoCuadrante : string) (st : state) (estacion : SDSCJEquipamiento) :
  fst (getEstacionFromSDSCJ codigoCuadrante st) = Some estacion ->
  In estacion (cachedEstaciones (loadEquipamientos st))
  /\ (exists parsed station,
        parseSIVICCCode codigoCuadrante = Some parsed
        /\ get "estacion" parsed = Some station
        /\ startsWith (toUpperCase (codigoEstacionCAI estacion)) station = true)
  /\ exists found,
       fst (findEquipamientoByCodigo codigoCuadrante st) = Some found.
Proof.
  unfold getEstacionFromSDSCJ. cbv zeta.
  destruct (parseSIVICCCode codigoCuadrante) as [parsed|] eqn:Hparse;
    [|discriminate].
  destruct (sivicc_parse_station _ _ Hparse) as (station & Hst & _).
  rewrite Hst. cbn [str].
  destruct (truthy (Some station)); [|discriminate].
  cbn [fst]. intros Hfind. apply List.find_some in Hfind as [Hin Hstarts].
  split; [exact Hin|].
  split; [exists parsed, station; auto|].
  pose proof (findEquipamientoByCodigo_cases _ _ _ st Hparse Hst) as Hcases.
  cbv zeta in Hcases.
  destruct (fst (findEquipamientoByCodigo codigoCuadrante st)) as [found|];
    [exists found; reflexivity|].
  destruct Hcases as [_ Hno].
  specialize (Hno estacion Hin).
  rewrite (startsWith_includes _ _ Hstarts) in Hno. discriminate Hno.
Qed.

Lemma findEquipamientoByCodigo_state (codigo : string) (st : state) :
  snd (findEquipamientoByCodigo codigo st) = loadEquipamientos st.
Proof.
  unfold findEquipamientoByCodigo. cbv zeta.
  destruct (parseSIVICCCode codigo) as [parsed|]; [|reflexivity].
  destruct (firstFound _ _); [reflexivity|].
  destruct (byStation _ _); reflexivity.
Qed.

Lemma findEquipamientoByCodigo_cached (codigo : string) (st : state)
    (found : SDSCJEquipamiento) :
  fst (findEquipamientoByCodigo codigo st) = Some found ->
  In found (cachedCAIs (loadEquipamientos st))
  \/ In found (cachedEstaciones (loadEquipamientos st)).
Proof.
  intros Hfound.
  destruct (parseSIVICCCode codigo) as [parsed|] eqn:Hparse.
  - destruct (sivicc_parse_station _ _ Hparse) as (station & Hst & _).
    pose proof (findEquipamientoByCodigo_cases _ _ _ st Hparse Hst) as Hcases.
    cbv zeta in Hcases. rewrite Hfound in Hcases.
    destruct Hcases as [[Hin _]|(_ & Hin & _)]; auto.
  - unfold findEquipamientoByCodigo in Hfound. cbv zeta in Hfound.
    rewrite Hparse in Hfound. discriminate Hfound.
Qed.

(** X15. [getCAIFromSDSCJ] answers null exactly when the code lookup finds
    nothing and either no fallback position is given or no cached CAI lies
    within 2 km of it. What it answers is the position and name of a
    cached equipment; when it comes from the fallback position it is a
    CAI, never a police station, and no cached CAI is nearer. *)
Theorem sdscj_answer_is_by_code_then_by_position
    (codigoCuadrante : string) (fallbackLocation : option LatLng) (st : state) :
  let byCode := fst (findEquipamientoByCodigo codigoCuadrante st) in
  let cache := loadEquipamientos (loadEquipamientos st) in
  let dist l c :=
    haversineDistance (fallback_lat l) (fallback_lng l) (latitud c) (longitud c) in
  match fst (getCAIFromSDSCJ codigoCuadrante fallbackLocation st) with
  | Some answer =>
      (exists e, byCode = Some e /\ answer = locationOf e)
      \/ (byCode = None
          /\ exists l e,
               fallbackLocation = Some l
               /\ answer = locationOf e
               /\ In e (cachedCAIs cache)
               /\ leb (dist l e) (Finite 2) = true
               /\ forall c, In c (cachedCAIs cache) ->
                            ltb (dist l c) (dist l e) = false)
  | None =>
      byCode = None
      /\ forall l, fallbackLocation = Some l ->
           forall c, In c (cachedCAIs cache) -> leb (dist l c) (Finite 2) = false
  end.
Proof.
  intros byCode cache dist. subst byCode.
  unfold getCAIFromSDSCJ.
  pose proof (findEquipamientoByCodigo_state codigoCuadrante st) as Hstate.
  destruct (findEquipamientoByCodigo codigoCuadrante st) as [[e|] st1];
    cbn [fst snd] in *.
  { left. exists e. auto. }
  subst st1.
  destruct fallbackLocation as [l|]; cbn [fst];
    [|split; [reflexivity|discriminate]].
  unfold findEquipamientoByLocation. cbv zeta. fold cache.
  change (default (Finite 2) None) with (Finite 2).
  destruct (nearest_loop SDSCJEquipamiento (dist l) (Finite 2)
              (nearer (fallback_lat l) (fallback_lng l) (Finite 2))
              ltac:(intros acc x; reflexivity) eq_refl (cachedCAIs cache))
    as [Hsome Hnone].
  cbv zeta in Hsome, Hnone.
  destruct (fst (fold_left _ (cachedCAIs cache) (None, Infinity))) as [e|];
    cbn [fst].
  - right. split; [reflexivity|].
    destruct (Hsome e eq_refl) as (Hin & Hmax & Hmin).
    exists l, e. auto.
  - split; [reflexivity|]. intros l' [= <-]. apply Hnone. reflexivity.
Qed.

End EquipmentByCode.

(** ** The SDSCJ caches *)

Section EquipmentCaches.

Import BogotaSDSCJService.
Context `{Remote}.

Lemma loadEquipamientos_step (st : state) :
  (cachedCAIs st <> [] -> cachedCAIs (loadEquipamientos st) <> [])
  /\ (cachedEstaciones st <> [] -> cachedEstaciones (loadEquipamientos st) <> [])
  /\ ((equipamientosLoaded st = true
       <-> cachedCAIs st <> [] \/ cachedEstaciones st <> []) ->
      (equipamientosLoaded (loadEquipamientos st) = true
       <-> cachedCAIs (loadEquipamientos st) <> []
           \/ cachedEstaciones (loadEquipamientos st) <> []))
  /\ (calls (loadEquipamientos st) = calls st
      \/ calls (loadEquipamientos st)
         = calls st ++ [LoadCAIsFromSDSCJ; LoadEstacionesFromSDSCJ]).
Proof.
  unfold loadEquipamientos, await. cbv zeta.
  destruct (_ && _); [repeat split; auto; tauto|].
  cbn.
  destruct (loadCAIsFromSDSCJ (net st)) as [cais n1]. cbn.
  destruct (loadEstacionesFromSDSCJ n1) as [estaciones n2]. cbn.
  split; [|split; [|split]].
  - destruct cais; cbn; [auto|discriminate].
  - destruct estaciones; cbn; [auto|discriminate].
  - intros _.
    destruct cais as [|c cais], estaciones as [|e estaciones]; cbn;
      destruct (cachedCAIs st) as [|c0 l0], (cachedEstaciones st) as [|e0 m0];
      cbn; split; intros Hx; try reflexivity; try discriminate Hx;
      try (left; discriminate); try (right; discriminate);
      destruct Hx as [Hx|Hx]; congruence.
  - right. rewrite <- app_assoc. reflexivity.
Qed.

(** X16. Through any series of loads from the empty caches of a fresh
    page, whatever the two layers answer, the loaded flag is set exactly
    when one of the two caches holds data, so the statistics report
    [loaded] exactly when their total is positive; and the two layers are
    always requested together, CAIs first. *)
Theorem sdscj_loaded_flag_tracks_the_caches (moves : list (Net -> Net))
    (n : Net) :
  let st := loadRepeatedly moves (initial n) in
  let stats := fst (getSDSCJStats st) in
  (equipamientosLoaded st = true
   <-> cachedCAIs st <> [] \/ cachedEstaciones st <> [])
  /\ loaded stats = (0 <? total stats)%nat
  /\ total stats = (cais stats + estaciones stats)%nat
  /\ exists rounds : nat,
       calls st
       = concat (repeat [LoadCAIsFromSDSCJ; LoadEstacionesFromSDSCJ] rounds).
Proof.
  assert (Hinv : forall ms st,
    (equipamientosLoaded st = true
     <-> cachedCAIs st <> [] \/ cachedEstaciones st <> []) ->
    (equipamientosLoaded (loadRepeatedly ms st) = true
     <-> cachedCAIs (loadRepeatedly ms st) <> []
         \/ cachedEstaciones (loadRepeatedly ms st) <> [])).
  { induction ms as [|f ms IH]; intros st Hst; simpl; [exact Hst|].
    apply IH. destruct (loadEquipamientos_step (elapse f st)) as (_ & _ & Hk & _).
    apply Hk. exact Hst. }
  assert (Hcalls : forall ms st,
    (exists rounds, calls st
       = concat (repeat [LoadCAIsFromSDSCJ; LoadEstacionesFromSDSCJ] rounds)) ->
    exists rounds, calls (loadRepeatedly ms st)
       = concat (repeat [LoadCAIsFromSDSCJ; LoadEstacionesFromSDSCJ] rounds)).
  { induction ms as [|f ms IH]; intros st Hst; simpl; [exact Hst|].
    apply IH. destruct Hst as [rounds Hr].
    destruct (loadEquipamientos_step (elapse f st)) as (_ & _ & _ & [Hc|Hc]);
      rewrite Hc; cbn [elapse calls]; rewrite Hr.
    - exists rounds. reflexivity.
    - exists (S rounds).
      replace (S rounds) with (rounds + 1)%nat by lia.
      rewrite repeat_app, concat_app. reflexivity. }
  intros st stats.
  assert (Hst : equipamientosLoaded st = true
                <-> cachedCAIs st <> [] \/ cachedEstaciones st <> []).
  { apply Hinv. cbn. split; [discriminate|intros [E|E]; congruence]. }
  split; [exact Hst|].
  destruct (loadEquipamientos_step st) as (_ & _ & Hk & _).
  specialize (Hk Hst).
  split; [|split; [reflexivity|]].
  - subst stats. unfold getSDSCJStats. cbn [fst loaded total].
    destruct (cachedCAIs (loadEquipamientos st)) as [|c l],
             (cachedEstaciones (loadEquipamientos st)) as [|e m];
      destruct (equipamientosLoaded (loadEquipamientos st)); cbn;
      try reflexivity; exfalso.
    + destruct Hk as [Hk _]. destruct (Hk eq_refl) as [E|E]; congruence.
    + destruct Hk as [_ Hk]. specialize (Hk ltac:(right; discriminate)).
      discriminate Hk.
    + destruct Hk as [_ Hk]. specialize (Hk ltac:(left; discriminate)).
      discriminate Hk.
    + destruct Hk as [_ Hk]. specialize (Hk ltac:(left; discriminate)).
      discriminate Hk.
  - apply Hcalls. exists 0%nat. reflexivity.
Qed.

(** X17. Each SDSCJ layer keeps its data on its own: a cache of CAIs that
    holds data keeps holding data through any series of loads, and so
    does a cache of stations, whatever the other layer does. *)
Theorem sdscj_layers_never_empty (moves : list (Net -> Net)) (st : state) :
  (cachedCAIs st <> [] -> cachedCAIs (loadRepeatedly moves st) <> [])
  /\ (cachedEstaciones st <> [] ->
      cachedEstaciones (loadRepeatedly moves st) <> []).
Proof.
  revert st. induction moves as [|f moves IH]; intros st; simpl; [auto|].
  destruct (loadEquipamientos_step (elapse f st)) as (HC & HE & _).
  destruct (IH (loadEquipamientos (elapse f st))) as [IHC IHE].
  split; intros Hne; [apply IHC, HC|apply IHE, HE]; exact Hne.
Qed.

End EquipmentCaches.


(** ** The directory grouped by CAI *)

Section Grouping.

Import SodaService.
Context `{Remote}.

Lemma keys_push (caiKey : string) (c : Cuadrante) (caiMap : CAIMap) :
  map fst (push caiKey c caiMap) = map fst caiMap.
Proof.
  induction caiMap as [|[k v] m IH]; simpl; [reflexivity|].
  destruct (String.eqb k caiKey); simpl; [reflexivity|].
  rewrite IH. reflexivity.
Qed.

Lemma lookup_push_other (caiKey other : string) (c : Cuadrante)
    (caiMap : CAIMap) :
  caiKey <> other ->
  lookup other (push caiKey c caiMap) = lookup other caiMap.
Proof.
  intros Hne. induction caiMap as [|[k v] m IH]; simpl; [reflexivity|].
  destruct (String.eqb k caiKey) eqn:E; simpl.
  - apply String.eqb_eq in E. subst k.
    destruct (String.eqb caiKey other) eqn:E'; [|reflexivity].
    apply String.eqb_eq in E'. contradiction.
  - rewrite IH. reflexivity.
Qed.

Lemma lookup_push_same (caiKey : string) (c : Cuadrante) (caiMap : CAIMap) :
  lookup caiKey (push caiKey c caiMap)
  = match lookup caiKey caiMap with
    | Some v =>
        Some {| nombre := nombre v;
                estacionPadre := estacionPadre v;
                departamento' := departamento' v;
                municipio := municipio v;
                cuadrantes := cuadrantes v ++ [c];
                codigoEstacion := codigoEstacion v;
                codigoCAI := codigoCAI v |}
    | None => None
    end.
Proof.
  induction caiMap as [|[k v] m IH]; simpl; [reflexivity|].
  destruct (String.eqb k caiKey) eqn:E; simpl; rewrite E; [reflexivity|].
  exact IH.
Qed.

Lemma lookup_new (caiKey other : string) (e : CAIConCuadrantes)
    (caiMap : CAIMap) :
  lookup other (caiMap ++ [(caiKey, e)])
  = match lookup other caiMap with
    | Some v => Some v
    | None => if String.eqb caiKey other then Some e else None
    end.
Proof.
  induction caiMap as [|[k v] m IH]; simpl; [reflexivity|].
  destruct (String.eqb k other); [reflexivity|exact IH].
Qed.

Lemma has_lookup (caiKey : string) (caiMap : CAIMap) :
  has caiKey caiMap = match lookup caiKey caiMap with
                      | Some _ => true
                      | None => false
                      end.
Proof.
  unfold has. induction caiMap as [|[k v] m IH]; simpl; [reflexivity|].
  destruct (String.eqb k caiKey); [reflexivity|exact IH].
Qed.

Lemma has_In (caiKey : string) (caiMap : CAIMap) :
  has caiKey caiMap = false -> ~ In caiKey (map fst caiMap).
Proof.
  unfold has. induction caiMap as [|[k v] m IH]; simpl; [tauto|].
  destruct (String.eqb k caiKey) eqn:E; [discriminate|].
  intros Hm [Hk|Hk]; [|exact (IH Hm Hk)].
  apply String.eqb_neq in E. contradiction.
Qed.

Lemma quadrants_push (caiKey : string) (c : Cuadrante) (caiMap : CAIMap) :
  has caiKey caiMap = true ->
  list_sum (map (fun entry => length (cuadrantes (snd entry)))
                (push caiKey c caiMap))
  = S (list_sum (map (fun entry => length (cuadrantes (snd entry))) caiMap)).
Proof.
  unfold has. induction caiMap as [|[k v] m IH]; simpl; [discriminate|].
  destruct (String.eqb k caiKey); simpl.
  - intros _. rewrite length_app. simpl. lia.
  - intros Hm. rewrite (IH Hm). lia.
Qed.

(** The loop of [agruparCuadrantesPorCAI] over the records [directorio],
    having grouped the records [seen]. *)
Lemma agrupar_loop (directorio seen : list DirectorioCuadrante)
    (caiMap : CAIMap) :
  NoDup (map fst caiMap) ->
  (forall caiKey, lookup caiKey caiMap = groupOf (membersOf caiKey seen)) ->
  list_sum (map (fun entry => length (cuadrantes (snd entry))) caiMap)
  = length seen ->
  let grouped := fold_left agrupar directorio caiMap in
  NoDup (map fst grouped)
  /\ (forall caiKey,
        lookup caiKey grouped = groupOf (membersOf caiKey (seen ++ directorio)))
  /\ list_sum (map (fun entry => length (cuadrantes (snd entry))) grouped)
     = length (seen ++ directorio).
Proof.
  revert seen caiMap.
  induction directorio as [|registro directorio IH];
    intros seen caiMap Hkeys Hgroups Hsum; cbv zeta.
  { rewrite app_nil_r. auto. }
  replace (seen ++ registro :: directorio)
    with ((seen ++ [registro]) ++ directorio)
    by (rewrite <- app_assoc; reflexivity).
  cbn [fold_left]. apply IH.
  - unfold agrupar. cbv zeta. rewrite keys_push.
    destruct (has (caiKeyOf registro) caiMap) eqn:Hhas; cbn [negb]; [exact Hkeys|].
    rewrite map_app. cbn [map fst].
    apply NoDup_app. split; [exact Hkeys|]. split.
    + intros k Hk Hin. apply list_elem_of_singleton in Hin. subst k.
      apply list_elem_of_In in Hk. exact (has_In _ _ Hhas Hk).
    + apply NoDup_singleton.
  - intros caiKey. unfold membersOf. rewrite List.filter_app. cbn [List.filter].
    fold (membersOf caiKey seen).
    pose proof (Hgroups caiKey) as Hk.
    pose proof (Hgroups (caiKeyOf registro)) as Hr.
    unfold agrupar. cbv zeta. rewrite has_lookup.
    destruct (String.eqb (caiKeyOf registro) caiKey) eqn:E.
    + apply String.eqb_eq in E. subst caiKey.
      rewrite lookup_push_same.
      destruct (lookup (caiKeyOf registro) caiMap) as [v|] eqn:Hl; cbn [negb].
      * rewrite Hl.
        destruct (membersOf (caiKeyOf registro) seen) as [|first rest];
          [discriminate Hk|].
        injection Hk as ->. cbn. rewrite map_app. reflexivity.
      * rewrite lookup_new, Hl, String.eqb_refl.
        destruct (membersOf (caiKeyOf registro) seen) as [|first rest];
          [|discriminate Hk].
        reflexivity.
    + apply String.eqb_neq in E. rewrite app_nil_r.
      rewrite lookup_push_other by exact E.
      destruct (lookup (caiKeyOf registro) caiMap) as [v|]; cbn [negb];
        [exact Hk|].
      rewrite lookup_new.
      destruct (lookup caiKey caiMap) as [w|]; [exact Hk|].
      apply String.eqb_neq in E. rewrite E. exact Hk.
  - unfold agrupar. cbv zeta.
    rewrite length_app. cbn [length].
    destruct (has (caiKeyOf registro) caiMap) eqn:Hhas; cbn [negb].
    + rewrite quadrants_push by exact Hhas. lia.
    + rewrite quadrants_push.
      * rewrite map_app, list_sum_app. cbn. lia.
      * unfold has. rewrite existsb_app. cbn. rewrite String.eqb_refl.
        apply orb_true_r.
Qed.

(** X18. [agruparCuadrantesPorCAI] partitions the cached directory: the
    keys of the map are distinct; under each key the map holds the group
    of the records whose trimmed, upper-cased CAI name is the key, headed
    by the first of them, with one quadrant for each record in the order
    of the directory; a key that no record has is absent; and the groups
    together hold as many quadrants as the directory holds records. *)
Theorem grouping_by_cai_partitions_the_directory (st : state) :
  let directorio := cachedDirectorio (loadDirectorio st) in
  let caiMap := fst (agruparCuadrantesPorCAI st) in
  NoDup (map fst caiMap)
  /\ (forall caiKey,
        lookup caiKey caiMap = groupOf (membersOf caiKey directorio))
  /\ list_sum (map (fun entry => length (cuadrantes (snd entry))) caiMap)
     = length directorio
  /\ snd (agruparCuadrantesPorCAI st) = loadDirectorio st.
Proof.
  intros directorio caiMap. subst caiMap. unfold agruparCuadrantesPorCAI.
  cbv zeta. cbn [fst snd]. fold directorio.
  destruct (agrupar_loop directorio [] []) as (Hkeys & Hgroups & Hsum).
  - constructor.
  - intros caiKey. reflexivity.
  - reflexivity.
  - cbv zeta in Hkeys, Hgroups, Hsum. cbn [app] in Hgroups, Hsum. auto.
Qed.

End Grouping.

(** ** Searching the directory *)

Section DirectorySearch.

Import SodaService.
Context `{Remote}.

Lemma soda_parse_normal_form (code : string) :
  parseSIVICCCode (trim (toUpperCase code)) = parseSIVICCCode code.
Proof.
  unfold parseSIVICCCode. rewrite normalize_idempotent.
  destruct (String.eqb code "") eqn:E.
  - apply String.eqb_eq in E. subst code. reflexivity.
  - destruct (String.eqb (trim (toUpperCase code)) "") eqn:E'; [|reflexivity].
    apply String.eqb_eq in E'. rewrite E'. reflexivity.
Qed.

(** X19. What [findCAIForCuadrante] answers is a cached record whose
    upper-cased code is the normal form of the code asked for, or, when no
    record has that code, one whose code has the same station and the
    same six-digit serial as the code asked for, whatever its unit,
    district and subunit. It answers null exactly when no cached record
    is of either kind. *)
Theorem directory_lookup_is_exact_or_by_station_and_serial
    (codigoCuadrante : string) (st : state) :
  let cached := cachedDirectorio (loadDirectorio st) in
  let exact d :=
    toUpperCase (codigo_cuadrante d) = trim (toUpperCase codigoCuadrante) in
  let partial d :=
    exists station serial,
      station <> "" /\ serial <> ""
      /\ field "estacion" (parseSIVICCCode codigoCuadrante) = Some station
      /\ field "cuadrante" (parseSIVICCCode codigoCuadrante) = Some serial
      /\ field "estacion" (parseSIVICCCode (codigo_cuadrante d)) = Some station
      /\ field "cuadrante" (parseSIVICCCode (codigo_cuadrante d)) = Some serial in
  match fst (findCAIForCuadrante codigoCuadrante st) with
  | Some d =>
      In d cached
      /\ (exact d \/ ((forall d', In d' cached -> ~ exact d') /\ partial d))
  | None => forall d, In d cached -> ~ exact d /\ ~ partial d
  end.
Proof.
  intros cached exact partial.
  unfold findCAIForCuadrante. cbv zeta. cbn [fst]. fold cached.
  unfold searchDirectorio. cbv zeta.
  rewrite soda_parse_normal_form.
  set (normalizedCodigo := trim (toUpperCase codigoCuadrante)) in *.
  set (parsed := parseSIVICCCode codigoCuadrante) in *.
  destruct (List.find _ cached) as [d|] eqn:Hexact.
  { apply List.find_some in Hexact as [Hin Heq].
    split; [exact Hin|]. left. apply String.eqb_eq, Heq. }
  assert (Hnone : forall d', In d' cached -> ~ exact d').
  { intros d' Hin He. pose proof (List.find_none _ _ Hexact d' Hin) as Hn.
    cbv beta in Hn. apply String.eqb_neq in Hn. exact (Hn He). }
  clear Hexact.
  assert (Hsame : forall a b : option string,
    sameField a b = true -> truthy b = true ->
    exists v, v <> "" /\ a = Some v /\ b = Some v).
  { intros [x|] [y|] Hs Ht; try discriminate.
    apply String.eqb_eq in Hs. subst y. exists x.
    split; [|auto]. intros ->. discriminate Ht. }
  destruct (truthy (field "estacion" parsed)) eqn:Hte; cbn [andb].
  - destruct (truthy (field "cuadrante" parsed)) eqn:Htc.
    + destruct (List.find _ cached) as [d|] eqn:Hpartial.
      * apply List.find_some in Hpartial as [Hin Hd].
        split; [exact Hin|]. right. split; [exact Hnone|].
        cbv zeta in Hd. apply andb_true_iff in Hd as [Hd1 Hd2].
        destruct (Hsame _ _ Hd1 Hte) as (station & Hs0 & Hs1 & Hs2).
        destruct (Hsame _ _ Hd2 Htc) as (serial & Hc0 & Hc1 & Hc2).
        exists station, serial. auto 10.
      * intros d Hin. split; [exact (Hnone d Hin)|].
        intros (station & serial & _ & _ & Hs & Hc & Hds & Hdc).
        pose proof (List.find_none _ _ Hpartial d Hin) as Hn.
        cbv zeta beta in Hn. fold parsed in Hs, Hc.
        rewrite Hs, Hc, Hds, Hdc in Hn. cbn in Hn.
        rewrite !String.eqb_refl in Hn. discriminate Hn.
    + intros d Hin. split; [exact (Hnone d Hin)|].
      intros (station & serial & _ & Hne & _ & Hc & _).
      fold parsed in Hc. rewrite Hc in Htc. cbn in Htc.
      destruct serial; [congruence|discriminate Htc].
  - intros d Hin. split; [exact (Hnone d Hin)|].
    intros (station & serial & Hne & _ & Hs & _).
    fold parsed in Hs. rewrite Hs in Hte. cbn in Hte.
    destruct station; [congruence|discriminate Hte].
Qed.

Lemma digitsOnly_append (a b : string) :
  digitsOnly (a +:+ b) = digitsOnly a +:+ digitsOnly b.
Proof.
  induction a as [|c a IH].
  - rewrite !append_empty. reflexivity.
  - rewrite append_cons. simpl. destruct (isDigit c).
    + rewrite append_cons, IH. reflexivity.
    + exact IH.
Qed.

Lemma digitsOnly_numeral (s : string) : isNumeral s = true -> digitsOnly s = s.
Proof.
  induction s as [|c s IH]; simpl; [reflexivity|].
  intros Hs. apply andb_true_iff in Hs as [Hc Hs].
  rewrite Hc, (IH Hs). reflexivity.
Qed.

Lemma digitsOnly_isNumeral (s : string) : isNumeral (digitsOnly s) = true.
Proof.
  induction s as [|c s IH]; simpl; [reflexivity|].
  destruct (isDigit c) eqn:E; [|exact IH]. simpl. rewrite E, IH. reflexivity.
Qed.

(** X20. The phone lookup compares digits only. Every cached record is
    found by its number however the number is written, with any
    characters that are not digits between, before or after its digits:
    the answer is then the first cached record with the same digits. A
    number without any digit finds the first record whose number has
    none. *)
Theorem phone_lookup_compares_digits_only (written : string)
    (d : DirectorioCuadrante) (st : state) :
  let cached := cachedDirectorio (loadDirectorio st) in
  In d cached ->
  digitsOnly written = digitsOnly (numero_celular_cuadrante d) ->
  exists before found after,
    fst (findCuadranteByTelefono written st) = Some found
    /\ cached = before ++ found :: after
    /\ digitsOnly (numero_celular_cuadrante found) = digitsOnly written
    /\ forall earlier, In earlier before ->
         digitsOnly (numero_celular_cuadrante earlier) <> digitsOnly written.
Proof.
  intros cached Hin Hdigits.
  unfold findCuadranteByTelefono. cbv zeta. cbn [fst]. fold cached.
  set (same := fun r : DirectorioCuadrante =>
         String.eqb (digitsOnly (numero_celular_cuadrante r)) (digitsOnly written)).
  assert (Hsplit : forall l,
    (exists r, In r l /\ same r = true) ->
    exists before found after,
      List.find same l = Some found
      /\ l = before ++ found :: after
      /\ same found = true
      /\ forall earlier, In earlier before -> same earlier = false).
  { induction l as [|r l IH]; intros (x & Hx & Hs); [destruct Hx|].
    simpl. destruct (same r) eqn:E.
    - exists [], r, l. repeat split; auto. intros earlier [].
    - destruct IH as (before & found & after & Hf & Hl & Hsf & He).
      + destruct Hx as [<-|Hx]; [congruence|eauto].
      + exists (r :: before), found, after.
        split; [exact Hf|]. split; [rewrite Hl; reflexivity|].
        split; [exact Hsf|]. intros earlier [<-|Hin']; auto. }
  destruct (Hsplit cached) as (before & found & after & Hf & Hl & Hsf & He).
  { exists d. split; [exact Hin|]. subst same. cbv beta.
    rewrite Hdigits. apply String.eqb_refl. }
  exists before, found, after.
  split; [exact Hf|]. split; [exact Hl|].
  split; [apply String.eqb_eq, Hsf|].
  intros earlier Hearlier. apply String.eqb_neq, He, Hearlier.
Qed.

End DirectorySearch.

(** ** The directory cache *)

Section DirectoryCache.

Import SodaService.
Context `{Remote}.

Lemma loadDirectorio_step (st : state) :
  ((directorioLoaded st = true <-> cachedDirectorio st <> []) ->
   (directorioLoaded (loadDirectorio st) = true
    <-> cachedDirectorio (loadDirectorio st) <> []))
  /\ (cachedDirectorio st <> [] -> cachedDirectorio (loadDirectorio st) <> [])
  /\ (cachedDirectorio st = [] -> calls (loadDirectorio st) = calls st ++ [Fetch]).
Proof.
  unfold loadDirectorio, loadDirectorioFromSODA, await. cbv zeta.
  destruct (cachedDirectorio st) as [|d0 l0] eqn:Hc; cbn.
  - destruct (fetch (net st)) as [r n]. cbn.
    destruct (decode r) as [[|d l]|e]; cbn; rewrite ?Hc;
      repeat split; auto; try discriminate; try congruence; try tauto.
  - destruct (_ <? _)%Z; cbn.
    + rewrite Hc. repeat split; auto; try discriminate; try tauto.
    + destruct (fetch (net st)) as [r n]. cbn.
      destruct (decode r) as [[|d l]|e]; cbn; rewrite ?Hc;
        repeat split; auto; try discriminate; try tauto.
Qed.

(** X21. Through any series of loads from the empty cache of a fresh
    page, the loaded flag is set exactly when the directory cache holds
    records; and for as long as the cache is empty nothing throttles the
    loader: every one of the calls made so far has sent a request,
    however short the time between them. *)
Theorem empty_directory_is_refetched_on_every_call
    (moves : list (Net -> Net)) (n : Net) :
  let st := loadRepeatedly moves (initial n) in
  (directorioLoaded st = true <-> cachedDirectorio st <> [])
  /\ (cachedDirectorio st = [] -> calls st = repeat Fetch (length moves)).
Proof.
  assert (Hgen : forall ms st,
    (directorioLoaded st = true <-> cachedDirectorio st <> []) ->
    (directorioLoaded (loadRepeatedly ms st) = true
     <-> cachedDirectorio (loadRepeatedly ms st) <> [])
    /\ (cachedDirectorio (loadRepeatedly ms st) = [] ->
        cachedDirectorio st = []
        /\ calls (loadRepeatedly ms st) = calls st ++ repeat Fetch (length ms))).
  { induction ms as [|f ms IH]; intros st Hst; simpl.
    - split; [exact Hst|]. intros E. rewrite app_nil_r. auto.
    - destruct (loadDirectorio_step (elapse f st)) as (Hflag & Hkeep & Hfetch).
      destruct (IH (loadDirectorio (elapse f st)) (Hflag Hst)) as [Hf Hempty].
      split; [exact Hf|]. intros E.
      destruct (Hempty E) as [E1 Hcalls].
      assert (E0 : cachedDirectorio st = []).
      { destruct (cachedDirectorio st) as [|d l] eqn:Hc; [reflexivity|].
        exfalso. apply Hkeep; [cbn; rewrite Hc; discriminate|exact E1]. }
      split; [exact E0|].
      rewrite Hcalls, Hfetch by exact E0. cbn [elapse calls].
      rewrite <- app_assoc. reflexivity. }
  intros st.
  destruct (Hgen moves (initial n)) as [Hflag Hempty].
  { cbn. split; [discriminate|congruence]. }
  split; [exact Hflag|].
  intros E. destruct (Hempty E) as [_ Hcalls]. exact Hcalls.
Qed.

End DirectoryCache.

(** ** The matcher, with the groups it binds *)

Section MatcherGroups.

(** Whenever the matcher succeeds, it has handed to its continuation the
    rest of the subject after a word the pattern matches there, and the
    groups as that match binds them. *)
Lemma exec_parses (r : regex) :
  forall (A : Type) (pos : nat) (s : string) (m : captures)
         (k : nat -> string -> captures -> option A) (x : A),
    exec r pos s m k = Some x ->
    exists w s' m',
      s = w +:+ s'
      /\ parses r pos w s' m m'
      /\ k (pos + String.length w)%nat s' m' = Some x.
Proof.
  induction r as [| |c|cl|r1 IH1 r2 IH2|r1 IH1 r2 IH2|r1 IH1|n r1 IH1|j r1 IH1];
    intros A pos s m k x H.
  - simpl in H. destruct (pos =? 0)%nat eqn:E; [|discriminate].
    apply Nat.eqb_eq in E.
    exists "", s, m. rewrite Nat.add_0_r. simpl. repeat split; auto.
  - simpl in H. destruct s; [|discriminate].
    exists "", "", m. rewrite Nat.add_0_r. simpl. repeat split; auto.
  - simpl in H. destruct s as [|a s]; [discriminate|].
    destruct (Ascii.eqb a c) eqn:E; [|discriminate].
    apply Ascii.eqb_eq in E. subst a.
    exists (String c ""), s, m. rewrite Nat.add_1_r. simpl. repeat split; auto.
  - simpl in H. destruct s as [|a s]; [discriminate|].
    destruct (in_class cl a) eqn:E; [|discriminate].
    exists (String a ""), s, m. rewrite Nat.add_1_r. simpl. repeat split; eauto.
  - simpl in H.
    apply IH1 in H as (w1 & s1 & m1 & -> & Hw1 & H).
    apply IH2 in H as (w2 & s2 & m2 & -> & Hw2 & H).
    exists (w1 +:+ w2), s2, m2.
    rewrite length_append, Nat.add_assoc, append_assoc.
    split; [reflexivity|]. split; [|exact H].
    simpl. exists w1, w2, m1. repeat split; auto.
  - simpl in H. destruct (exec r1 pos s m k) as [y|] eqn:E.
    + injection H as ->.
      apply IH1 in E as (w & s' & m' & -> & Hw & H).
      exists w, s', m'. simpl. repeat split; auto.
    + apply IH2 in H as (w & s' & m' & -> & Hw & H).
      exists w, s', m'. simpl. repeat split; auto.
  - simpl in H. destruct (exec r1 pos s m k) as [y|] eqn:E.
    + injection H as ->.
      apply IH1 in E as (w & s' & m' & -> & Hw & H).
      exists w, s', m'. simpl. repeat split; auto.
    + exists "", s, m. rewrite Nat.add_0_r. simpl. repeat split; auto.
  - revert pos s m H. induction n as [|n IHn]; intros pos s m H.
    + simpl in H. exists "", s, m. rewrite Nat.add_0_r. simpl. repeat split; auto.
    + change (exec r1 pos s m
                (fun pos' s' m' => exec (Rep n r1) pos' s' m' k) = Some x) in H.
      apply IH1 in H as (w1 & s1 & m1 & -> & Hw1 & H).
      apply IHn in H as (w2 & s2 & m2 & -> & Hw2 & H).
      exists (w1 +:+ w2), s2, m2.
      rewrite length_append, Nat.add_assoc, append_assoc.
      split; [reflexivity|]. split; [|exact H].
      simpl. exists w1, w2, m1. repeat split; auto.
  - simpl in H.
    apply IH1 in H as (w & s' & m' & -> & Hw & H).
    rewrite consumed_append in H.
    exists w, s', ((j, w) :: m'). simpl. repeat split; eauto.
Qed.

(** A match of a pattern that starts with [^]: the subject is the matched
    word and a rest, and the groups are the ones that match binds. *)
Lemma anchored_match_parses (r : regex) (s : string) (m : captures) :
  regex_match s (Cat Bol r) = Some m ->
  exists w t m',
    s = w +:+ t /\ parses r 0 w t [] m' /\ m = (0%nat, w) :: m'.
Proof.
  rewrite anchored_match. unfold match_here. intros E.
  apply exec_parses in E as (w & t & m' & -> & Hw & H).
  rewrite consumed_append in H. injection H as <-.
  simpl in Hw. destruct Hw as (w1 & w2 & m1 & -> & (_ & -> & ->) & Hw).
  rewrite append_empty in *. exists w2, t, m'. auto.
Qed.

(** The word of a match is a word of the pattern. *)
Lemma parses_matches (r : regex) :
  forall pos w rest m m', parses r pos w rest m m' -> matches r w.
Proof.
  induction r as [| |c|cl|r1 IH1 r2 IH2|r1 IH1 r2 IH2|r1 IH1|n r1 IH1|j r1 IH1];
    intros pos w rest m m' H; simpl in *.
  - tauto.
  - tauto.
  - tauto.
  - destruct H as (a & Ha & -> & _). eauto.
  - destruct H as (w1 & w2 & m1 & -> & H1 & H2). exists w1, w2. eauto.
  - destruct H as [H|H]; eauto.
  - destruct H as [[-> _]|H]; eauto.
  - revert pos w m H. induction n as [|n IHn]; intros pos w m H.
    + tauto.
    + destruct H as (w1 & w2 & m1 & -> & H1 & H2). exists w1, w2.
      split; [reflexivity|]. split; [eapply IH1; exact H1|].
      eapply IHn; exact H2.
  - destruct H as (m1 & H & _). eauto.
Qed.

End MatcherGroups.

(** ** The grammar of the directory service against the SDSCJ grammar *)

Section TwoGrammars.

Import BogotaSDSCJService.

Lemma sivicc_reads_normal_form (code : string) :
  parseSIVICCCode code = parseSIVICCCode (trim (toUpperCase code)).
Proof.
  unfold parseSIVICCCode. rewrite normalize_idempotent.
  destruct (String.eqb code "") eqn:E.
  - apply String.eqb_eq in E. subst code. reflexivity.
  - destruct (String.eqb (trim (toUpperCase code)) "") eqn:E'; [|reflexivity].
    apply String.eqb_eq in E'. rewrite E'. reflexivity.
Qed.

(** What the pattern of the directory service matches: a code written out
    from its segments, with the marker MNVCC, each group holding its
    segment. *)
Lemma soda_match_shape (n : string) (m : captures) :
  regex_match n SodaService.siviccRe = Some m ->
  optionally isUnit (capture 1 m) = true
  /\ optionally isDistrict (capture 2 m) = true
  /\ (exists station, capture 3 m = Some station /\ isStation station = true)
  /\ optionally isSubunit (capture 4 m) = true
  /\ optionally isSerial (capture 5 m) = true
  /\ n = fullForm (capture 1 m) true (capture 2 m) (default "" (capture 3 m))
                  (capture 4 m) (capture 5 m).
Proof.
  intros E.
  change SodaService.siviccRe
    with (Cat Bol (seq [Opt (Group 1 (Rep 5 (Class UpperAZ)));
                        lit "MNVCC";
                        Opt (Group 2 (seq [Class (OneOf "CDS"); Rep 2 (Class Digit)]));
                        Group 3 (seq [Lit "E"; Rep 2 (Class Digit)]);
                        Opt (Group 4 (Alt (seq [Lit "C"; Rep 2 (Class Digit)])
                                          (seq [Lit "S"; Rep 2 (Class Digit)])));
                        Opt (Group 5 (Rep 6 (Class Digit)));
                        Eol])) in E.
  apply anchored_match_parses in E as (w & t & m' & -> & Hw & ->).
  cbn [parses seq lit] in Hw.
  take_apart; subst.
  all: cbv beta iota zeta delta [String.append fullForm default from_option id].
  all: cbn [capture Nat.eqb optionally isUnit isDistrict isStation isSubunit isSerial].
  all: cbn [in_class] in *.
  all: repeat split; try (eexists; split; [reflexivity|]);
       cbn [isStation];
       repeat match goal with E : _ = true |- _ => rewrite E; clear E end;
       reflexivity.
Qed.

(** X22. Every code the parser of the directory service accepts, the
    parser of the SDSCJ service accepts too, and the two parses hold the
    same district, station, subunit and serial. They hold the same unit
    when the code has one; for a code without a unit the SDSCJ parser
    takes the marker MNVCC for the unit and reports no model. *)
Theorem directory_codes_parse_alike_in_both_services
    (code : string) (parsed : object) :
  SodaService.parseSIVICCCode code = Some parsed ->
  exists sdscj,
    parseSIVICCCode code = Some sdscj
    /\ get "estacion" parsed <> None
    /\ get "estacion" sdscj = get "estacion" parsed
    /\ get "cai" sdscj = get "cai" parsed
    /\ get "distrito" sdscj = get "distrito" parsed
    /\ get "cuadrante" sdscj = get "cuadrante" parsed
    /\ get "unidad" sdscj
       = match get "unidad" parsed with
         | Some unit => Some unit
         | None => Some "MNVCC"
         end
    /\ get "modelo" sdscj
       = match get "unidad" parsed with
         | Some _ => Some "MNVCC"
         | None => None
         end.
Proof.
  unfold SodaService.parseSIVICCCode.
  destruct (String.eqb code ""); [discriminate|].
  destruct (regex_match (trim (toUpperCase code)) SodaService.siviccRe)
    as [m|] eqn:Em; [|discriminate].
  intros E. injection E as <-.
  destruct (soda_match_shape _ _ Em)
    as (Hunit & Hdistrict & (station & Hst & Hstation) & Hsub & Hserial & Hform).
  rewrite Hst in Hform. cbn [default from_option id] in Hform.
  destruct (sivicc_of_segments (capture 1 m) true (capture 2 m) station
              (capture 4 m) (capture 5 m) Hunit Hdistrict Hstation Hsub Hserial)
    as (sdscj & Hp & He & Hc & Hd & Hq & Hu & Hm).
  exists sdscj. rewrite sivicc_reads_normal_form, Hform.
  split; [exact Hp|].
  cbn [get String.eqb Ascii.eqb Bool.eqb]. rewrite Hst.
  split; [discriminate|]. auto 10.
Qed.

End TwoGrammars.

(** ** Matching identifiers of quadrants *)

Section QuadrantIds.

Import QuadrantService.

(** What [matchesQuadrantId] compares: the normal forms, and what follows
    their last hyphen. *)
Lemma matchesQuadrantId_spec (a b : string) :
  a <> "" ->
  let suffix s :=
    default "" (or_else (pop (split "-" (toUpperCase (trim s)))) (Some "")) in
  matchesQuadrantId (Some a) b
  = String.eqb (toUpperCase (trim a)) (toUpperCase (trim b))
    || (String.eqb (suffix a) (suffix b) && negb (String.eqb (suffix a) "")).
Proof.
  intros Ha suffix. unfold matchesQuadrantId.
  assert (Ht : truthy (Some a) = true).
  { destruct a; [congruence|reflexivity]. }
  rewrite Ht. cbn [negb]. change (default "" (Some a)) with a.
  cbv zeta. fold (suffix a). fold (suffix b).
  destruct (String.eqb (toUpperCase (trim a)) (toUpperCase (trim b)));
    reflexivity.
Qed.

(** X23. On identifiers that are not empty, [matchesQuadrantId] is
    reflexive, symmetric and transitive: it sorts the identifiers into
    classes, one for each normal form without a hyphen-suffix and one for
    each suffix after the last hyphen, whatever stands before it. *)
Theorem id_matching_is_an_equivalence (a b c : string) :
  a <> "" -> b <> "" ->
  matchesQuadrantId (Some a) a = true
  /\ matchesQuadrantId (Some a) b = matchesQuadrantId (Some b) a
  /\ (matchesQuadrantId (Some a) b = true ->
      matchesQuadrantId (Some b) c = true ->
      matchesQuadrantId (Some a) c = true).
Proof.
  intros Ha Hb.
  rewrite (matchesQuadrantId_spec a a Ha), (matchesQuadrantId_spec a b Ha),
    (matchesQuadrantId_spec b a Hb), (matchesQuadrantId_spec b c Hb),
    (matchesQuadrantId_spec a c Ha).
  cbv zeta.
  set (na := toUpperCase (trim a)). set (nb := toUpperCase (trim b)).
  set (nc := toUpperCase (trim c)).
  set (sa := default "" (or_else (pop (split "-" na)) (Some ""))).
  set (sb := default "" (or_else (pop (split "-" nb)) (Some ""))).
  set (sc := default "" (or_else (pop (split "-" nc)) (Some ""))).
  split; [rewrite String.eqb_refl; reflexivity|].
  split.
  - rewrite (String.eqb_sym na nb), (String.eqb_sym sa sb).
    destruct (String.eqb sb sa) eqn:E; [|reflexivity].
    apply String.eqb_eq in E. rewrite E. reflexivity.
  - intros Hab Hbc.
    assert (Hsab : na = nb \/ (sa = sb /\ sa <> "")).
    { apply orb_true_iff in Hab as [E|E].
      - left. apply String.eqb_eq, E.
      - right. apply andb_true_iff in E as [E1 E2].
        apply String.eqb_eq in E1. apply negb_true_iff, String.eqb_neq in E2.
        auto. }
    assert (Hsbc : nb = nc \/ (sb = sc /\ sb <> "")).
    { apply orb_true_iff in Hbc as [E|E].
      - left. apply String.eqb_eq, E.
      - right. apply andb_true_iff in E as [E1 E2].
        apply String.eqb_eq in E1. apply negb_true_iff, String.eqb_neq in E2.
        auto. }
    apply orb_true_iff.
    destruct Hsab as [Eab|[Eab Hne]], Hsbc as [Ebc|[Ebc Hne']].
    + left. apply String.eqb_eq. congruence.
    + right. assert (Es : sa = sb) by (subst sa sb; rewrite Eab; reflexivity).
      apply andb_true_iff. split.
      * apply String.eqb_eq. congruence.
      * apply negb_true_iff, String.eqb_neq. congruence.
    + right. assert (Es : sb = sc) by (subst sb sc; rewrite Ebc; reflexivity).
      apply andb_true_iff. split.
      * apply String.eqb_eq. congruence.
      * apply negb_true_iff, String.eqb_neq. exact Hne.
    + right. apply andb_true_iff. split.
      * apply String.eqb_eq. congruence.
      * apply negb_true_iff, String.eqb_neq. exact Hne.
Qed.

(** X24. The lookup of a CAI location in the offline roster cannot tell
    two identifiers apart that match each other: it gives the same answer
    for both, whatever the roster holds. *)
Theorem roster_lookup_respects_id_matching
    (offlinePersonal : option (list Personal)) (a b : string) :
  a <> "" ->
  matchesQuadrantId (Some a) b = true ->
  findCAILocationFromPersonnel offlinePersonal a
  = findCAILocationFromPersonnel offlinePersonal b.
Proof.
  intros Ha Hab.
  assert (Hsame : forall x, matchesQuadrantId x a = matchesQuadrantId x b).
  { intros [x|]; [|reflexivity].
    destruct (String.eqb x "") eqn:Ex.
    { apply String.eqb_eq in Ex. subst x. reflexivity. }
    apply String.eqb_neq in Ex.
    rewrite (matchesQuadrantId_spec a b Ha) in Hab.
    rewrite (matchesQuadrantId_spec x a Ex), (matchesQuadrantId_spec x b Ex).
    cbv zeta in *.
    set (na := toUpperCase (trim a)) in *. set (nb := toUpperCase (trim b)) in *.
    set (nx := toUpperCase (trim x)) in *.
    set (sa := default "" (or_else (pop (split "-" na)) (Some ""))) in *.
    set (sb := default "" (or_else (pop (split "-" nb)) (Some ""))) in *.
    set (sx := default "" (or_else (pop (split "-" nx)) (Some ""))) in *.
    apply orb_true_iff in Hab as [E|E].
    - apply String.eqb_eq in E.
      assert (Es : sa = sb) by (subst sa sb; rewrite E; reflexivity).
      rewrite E, Es. reflexivity.
    - apply andb_true_iff in E as [E1 E2].
      apply String.eqb_eq in E1. apply negb_true_iff in E2.
      rewrite <- E1.
      destruct (String.eqb sx sa) eqn:Esx.
      + apply String.eqb_eq in Esx. rewrite Esx, E2. cbn.
        rewrite !orb_true_r. reflexivity.
      + cbn. rewrite !orb_false_r.
        destruct (String.eqb nx na) eqn:Ea.
        { apply String.eqb_eq in Ea.
          assert (sx = sa) by (subst sx sa; rewrite Ea; reflexivity).
          apply String.eqb_neq in Esx. contradiction. }
        destruct (String.eqb nx nb) eqn:Eb; [|reflexivity].
        apply String.eqb_eq in Eb.
        assert (sx = sb) by (subst sx sb; rewrite Eb; reflexivity).
        apply String.eqb_neq in Esx. congruence. }
  unfold findCAILocationFromPersonnel.
  destruct offlinePersonal as [personal|]; [|reflexivity].
  assert (Hfind : forall l,
    List.find (fun p => matchesQuadrantId (p_cuadrante p) a
                        && nonzero (p_lat p) && nonzero (p_lng p)) l
    = List.find (fun p => matchesQuadrantId (p_cuadrante p) b
                          && nonzero (p_lat p) && nonzero (p_lng p)) l).
  { induction l as [|p l IH]; simpl; [reflexivity|].
    rewrite Hsame, IH. reflexivity. }
  rewrite Hfind. reflexivity.
Qed.

End QuadrantIds.

(** ** The hierarchy of a quadrant *)

Section Hierarchy.

Import QuadrantService.

(** X25. [extractJerarquia] reads a code as the SIVICC parser of the SDSCJ
    service does. For a code the full pattern matches, its station and
    subunit codes are the station and the subunit of the parse, and when
    the parse holds a unit the department is the name of that unit, or
    the unit itself when the table does not list it, whatever the
    properties of the feature say. For any other code it holds no station
    and no subunit code, even where the parser finds a station token by
    scanning, and the department is the one of the properties. *)
Theorem hierarchy_follows_the_sivicc_parser
    (codigoCuadrante : string) (props : QuadrantProps) :
  let jerarquia := extractJerarquia codigoCuadrante props in
  let fromProps v := if is_truthy v then v else undefined in
  estacion jerarquia = fromProps (UNIDAD props)
  /\ match regex_match (trim (toUpperCase codigoCuadrante))
             BogotaSDSCJService.longRe with
     | Some _ =>
         exists parsed,
           BogotaSDSCJService.parseSIVICCCode codigoCuadrante = Some parsed
           /\ codigoEstacion jerarquia = get "estacion" parsed
           /\ codigoCAI jerarquia = get "cai" parsed
           /\ departamento jerarquia
              = match get "unidad" parsed with
                | Some unidad =>
                    text (default unidad (get unidad unidadToDepto))
                | None => fromProps (DEPARTAMENTO props)
                end
     | None =>
         codigoEstacion jerarquia = None
         /\ codigoCAI jerarquia = None
         /\ departamento jerarquia = fromProps (DEPARTAMENTO props)
     end.
Proof.
  intros jerarquia fromProps. subst jerarquia. unfold extractJerarquia.
  cbv zeta. change siviccRe with BogotaSDSCJService.longRe.
  set (normalized := trim (toUpperCase codigoCuadrante)).
  assert (Hfields : forall (r : Jerarquia),
    estacion r = undefined ->
    is_truthy (departamento r) = true \/ departamento r = undefined ->
    let r1 := if is_truthy (UNIDAD props) && negb (is_truthy (estacion r))
              then {| departamento := departamento r;
                      estacion := UNIDAD props;
                      codigoEstacion := codigoEstacion r;
                      codigoCAI := codigoCAI r;
                      telefonoCuadrante := telefonoCuadrante r |}
              else r in
    let r2 := if is_truthy (DEPARTAMENTO props) && negb (is_truthy (departamento r1))
              then {| departamento := DEPARTAMENTO props;
                      estacion := estacion r1;
                      codigoEstacion := codigoEstacion r1;
                      codigoCAI := codigoCAI r1;
                      telefonoCuadrante := telefonoCuadrante r1 |}
              else r1 in
    let r3 := if is_truthy (TELEFONO_CUAD props) || is_truthy (TELEFONO' props)
              then {| departamento := departamento r2;
                      estacion := estacion r2;
                      codigoEstacion := codigoEstacion r2;
                      codigoCAI := codigoCAI r2;
                      telefonoCuadrante := or (TELEFONO_CUAD props) (TELEFONO' props) |}
              else r2 in
    estacion r3 = fromProps (UNIDAD props)
    /\ codigoEstacion r3 = codigoEstacion r
    /\ codigoCAI r3 = codigoCAI r
    /\ departamento r3
       = if is_truthy (departamento r) then departamento r
         else fromProps (DEPARTAMENTO props)).
  { intros r Hr Hd r1 r2 r3. subst r1 r2 r3 fromProps. rewrite Hr. cbn.
    destruct (is_truthy (UNIDAD props)), (is_truthy (DEPARTAMENTO props)),
      (is_truthy (departamento r)) eqn:Ed,
      (is_truthy (TELEFONO_CUAD props) || is_truthy (TELEFONO' props));
      cbn; rewrite ?Ed, ?Hr; cbn; rewrite ?Ed;
      destruct Hd as [Hd|Hd]; try discriminate Hd; auto. }
  destruct (regex_match normalized BogotaSDSCJService.longRe) as [ml|] eqn:El.
  - assert (Hne : String.eqb codigoCuadrante "" = false).
    { destruct (String.eqb codigoCuadrante "") eqn:E0; [|reflexivity].
      apply String.eqb_eq in E0. subst codigoCuadrante.
      vm_compute in El. discriminate El. }
    destruct (regex_match_sound _ _ _ El) as (_ & Hcap & _).
    assert (Hdep : exists d,
      (if truthy (capture 1 ml)
       then valueOf (or_else (get (default "" (capture 1 ml)) unidadToDepto)
                             (capture 1 ml))
       else undefined) = d
      /\ (is_truthy d = true \/ d = undefined)
      /\ (if is_truthy d then d else fromProps (DEPARTAMENTO props))
         = match capture 1 ml with
           | Some unidad => text (default unidad (get unidad unidadToDepto))
           | None => fromProps (DEPARTAMENTO props)
           end).
    { destruct (capture 1 ml) as [unidad|] eqn:E1.
      - assert (Hu : truthy (Some unidad) = true).
        { destruct (sivicc_long_groups _ _ (Hcap 1%nat unidad ltac:(lia) E1))
            as [[_ Hu]|[[E _]|[[E _]|[[E _]|[[E _]|[E _]]]]]];
            try discriminate E.
          destruct unidad; [discriminate Hu|reflexivity]. }
        rewrite Hu. change (default "" (Some unidad)) with unidad.
        assert (Hd : valueOf (or_else (get unidad unidadToDepto) (Some unidad))
                     = text (default unidad (get unidad unidadToDepto))
                     /\ default unidad (get unidad unidadToDepto) <> "").
        { unfold or_else, unidadToDepto. cbn [get].
          repeat match goal with
          | |- context [String.eqb unidad ?l] =>
              destruct (String.eqb unidad l); [split; [reflexivity|discriminate]|]
          end.
          cbn. cbn in Hu. rewrite ?Hu. split; [reflexivity|].
          intros ->. discriminate Hu. }
        destruct Hd as [Hd Hdne]. rewrite Hd.
        eexists. split; [reflexivity|].
        assert (Ht : is_truthy (text (default unidad (get unidad unidadToDepto)))
                     = true).
        { cbn. apply negb_true_iff, String.eqb_neq, Hdne. }
        rewrite Ht. auto.
      - exists undefined. cbn. auto. }
    destruct Hdep as (d & Hd0 & Hdt & Hdv). rewrite Hd0.
    match goal with |- context [is_truthy (estacion ?r)] =>
      destruct (Hfields r eq_refl Hdt) as (He & Hce & Hcc & Hd) end.
    cbv zeta in He, Hce, Hcc, Hd.
    split; [exact He|].
    unfold BogotaSDSCJService.parseSIVICCCode. rewrite Hne. fold normalized.
    destruct (regex_match normalized BogotaSDSCJService.shortRe) as [ms|] eqn:Es.
    + exists (BogotaSDSCJService.shortResult normalized ms).
      split; [reflexivity|].
      rewrite !(sivicc_branches_agree normalized ms ml Es El).
      unfold BogotaSDSCJService.longResult.
      cbn [get String.eqb Ascii.eqb Bool.eqb].
      rewrite Hce, Hcc, Hd. cbn [codigoEstacion codigoCAI departamento].
      split; [reflexivity|]. split; [reflexivity|]. exact Hdv.
    + rewrite El. exists (BogotaSDSCJService.longResult ml).
      split; [reflexivity|].
      unfold BogotaSDSCJService.longResult.
      cbn [get String.eqb Ascii.eqb Bool.eqb].
      rewrite Hce, Hcc, Hd. cbn [codigoEstacion codigoCAI departamento].
      split; [reflexivity|]. split; [reflexivity|]. exact Hdv.
  - match goal with |- context [is_truthy (estacion ?r)] =>
      destruct (Hfields r eq_refl ltac:(right; reflexivity))
        as (He & Hce & Hcc & Hd) end.
    cbv zeta in He, Hce, Hcc, Hd.
    split; [exact He|]. rewrite Hce, Hcc, Hd. cbn. auto.
Qed.

End Hierarchy.

(** ** The officers of a roster *)

Section Officers.

Import QuadrantService.

Lemma filterSeen_named (seen : gset string) (l : list Props) (props : Props) :
  In props (filterSeen seen l) -> named props = true.
Proof.
  revert seen. induction l as [|p l IH]; intros seen; simpl; [intros []|].
  destruct (decide (idOf p ∈ seen)); [apply IH|].
  destruct (named p) eqn:E; [|apply IH].
  intros [<-|Hin]; [exact E|eapply IH; exact Hin].
Qed.

Lemma filterSeen_length (seen : gset string) (l : list Props) :
  (length (filterSeen seen l) <= length l)%nat.
Proof.
  revert seen. induction l as [|p l IH]; intros seen; simpl; [lia|].
  destruct (decide (idOf p ∈ seen)).
  - specialize (IH seen). lia.
  - destruct (named p); simpl.
    + specialize (IH (seen ∪ {[idOf p]})). lia.
    + specialize (IH (seen ∪ {[idOf p]})). lia.
Qed.

Lemma toUpperCase_not_empty (s : string) : s <> "" -> toUpperCase s <> "".
Proof. destruct s; [congruence|discriminate]. Qed.

(** The rank pattern matches at the start of the name only, and its group
    holds the first two characters of the name. *)
Lemma rank_is_a_prefix (name : string) (rangeMatch : captures) :
  regex_match name rangeRe = Some rangeMatch ->
  capture 1 rangeMatch = Some (substring 0 2 name).
Proof.
  intros E.
  change rangeRe
    with (Cat Bol (seq [Group 1 (Alt (lit "PT") (Alt (lit "SI") (Alt (lit "IT")
                          (Alt (lit "CT") (Alt (lit "MY") (Alt (lit "TE")
                          (Alt (lit "ST") (lit "AG"))))))));
                        Opt (Lit ".");
                        Class Space])) in E.
  apply anchored_match_parses in E as (w & t & m' & -> & Hw & ->).
  cbn [parses seq lit] in Hw.
  take_apart; subst;
    cbv beta iota zeta delta [String.append]; reflexivity.
Qed.

(** X26. Every officer that [processPersonnel] returns has a name that is
    not empty and is in upper case, a telephone that is neither empty nor
    "0" (it is "S/N" when the record has none), and for initials the
    first two characters of the name, whether or not the name starts
    with a rank; and there are no more officers than records. *)
Theorem officers_are_named_and_reachable
    (personnelFeatures : list feature) :
  (length (processPersonnel personnelFeatures) <= length personnelFeatures)%nat
  /\ forall officer, In officer (processPersonnel personnelFeatures) ->
       name officer <> ""
       /\ toUpperCase (name officer) = name officer
       /\ phone officer <> ""
       /\ phone officer <> "0"
       /\ initials officer = substring 0 2 (name officer).
Proof.
  unfold processPersonnel. split.
  { rewrite length_map.
    etransitivity; [apply filterSeen_length|]. rewrite length_map. lia. }
  intros officer Hin. apply in_map_iff in Hin as (props & <- & Hin).
  apply filterSeen_named in Hin.
  unfold named, empleadoOf in Hin. apply andb_true_iff in Hin as [Ht _].
  unfold toOfficer. cbv zeta. cbn [name phone initials].
  assert (Hname : exists s, s <> ""
            /\ interpolate (or (or (EMPLEADO props) (nombre props)) (text "")) = s).
  { destruct (or (EMPLEADO props) (nombre props)) as [| |s] eqn:E;
      try discriminate Ht.
    exists s. cbn in Ht. apply negb_true_iff, String.eqb_neq in Ht.
    split; [exact Ht|]. unfold or at 1. cbn. 
    destruct (String.eqb s "") eqn:Es; [apply String.eqb_eq in Es; contradiction|].
    reflexivity. }
  destruct Hname as (s & Hs & ->).
  split; [apply toUpperCase_not_empty, Hs|].
  split; [apply toUpperCase_idempotent|].
  split; [|split].
  - destruct (or (TELEFONO props) (telefono props)) as [| |p]; cbn;
      try discriminate.
    destruct (String.eqb p "") eqn:E1; cbn; [discriminate|].
    destruct (String.eqb p "0") eqn:E2; cbn; [discriminate|].
    apply String.eqb_neq, E1.
  - destruct (or (TELEFONO props) (telefono props)) as [| |p]; cbn;
      try discriminate.
    destruct (String.eqb p "") eqn:E1; cbn; [discriminate|].
    destruct (String.eqb p "0") eqn:E2; cbn; [discriminate|].
    apply String.eqb_neq, E2.
  - destruct (regex_match (toUpperCase s) rangeRe) as [rangeMatch|] eqn:E;
      [|reflexivity].
    rewrite (rank_is_a_prefix _ _ E). reflexivity.
Qed.

End Officers.

(** ** The connectivity probe *)

Section ConnectivityProbe.

Import QuadrantService.
Context `{Probe}.

Lemma spaced_snoc (gap t : Z) (times : list Z) :
  spaced gap times ->
  (times <> [] -> (gap <= t - List.last times 0)%Z) ->
  spaced gap (times ++ [t]).
Proof.
  induction times as [|t1 times IH]; intros Hs Hlast; [exact I|].
  destruct times as [|t2 times].
  - simpl. split; [|exact I]. apply Hlast. discriminate.
  - destruct Hs as [Hgap Hs].
    change (spaced gap (t1 :: (t2 :: times) ++ [t])).
    cbn [app spaced]. split; [exact Hgap|].
    apply IH; [exact Hs|].
    intros _. apply Hlast. discriminate.
Qed.

Lemma last_cons {A : Type} (l : list A) (a d : A) :
  List.last (a :: l) d = List.last l a.
Proof.
  revert a d. induction l as [|x l IH]; intros a d; [reflexivity|].
  change (List.last (a :: x :: l) d) with (List.last (x :: l) d).
  rewrite (IH x d), (IH x a). reflexivity.
Qed.

Lemma checkOnlineStatus_step (st : status) :
  lastOnlineCheck st = List.last (probed st) 0%Z ->
  spaced ONLINE_CHECK_INTERVAL (probed st) ->
  let run := checkOnlineStatus st in
  fst run = negb (isOfflineMode (snd run))
  /\ lastOnlineCheck (snd run) = List.last (probed (snd run)) 0%Z
  /\ spaced ONLINE_CHECK_INTERVAL (probed (snd run)).
Proof.
  intros Hlast Hs. unfold checkOnlineStatus. cbv zeta.
  destruct (_ <? _)%Z eqn:E; [cbn; auto|].
  apply Z.ltb_ge in E.
  destruct (probe (web st)) as [[|] w]; cbn [fst snd isOfflineMode negb
    lastOnlineCheck probed];
    (split; [reflexivity|]); (split; [rewrite last_last; reflexivity|]);
    apply spaced_snoc; auto; intros _; rewrite <- Hlast; exact E.
Qed.

(** X27. Through any series of checks, whatever the service answers and
    however the clock moves, two requests of the probe are never sent
    less than a minute apart by the clock as each check reads it; and
    the connection status read after the series is the answer of the last
    check, online or offline and never alternative. *)
Theorem probes_are_a_minute_apart (moves : list (Web -> Web)) (w : Web) :
  let run := checkRepeatedly moves (starting w) in
  spaced 60000 (probed (snd run))
  /\ length (fst run) = length moves
  /\ getConnectionStatus (snd run)
     = (if List.last (fst run) true then Online else Offline)
  /\ getConnectionStatus (snd run) <> Alternative.
Proof.
  assert (Hgen : forall ms st,
    lastOnlineCheck st = List.last (probed st) 0%Z ->
    spaced ONLINE_CHECK_INTERVAL (probed st) ->
    let run := checkRepeatedly ms st in
    spaced ONLINE_CHECK_INTERVAL (probed (snd run))
    /\ length (fst run) = length ms
    /\ List.last (fst run) (negb (isOfflineMode st))
       = negb (isOfflineMode (snd run))).
  { induction ms as [|f ms IH]; intros st Hlast Hs; cbv zeta.
    - cbn. auto.
    - cbn [checkRepeatedly].
      destruct (checkOnlineStatus_step (wait f st) Hlast Hs) as (Ha & Hl & Hsp).
      cbv zeta in Ha, Hl, Hsp.
      destruct (checkOnlineStatus (wait f st)) as [answer st1].
      cbn [fst snd] in Ha, Hl, Hsp.
      destruct (IH st1 Hl Hsp) as (Hsp' & Hlen & Hans).
      cbv zeta in Hsp', Hlen, Hans.
      destruct (checkRepeatedly ms st1) as [answers st2].
      cbn [fst snd] in *.
      split; [exact Hsp'|]. split; [cbn [length]; rewrite Hlen; reflexivity|].
      rewrite <- Hans, Ha. apply last_cons. }
  intros run.
  destruct (Hgen moves (starting w) eq_refl I) as (Hsp & Hlen & Hans).
  cbv zeta in Hsp, Hlen, Hans. fold run in Hsp, Hlen, Hans.
  split; [exact Hsp|]. split; [exact Hlen|].
  unfold getConnectionStatus. cbn [starting isOfflineMode negb] in Hans.
  rewrite Hans.
  split; [reflexivity|].
  destruct (negb (isOfflineMode (snd run))); discriminate.
Qed.

End ConnectivityProbe.

(** ** The resolver over the linked services *)

Section FusionOfSources.

Context (webmap : CaiService.Remote) (sdscj : BogotaSDSCJService.Remote)
        (soda : SodaService.Remote).

(** X28. With the three services linked, a code of Bogota whose station
    has a CAI in the SDSCJ layer is resolved by that layer alone: the
    answer is the position and name of a cached SDSCJ CAI whose key
    starts with the station of the code, the WebMap index is neither
    loaded nor changed, and the directory service is not consulted. *)
Theorem bogota_codes_are_resolved_by_the_sdscj_layer
    (quadrantId station : string) (parsed : object)
    (quadrantCenter : option CaiService.LatLng)
    (st : @CaiService.state (Fusion.linked webmap sdscj soda))
    (c : BogotaSDSCJService.SDSCJEquipamiento) :
  let layers :=
    BogotaSDSCJService.loadEquipamientos
      (Fusion.sdscjService webmap sdscj soda (CaiService.net st)) in
  let ofStation e :=
    startsWith (toUpperCase (BogotaSDSCJService.codigoEstacionCAI e)) station in
  let run := CaiService.getCAILocationForQuadrant quadrantId quadrantCenter st in
  includes (toUpperCase quadrantId) "MEBOG"
  || startsWith (toUpperCase quadrantId) "E" = true ->
  BogotaSDSCJService.parseSIVICCCode quadrantId = Some parsed ->
  get "estacion" parsed = Some station ->
  In c (BogotaSDSCJService.cachedCAIs layers) ->
  ofStation c = true ->
  exists e,
    In e (BogotaSDSCJService.cachedCAIs layers)
    /\ ofStation e = true
    /\ fst run = Return (Some (Fusion.toLocation (BogotaSDSCJService.locationOf e)))
    /\ CaiService.calls (snd run)
       = CaiService.calls st ++ [CaiService.GetCAIFromSDSCJ]
    /\ CaiService.cachedCAIs (snd run) = CaiService.cachedCAIs st
    /\ Fusion.sodaService webmap sdscj soda (CaiService.net (snd run))
       = Fusion.sodaService webmap sdscj soda (CaiService.net st)
    /\ Fusion.sdscjService webmap sdscj soda (CaiService.net (snd run)) = layers.
Proof.
  intros layers ofStation run Hbogota Hparse Hst Hin Hc.
  subst run ofStation. cbv beta in *.
  pose proof (findEquipamientoByCodigo_cases quadrantId station parsed
                (Fusion.sdscjService webmap sdscj soda (CaiService.net st))
                Hparse Hst) as Hcases.
  pose proof (findEquipamientoByCodigo_state quadrantId
                (Fusion.sdscjService webmap sdscj soda (CaiService.net st)))
    as Hstate.
  cbv zeta in Hcases. fold layers in Hcases, Hstate.
  unfold CaiService.getCAILocationForQuadrant. cbv zeta. rewrite Hbogota.
  unfold CaiService.await.
  cbn [CaiService.getCAIFromSDSCJ Fusion.linked].
  unfold BogotaSDSCJService.getCAIFromSDSCJ.
  destruct (BogotaSDSCJService.findEquipamientoByCodigo quadrantId
              (Fusion.sdscjService webmap sdscj soda (CaiService.net st)))
    as [[e|] s]; cbn [fst snd] in Hcases, Hstate; subst s.
  - destruct Hcases as [[He Hs]|[Hnone _]].
    + exists e. cbn. auto 10.
    + rewrite (Hnone c Hin) in Hc. discriminate Hc.
  - destruct Hcases as [Hnone _].
    rewrite (Hnone c Hin) in Hc. discriminate Hc.
Qed.

End FusionOfSources.

(** ** Lookups and the normal form of a code *)

Section LookupsNormalForm.

Context {webmap : CaiService.Remote} {sdscj : BogotaSDSCJService.Remote}
        {soda : SodaService.Remote}.

Lemma quadrant_reads_normal_form (code : string) :
  CaiService.parseQuadrantCode code
  = CaiService.parseQuadrantCode (trim (toUpperCase code)).
Proof.
  unfold CaiService.parseQuadrantCode. rewrite normalize_idempotent.
  reflexivity.
Qed.

(** X29. The lookups by code of the three services read the code through
    its normal form only: two codes that differ in case or in the white
    space around them find the same equipment, the same station, the same
    WebMap CAI and the same directory record, and leave the caches in the
    same state. *)
Theorem lookups_by_code_ignore_case_and_spaces (code other : string) :
  trim (toUpperCase code) = trim (toUpperCase other) ->
  (forall st, BogotaSDSCJService.findEquipamientoByCodigo code st
              = BogotaSDSCJService.findEquipamientoByCodigo other st)
  /\ (forall st, BogotaSDSCJService.getEstacionFromSDSCJ code st
                 = BogotaSDSCJService.getEstacionFromSDSCJ other st)
  /\ (forall st, CaiService.findCAIByCuadrante code st
                 = CaiService.findCAIByCuadrante other st)
  /\ (forall st, SodaService.findCAIForCuadrante code st
                 = SodaService.findCAIForCuadrante other st)
  /\ (forall st, SodaService.getJerarquiaCuadrante code st
                 = SodaService.getJerarquiaCuadrante other st).
Proof.
  intros E.
  assert (Hsivicc : BogotaSDSCJService.parseSIVICCCode code
                    = BogotaSDSCJService.parseSIVICCCode other).
  { rewrite (sivicc_reads_normal_form code), (sivicc_reads_normal_form other), E.
    reflexivity. }
  assert (Hquadrant : CaiService.parseQuadrantCode code
                      = CaiService.parseQuadrantCode other).
  { rewrite (quadrant_reads_normal_form code),
      (quadrant_reads_normal_form other), E.
    reflexivity. }
  assert (Hsoda : forall st, SodaService.findCAIForCuadrante code st
                             = SodaService.findCAIForCuadrante other st).
  { intros st. unfold SodaService.findCAIForCuadrante, SodaService.searchDirectorio.
    cbv zeta. rewrite E. reflexivity. }
  split; [|split; [|split; [|split]]].
  - intros st. unfold BogotaSDSCJService.findEquipamientoByCodigo.
    rewrite Hsivicc. reflexivity.
  - intros st. unfold BogotaSDSCJService.getEstacionFromSDSCJ.
    rewrite Hsivicc. reflexivity.
  - intros st. unfold CaiService.findCAIByCuadrante.
    rewrite Hquadrant. reflexivity.
  - exact Hsoda.
  - intros st. unfold SodaService.getJerarquiaCuadrante. rewrite Hsoda.
    reflexivity.
Qed.

End LookupsNormalForm.

(** ** The index within a bounding box *)

Section BoundingBox.

Import CaiService.
Context `{Remote}.

Lemma leb_trans (a b c : number) :
  leb a b = true -> leb b c = true -> leb a c = true.
Proof.
  destruct a as [x| | |], b as [y| | |], c as [z| | |]; simpl;
    try discriminate; try reflexivity.
  intros Hab Hbc. apply Qle_bool_iff in Hab, Hbc. apply Qle_bool_iff. lra.
Qed.

Lemma ltb_not_leb (a b : number) : ltb b a = true -> leb a b = false.
Proof.
  destruct a as [x| | |], b as [y| | |]; simpl;
    try discriminate; try reflexivity.
  intros Hba. apply negb_true_iff in Hba. exact Hba.
Qed.

Lemma leb_not_NaN (a b : number) :
  leb a b = true -> a <> NaN /\ b <> NaN.
Proof.
  destruct a as [x| | |], b as [y| | |]; simpl; try discriminate;
    split; discriminate.
Qed.

Lemma filter_is_sublist {A : Type} (f : A -> bool) (l : list A) :
  sublist (List.filter f l) l.
Proof.
  induction l as [|a l IH]; simpl; [constructor|].
  destruct (f a); [apply sublist_skip|apply sublist_cons]; exact IH.
Qed.

(** X30. [getCAIsInBounds] answers the CAIs of the index that
    [getAllCAIs] answers, in the same order, and never one whose latitude
    or longitude is not a number. For a box whose bounds are inverted it
    answers none. The count of Bogota in the statistics is the number of
    CAIs it answers for the box of Bogota. *)
Theorem bounding_box_reads_the_index
    (minLat maxLat minLng maxLng : number) (st : state) :
  let inside := fst (getCAIsInBounds minLat maxLat minLng maxLng st) in
  let all := fst (getAllCAIs st) in
  sublist inside all
  /\ snd (getCAIsInBounds minLat maxLat minLng maxLng st) = snd (getAllCAIs st)
  /\ (forall c, In c inside -> lat c <> NaN /\ lng c <> NaN)
  /\ (ltb maxLat minLat = true \/ ltb maxLng minLng = true -> inside = [])
  /\ bogota (fst (getCAIStats st))
     = length (fst (getCAIsInBounds (Finite (44 # 10)) (Finite (49 # 10))
                      (Finite (-743 # 10)) (Finite (-739 # 10)) st)).
Proof.
  intros inside all. subst inside all.
  unfold getCAIsInBounds, getAllCAIs, getCAIStats. cbv zeta.
  cbn [fst snd bogota].
  split; [apply filter_is_sublist|].
  split; [reflexivity|].
  split; [|split; [|reflexivity]].
  - intros c Hin. apply List.filter_In in Hin as [_ Hb].
    unfold inBounds in Hb.
    apply andb_true_iff in Hb as [Hb Hlng2].
    apply andb_true_iff in Hb as [Hb Hlng1].
    apply andb_true_iff in Hb as [Hlat1 Hlat2].
    split; [apply (leb_not_NaN _ _ Hlat2)|apply (leb_not_NaN _ _ Hlng2)].
  - intros Hinverted.
    assert (Hnone : forall c, inBounds minLat maxLat minLng maxLng c = false).
    { intros c. unfold inBounds.
      destruct (leb minLat (lat c)) eqn:E1; [|reflexivity].
      destruct (leb (lat c) maxLat) eqn:E2; [|reflexivity].
      destruct (leb minLng (lng c)) eqn:E3; [|reflexivity].
      destruct (leb (lng c) maxLng) eqn:E4; [|reflexivity].
      exfalso. destruct Hinverted as [Hi|Hi].
      - pose proof (leb_trans _ _ _ E1 E2) as Ht.
        rewrite (ltb_not_leb _ _ Hi) in Ht. discriminate Ht.
      - pose proof (leb_trans _ _ _ E3 E4) as Ht.
        rewrite (ltb_not_leb _ _ Hi) in Ht. discriminate Ht. }
    induction (cachedCAIs (loadCAIs st)) as [|c l IH]; [reflexivity|].
    simpl. rewrite Hnone. exact IH.
Qed.

End BoundingBox.

Lemma webmap_index_never_empties_witness :
  CaiService.cachedCAIs CaiService.chapinero <> []
  /\ CaiService.cachedCAIs
       (@CaiService.loadRepeatedly CaiService.quiet
          [fun n => (n + 400000)%Z; fun n => (n + 400000)%Z]
          CaiService.chapinero) <> [].
Proof.
  split; [discriminate|].
  apply (@webmap_index_never_empties CaiService.quiet
           [fun n => (n + 400000)%Z; fun n => (n + 400000)%Z]
           CaiService.chapinero).
  discriminate.
Defined.

Lemma sources_are_read_once_witness :
  CaiService.caiLoadedFromLocal CaiService.chapinero = true
  /\ exists new,
       CaiService.calls
         (@CaiService.loadRepeatedly CaiService.quiet [fun n => (n + 400000)%Z]
            CaiService.chapinero)
       = CaiService.calls CaiService.chapinero ++ new
       /\ ~ In CaiService.LoadCAIsFromLocal new.
Proof.
  split; [reflexivity|].
  destruct (@sources_are_read_once CaiService.quiet [fun n => (n + 400000)%Z]
              CaiService.chapinero) as (new & Hcalls & Hlocal & _).
  exists new. split; [exact Hcalls|]. apply Hlocal. reflexivity.
Defined.

Lemma index_is_final_after_both_sources_witness :
  let st := @CaiService.mkState CaiService.quiet
              [CaiService.webMapCAI "CAI_05" "E10-05" "CAI LOURDES"
                 (4648 # 1000) (-74063 # 1000)]
              true true 1000%Z 2000%Z
              [CaiService.LoadCAIsFromLocal; CaiService.LoadCAIsFromArcGIS] in
  CaiService.caiLoadedFromLocal st = true
  /\ CaiService.caiLoadedFromAPI st = true
  /\ CaiService.calls
       (@CaiService.loadRepeatedly CaiService.quiet [fun n => (n + 400000)%Z] st)
     = CaiService.calls st
  /\ CaiService.cachedCAIs
       (@CaiService.loadRepeatedly CaiService.quiet [fun n => (n + 400000)%Z] st)
     = CaiService.cachedCAIs st.
Proof.
  intros st.
  split; [reflexivity|]. split; [reflexivity|].
  apply (@index_is_final_after_both_sources CaiService.quiet [fun n => (n + 400000)%Z] st);
    reflexivity.
Defined.

Lemma subunit_number_selects_among_several_witness :
  exists found,
    fst (CaiService.findCAIByCuadrante "MEBOGMNVCCC01E10C05000004"
           CaiService.chapinero) = Some found
    /\ CaiService.nombre found = "CAI LOURDES".
Proof.
  destruct (@subunit_number_selects_among_several CaiService.quiet
              "MEBOGMNVCCC01E10C05000004" "C05"
              (CaiService.mkQuadrantCode "E10" "04" (Some "C05"))
              CaiService.chapinero
              (CaiService.webMapCAI "CAI_05" "E10-05" "CAI LOURDES"
                 (4648 # 1000) (-74063 # 1000)))
    as (found & Hfound & _ & _).
  - reflexivity.
  - reflexivity.
  - vm_compute. lia.
  - vm_compute. right. left. reflexivity.
  - vm_compute. reflexivity.
  - exists found. split; [exact Hfound|].
    vm_compute in Hfound. injection Hfound as <-. reflexivity.
Defined.

Lemma code_lookup_prefers_a_cai_of_the_station_witness :
  exists found,
    fst (BogotaSDSCJService.findEquipamientoByCodigo
           "MEBOGMNVCCC01E08C02000033" BogotaSDSCJService.kennedy) = Some found
    /\ In found (BogotaSDSCJService.cachedCAIs BogotaSDSCJService.kennedy).
Proof.
  pose proof (@code_lookup_prefers_a_cai_of_the_station
                BogotaSDSCJService.offline
                "MEBOGMNVCCC01E08C02000033" "E08"
                [("unidad", Some "MEBOG"); ("modelo", Some "MNVCC");
                 ("distrito", Some "C01"); ("estacion", Some "E08");
                 ("cai", Some "C02"); ("cuadrante", Some "000033");
                 ("estacionCAI", Some "E08C02")]
                BogotaSDSCJService.kennedy eq_refl eq_refl) as Hcases.
  cbv zeta in Hcases.
  destruct (fst (BogotaSDSCJService.findEquipamientoByCodigo
                   "MEBOGMNVCCC01E08C02000033" BogotaSDSCJService.kennedy))
    as [found|] eqn:Hfound.
  - exists found. split; [reflexivity|].
    destruct Hcases as [[Hin _]|[Hnone _]]; [exact Hin|].
    specialize (Hnone (BogotaSDSCJService.equipamiento 1 "CAI TIMIZA" "E08C01"
                         (4610 # 1000) (-74150 # 1000) true)
                      ltac:(left; reflexivity)).
    discriminate Hnone.
  - destruct Hcases as [Hnone _].
    specialize (Hnone (BogotaSDSCJService.equipamiento 1 "CAI TIMIZA" "E08C01"
                         (4610 # 1000) (-74150 # 1000) true)
                      ltac:(left; reflexivity)).
    discriminate Hnone.
Defined.

Lemma a_station_found_means_an_equipment_found_witness :
  exists found,
    fst (BogotaSDSCJService.findEquipamientoByCodigo "e08"
           BogotaSDSCJService.kennedy) = Some found.
Proof.
  apply (@a_station_found_means_an_equipment_found BogotaSDSCJService.offline
           "e08" BogotaSDSCJService.kennedy
           (BogotaSDSCJService.equipamiento 3 "ESTACION KENNEDY" "E08"
              (4630 # 1000) (-74150 # 1000) false)).
  reflexivity.
Defined.

Lemma sdscj_layers_never_empty_witness :
  BogotaSDSCJService.cachedEstaciones
    (@BogotaSDSCJService.loadRepeatedly BogotaSDSCJService.offline
       [fun n => (n + 700000)%Z] BogotaSDSCJService.kennedy) <> [].
Proof.
  destruct (@sdscj_layers_never_empty BogotaSDSCJService.offline
              [fun n => (n + 700000)%Z] BogotaSDSCJService.kennedy)
    as [_ Hstations].
  apply Hstations. discriminate.
Defined.

Lemma directory_codes_parse_alike_in_both_services_witness :
  exists sdscj,
    BogotaSDSCJService.parseSIVICCCode "mnvccE01000004" = Some sdscj
    /\ get "unidad" sdscj = Some "MNVCC"
    /\ get "modelo" sdscj = None.
Proof.
  destruct (directory_codes_parse_alike_in_both_services "mnvccE01000004"
              [("unidad", None); ("distrito", None); ("estacion", Some "E01");
               ("cai", None); ("cuadrante", Some "000004")] eq_refl)
    as (sdscj & Hp & _ & _ & _ & _ & _ & Hu & Hm).
  exists sdscj. auto.
Defined.

Lemma phone_lookup_compares_digits_only_witness :
  let st := @SodaService.mkState SodaService.unreachable
              [SodaService.usaquen] true 1000%Z 2000%Z [SodaService.Fetch] in
  exists found,
    fst (SodaService.findCuadranteByTelefono "(300) 000-0000" st) = Some found
    /\ SodaService.numero_celular_cuadrante found = "3000000000".
Proof.
  intros st.
  destruct (@phone_lookup_compares_digits_only SodaService.unreachable
              "(300) 000-0000" SodaService.usaquen st)
    as (before & found & after & Hfound & _ & _ & _).
  - left. reflexivity.
  - reflexivity.
  - exists found. split; [exact Hfound|].
    vm_compute in Hfound. injection Hfound as <-. reflexivity.
Defined.

Lemma id_matching_is_an_equivalence_witness :
  QuadrantService.matchesQuadrantId (Some "E01-04") "e10-04 "
  = QuadrantService.matchesQuadrantId (Some "e10-04 ") "E01-04".
Proof.
  destruct (id_matching_is_an_equivalence "E01-04" "e10-04 " "04")
    as (_ & Hsym & _); [discriminate|discriminate|exact Hsym].
Defined.

Lemma roster_lookup_respects_id_matching_witness :
  let roster :=
    Some [QuadrantService.mkPersonal (Some "E10-04") (Some "CAI LOURDES")
            (Some (Finite (4648 # 1000))) (Some (Finite (-74063 # 1000)))] in
  QuadrantService.findCAILocationFromPersonnel roster "E01-04"
  = QuadrantService.findCAILocationFromPersonnel roster "04".
Proof.
  intros roster.
  apply (roster_lookup_respects_id_matching roster "E01-04" "04").
  - discriminate.
  - reflexivity.
Defined.

Lemma bogota_codes_are_resolved_by_the_sdscj_layer_witness :
  let world :=
    Fusion.mkWorld CaiService.quiet BogotaSDSCJService.offline
      SodaService.unreachable 2000%Z BogotaSDSCJService.kennedy
      (@SodaService.initial SodaService.unreachable 2000%Z) in
  let st :=
    @CaiService.initial
      (Fusion.linked CaiService.quiet BogotaSDSCJService.offline
         SodaService.unreachable) world in
  exists e,
    fst (CaiService.getCAILocationForQuadrant "MEBOGMNVCCC01E08C02000033"
           None st)
    = Return (Some (Fusion.toLocation (BogotaSDSCJService.locationOf e)))
    /\ CaiService.calls
         (snd (CaiService.getCAILocationForQuadrant "MEBOGMNVCCC01E08C02000033"
                 None st))
       = [CaiService.GetCAIFromSDSCJ].
Proof.
  intros world st.
  destruct (bogota_codes_are_resolved_by_the_sdscj_layer
              CaiService.quiet BogotaSDSCJService.offline SodaService.unreachable
              "MEBOGMNVCCC01E08C02000033" "E08"
              [("unidad", Some "MEBOG"); ("modelo", Some "MNVCC");
               ("distrito", Some "C01"); ("estacion", Some "E08");
               ("cai", Some "C02"); ("cuadrante", Some "000033");
               ("estacionCAI", Some "E08C02")]
              None st
              (BogotaSDSCJService.equipamiento 1 "CAI TIMIZA" "E08C01"
                 (4610 # 1000) (-74150 # 1000) true))
    as (e & _ & _ & Hanswer & Hcalls & _).
  - reflexivity.
  - reflexivity.
  - reflexivity.
  - left. reflexivity.
  - reflexivity.
  - exists e. split; [exact Hanswer|exact Hcalls].
Defined.

Lemma lookups_by_code_ignore_case_and_spaces_witness :
  BogotaSDSCJService.findEquipamientoByCodigo " e08c02 "
    BogotaSDSCJService.kennedy
  = BogotaSDSCJService.findEquipamientoByCodigo "E08C02"
      BogotaSDSCJService.kennedy.
Proof.
  destruct (@lookups_by_code_ignore_case_and_spaces CaiService.quiet
              BogotaSDSCJService.offline SodaService.unreachable
              " e08c02 " "E08C02" eq_refl) as (Hequipment & _).
  apply Hequipment.
Defined.
